(** * vimb key mapping (src/map.c): a shallow embedding and its properties

    The embedding follows [map.c] function by function.  C [int]s are [Z],
    [char]s are [ascii], the fixed arrays [map.queue] and [map.showbuf] are
    lists that keep their length and are read and written by index, C strings
    are the list of their characters before the terminating NUL, and the
    [GSList] of mappings is a list of records.  An array access outside the
    array is undefined behaviour in C: the embedding reports it as [Undef]
    instead of inventing a result. *)

From Stdlib Require Import ZArith Ascii String Lia.
From stdpp Require Import base numbers list strings.

Local Open Scope Z_scope.

(** ** Outcomes of a C computation *)

Inductive res (A : Type) : Type :=
| Ok (a : A)     (* the computation returns [a] *)
| Undef          (* an array is read or written outside its bounds *)
| OutOfFuel.     (* the loop did not finish within the given number of rounds *)
Arguments Ok {A} a.
Arguments Undef {A}.
Arguments OutOfFuel {A}.

Global Instance res_bind : MBind res := λ A B (k : A → res B) (r : res A),
  match r with
  | Ok a => k a
  | Undef => Undef
  | OutOfFuel => OutOfFuel
  end.

(** ** Characters and arrays *)

Definition NUL : ascii := "000"%char.

(** The value of a [char] as an unsigned byte.  Where [map.c] compares a
    [char] with constants below 0x80 the result is the same whether [char] is
    signed or not: a byte above 0x7f fails [>= 0x41] when signed and
    [<= 0x7a] when unsigned. *)
Definition char_code (c : ascii) : Z := Z.of_N (N_of_ascii c).

Definition char_of (z : Z) : ascii := ascii_of_N (Z.to_N (z mod 256)).

(** [(unsigned int)c] for a [char c] where plain [char] is signed and
    [unsigned int] has 32 bits, as on x86: a byte from 0x80 on is a negative
    [char], and the conversion adds [2^32] to it. *)
Definition uint_of_char (c : ascii) : Z :=
  if bool_decide (char_code c < 0x80) then char_code c
  else char_code c - 0x100 + 0x100000000.

(** [a[i]] as an rvalue. *)
Definition rd (a : list ascii) (i : Z) : res ascii :=
  if bool_decide (0 ≤ i) then
    match a !! Z.to_nat i with
    | Some c => Ok c
    | None => Undef
    end
  else Undef.

(** [a[i] = c]. *)
Definition wr (a : list ascii) (i : Z) (c : ascii) : res (list ascii) :=
  if bool_decide (0 ≤ i < Z.of_nat (length a)) then Ok (<[Z.to_nat i := c]> a)
  else Undef.

(** [LENGTH(a)] of main.h: the number of elements of an array. *)
Definition LENGTH (a : list ascii) : Z := Z.of_nat (length a).

(** The array a C string occupies: its characters and the terminating NUL. *)
Definition cstr (s : list ascii) : list ascii := s ++ [NUL].

(** ** The C library functions [map.c] calls

    Each walks its arguments the way the C function walks its pointers; the
    list arguments are the arrays as seen from the pointers passed. *)

Fixpoint strlen (s : list ascii) : Z :=
  match s with
  | [] => 0
  | c :: s' => if bool_decide (c = NUL) then 0 else 1 + strlen s'
  end.

(** [strncmp(s1, s2, n)]: compares at most [n] characters and stops after a
    NUL; the result is zero exactly when no difference was found. *)
Fixpoint strncmp_n (n : nat) (s1 s2 : list ascii) : res Z :=
  match n with
  | O => Ok 0
  | S n' =>
      match s1, s2 with
      | c1 :: t1, c2 :: t2 =>
          if bool_decide (c1 ≠ c2) then Ok (char_code c1 - char_code c2)
          else if bool_decide (c1 = NUL) then Ok 0
          else strncmp_n n' t1 t2
      | _, _ => Undef
      end
  end.

Definition strncmp (s1 s2 : list ascii) (n : Z) : res Z :=
  strncmp_n (Z.to_nat n) s1 s2.

(** [strcmp(s1, s2)]. *)
Fixpoint strcmp (s1 s2 : list ascii) : res Z :=
  match s1, s2 with
  | c1 :: t1, c2 :: t2 =>
      if bool_decide (c1 ≠ c2) then Ok (char_code c1 - char_code c2)
      else if bool_decide (c1 = NUL) then Ok 0
      else strcmp t1 t2
  | _, _ => Undef
  end.

(** [strncpy(dst, src, n)]: writes exactly [n] characters to [dst], those of
    [src] up to its NUL and NULs from there on. *)
Fixpoint strncpy_pad (n : nat) (dst : list ascii) (i : Z) : res (list ascii) :=
  match n with
  | O => Ok dst
  | S n' => dst' ← wr dst i NUL; strncpy_pad n' dst' (i + 1)
  end.

Fixpoint strncpy_at (n : nat) (dst src : list ascii) (i : Z) : res (list ascii) :=
  match n with
  | O => Ok dst
  | S n' =>
      match src with
      | c :: src' =>
          if bool_decide (c = NUL) then strncpy_pad n dst i
          else dst' ← wr dst i c; strncpy_at n' dst' src' (i + 1)
      | [] => Undef
      end
  end.

Definition strncpy (dst src : list ascii) (n : Z) : res (list ascii) :=
  strncpy_at (Z.to_nat n) dst src 0.

(** What a function reading a C string from the start of [buf] sees. *)
Fixpoint c_string (buf : list ascii) : list ascii :=
  match buf with
  | [] => []
  | c :: buf' => if bool_decide (c = NUL) then [] else c :: c_string buf'
  end.

(** ** The key-notation translator *)

(** The table [keys] of [map_convert_keylabel]: label, its length, the raw
    string and its length. *)
Definition keylabels : list (list ascii * Z * list ascii * Z) :=
  [ (list_ascii_of_string "<CR>",  4, ["010"%char], 1);
    (list_ascii_of_string "<Tab>", 5, ["009"%char], 1);
    (list_ascii_of_string "<Esc>", 5, ["027"%char], 1) ].

(** The [for] loop of [map_convert_keylabel] over [keys]; [None] is the
    [NULL] it returns with [*len = 0]. *)
Fixpoint map_convert_keylabel_from (keys : list (list ascii * Z * list ascii * Z))
    (p : list ascii) (inlen : Z) : res (option (list ascii) * Z) :=
  match keys with
  | [] => Ok (None, 0)
  | (label, len, ch, chlen) :: keys' =>
      if bool_decide (inlen = len) then
        r ← strncmp (cstr label) p inlen;
        if bool_decide (r = 0) then Ok (Some ch, chlen)
        else map_convert_keylabel_from keys' p inlen
      else map_convert_keylabel_from keys' p inlen
  end.

Definition map_convert_keylabel (p : list ascii) (inlen : Z)
    : res (option (list ascii) * Z) :=
  map_convert_keylabel_from keylabels p inlen.

(** The [do ... while] of [map_convert_keys] that looks for the [>] of a
    symbolic name.  [q] is the array seen from [&p[symlen]] and [rem] the
    number of characters from [p] to [&in[inlen]]. *)
Fixpoint scan_symbol (q : list ascii) (rem symlen : Z) : res Z :=
  if bool_decide (symlen = rem) then Ok symlen
  else
    match q with
    | [] => Undef
    | c :: q' =>
        if bool_decide (c = "<"%char) || bool_decide (c = " "%char) then Ok symlen
        else if bool_decide (c ≠ ">"%char) then scan_symbol q' rem (symlen + 1)
        else Ok (symlen + 1)
    end.

(** The test for a [<C-X>] in [map_convert_keys]: [raw] and [rawlen] after
    [if (symlen == 5 && p[2] == '-') { ... }]. *)
Definition convert_ctrl (p : list ascii) (symlen : Z) : res (option (list ascii) * Z) :=
  if bool_decide (symlen = 5) then
    p2 ← rd p 2;
    if bool_decide (p2 = "-"%char) then
      (* is it a <C-X> *)
      p1 ← rd p 1;
      if bool_decide (p1 = "C"%char) then
        p3 ← rd p 3;
        if bool_decide (0x41 ≤ char_code p3) && bool_decide (char_code p3 ≤ 0x5d)
        then Ok (Some [char_of (char_code p3 - 0x40)], 1)
        else if bool_decide (0x61 ≤ char_code p3) && bool_decide (char_code p3 ≤ 0x7a)
        then Ok (Some [char_of (char_code p3 - 0x60)], 1)
        else Ok (None, 0)
      else Ok (None, 0)
    else Ok (None, 0)
  else Ok (None, 0).

(** The body of the [for] loop of [map_convert_keys] for a [p] with
    [*p == '<']: the raw characters to append, their number and [symlen]. *)
Definition convert_symbol (p : list ascii) (rem : Z) : res (list ascii * Z * Z) :=
  (* search matching > of symbolic name *)
  symlen ← scan_symbol (drop 1 p) rem 1;
  last ← rd p (symlen - 1);
  (* check if we found a real keylabel *)
  '(raw, rawlen) ←
    (if bool_decide (last = ">"%char) then
       '(raw, rawlen) ← convert_ctrl p symlen;
       match raw with
       | Some _ => Ok (raw, rawlen)
       | None => map_convert_keylabel p symlen
       end
     else Ok (None, 0));
  (* we found no known keylabel - so use the chars literally *)
  let '(raw, rawlen) :=
    if bool_decide (rawlen = 0) then (Some p, symlen) else (raw, rawlen) in
  match raw with
  | Some r => Ok (take (Z.to_nat rawlen) r, rawlen, symlen)
  | None => Undef
  end.

(** The [for (p = in; p < &in[inlen]; p++)] loop of [map_convert_keys]; [str]
    is the [GString] and [len] is [*len].  Every round moves [p] forward by at
    least one character, so [inlen] rounds are enough. *)
Fixpoint map_convert_keys_from (n : nat) (p : list ascii) (rem : Z)
    (str : list ascii) (len : Z) : res (list ascii * Z) :=
  if bool_decide (0 < rem) then
    match n with
    | O => OutOfFuel
    | S n' =>
        c ← rd p 0;
        if bool_decide (c ≠ "<"%char) then
          map_convert_keys_from n' (drop 1 p) (rem - 1) (str ++ [c]) (len + 1)
        else
          '(raw, rawlen, symlen) ← convert_symbol p rem;
          map_convert_keys_from n' (drop (Z.to_nat symlen) p) (rem - symlen)
            (str ++ raw) (len + rawlen)
    end
  else Ok (str, len).

(** [map_convert_keys(in, inlen, &len)]: the string returned and [*len]. *)
Definition map_convert_keys (in_ : list ascii) (inlen : Z) : res (list ascii * Z) :=
  map_convert_keys_from (Z.to_nat inlen) in_ inlen [] 0.

(** A C string literal as the array the translator is given. *)
Definition keys_of (s : string) : list ascii := list_ascii_of_string s.

Definition translate (s : string) : res (list ascii * Z) :=
  map_convert_keys (cstr (keys_of s)) (strlen (cstr (keys_of s))).

(** ** Types of map.h, main.h and map.c *)

Inductive MapState : Set := MAP_DONE | MAP_AMBIGUOUS | MAP_NOMATCH.

Inductive VbResult : Set := RESULT_COMPLETE | RESULT_MORE | RESULT_ERROR.

Global Instance VbResult_eq_dec : EqDecision VbResult.
Proof. solve_decision. Defined.

(** [Map] of map.c; the field [in] is [in_] here. *)
Record Map : Set := {
  in_ : list ascii;        (* input keys *)
  inlen : Z;               (* length of the input keys *)
  mapped : list ascii;     (* mapped keys *)
  mappedlen : Z;           (* length of the mapped keys string *)
  mode : ascii             (* mode for which the map is available *)
}.

(** What the engine does that its callers can see, oldest first.  The list is
    kept next to the program state and no code reads it. *)
Inductive event : Set :=
| EvKey (k : ascii)        (* [mode_handle_key((unsigned int)k)] was called *)
| EvMapped (m : Map)       (* the head of the queue was replaced by [m]'s mapped keys *)
| EvLiteral (k : ascii).   (* no map matched: the first queued char [k] was resolved as it is *)

(** The part of [vb] that [map.c] reads and the key handlers of the modes
    may change: the id and the flags of the current mode [vb.mode], and
    whatever else the handlers keep. *)
Record VbCore (U : Type) : Type := {
  mode_id : ascii;
  mode_flags : Z;
  user : U
}.
Arguments mode_id {U} _.
Arguments mode_flags {U} _.
Arguments user {U} _.
Arguments Build_VbCore {U} _ _ _.

(** The static [map] of map.c ([mlist] is [map.list]) together with what it
    acts on: [vb], the timeout sources of the GLib main loop, the text of the
    label [vb.gui.statusbar.cmd], and the events so far. *)
Record state (U : Type) : Type := {
  mlist : list Map;
  queue : list ascii;             (* queue holding typed keys *)
  qlen : Z;                       (* pointer to last char in queue *)
  resolved : Z;                   (* number of resolved keys (no mapping required) *)
  showbuf : list ascii;           (* buffer used to show ambiguous keys to the user *)
  slen : Z;                       (* pointer to last char in showbuf *)
  timout_id : Z;                  (* source id of the timeout function *)
  vb : VbCore U;
  sources : list (Z * Z);         (* pending timeouts: source id and interval *)
  next_source : Z;                (* the id the next source gets *)
  statusbar_cmd : list ascii;
  trace : list event
}.
Arguments mlist {U} _.
Arguments queue {U} _.
Arguments qlen {U} _.
Arguments resolved {U} _.
Arguments showbuf {U} _.
Arguments slen {U} _.
Arguments timout_id {U} _.
Arguments vb {U} _.
Arguments sources {U} _.
Arguments next_source {U} _.
Arguments statusbar_cmd {U} _.
Arguments trace {U} _.
Arguments Build_state {U} _ _ _ _ _ _ _ _ _ _ _ _.

Section Updates.
Context {U : Type}.
Implicit Type s : state U.

Definition set_mlist (l : list Map) s : state U :=
  Build_state l (queue s) (qlen s) (resolved s) (showbuf s) (slen s)
    (timout_id s) (vb s) (sources s) (next_source s) (statusbar_cmd s) (trace s).

Definition set_queue (q : list ascii) s : state U :=
  Build_state (mlist s) q (qlen s) (resolved s) (showbuf s) (slen s)
    (timout_id s) (vb s) (sources s) (next_source s) (statusbar_cmd s) (trace s).

Definition set_qlen (n : Z) s : state U :=
  Build_state (mlist s) (queue s) n (resolved s) (showbuf s) (slen s)
    (timout_id s) (vb s) (sources s) (next_source s) (statusbar_cmd s) (trace s).

Definition set_resolved (n : Z) s : state U :=
  Build_state (mlist s) (queue s) (qlen s) n (showbuf s) (slen s)
    (timout_id s) (vb s) (sources s) (next_source s) (statusbar_cmd s) (trace s).

Definition set_showbuf (b : list ascii) (n : Z) s : state U :=
  Build_state (mlist s) (queue s) (qlen s) (resolved s) b n
    (timout_id s) (vb s) (sources s) (next_source s) (statusbar_cmd s) (trace s).

Definition set_timout_id (t : Z) s : state U :=
  Build_state (mlist s) (queue s) (qlen s) (resolved s) (showbuf s) (slen s)
    t (vb s) (sources s) (next_source s) (statusbar_cmd s) (trace s).

Definition set_vb (v : VbCore U) s : state U :=
  Build_state (mlist s) (queue s) (qlen s) (resolved s) (showbuf s) (slen s)
    (timout_id s) v (sources s) (next_source s) (statusbar_cmd s) (trace s).

Definition set_sources (l : list (Z * Z)) (n : Z) s : state U :=
  Build_state (mlist s) (queue s) (qlen s) (resolved s) (showbuf s) (slen s)
    (timout_id s) (vb s) l n (statusbar_cmd s) (trace s).

Definition set_statusbar_cmd (t : list ascii) s : state U :=
  Build_state (mlist s) (queue s) (qlen s) (resolved s) (showbuf s) (slen s)
    (timout_id s) (vb s) (sources s) (next_source s) t (trace s).

Definition log (e : event) s : state U :=
  Build_state (mlist s) (queue s) (qlen s) (resolved s) (showbuf s) (slen s)
    (timout_id s) (vb s) (sources s) (next_source s) (statusbar_cmd s) (trace s ++ [e]).

(** [g_source_remove(id)] and [g_timeout_add(interval, map_timeout, NULL)]. *)
Definition g_source_remove (id : Z) s : state U :=
  set_sources (filter (λ src, src.1 ≠ id) (sources s)) (next_source s) s.

Definition g_timeout_add (interval : Z) s : Z * state U :=
  (next_source s,
   set_sources ((next_source s, interval) :: sources s) (next_source s + 1) s).
End Updates.
(** ** The resolution engine, the mapping table and the display *)

(** What map.c takes from the rest of vimb.  main.h, which is not among the
    sources, declares the flag of a mode that switches mapping off for the
    next key and the two macros [showcmd] renders control characters with.
    [mode_handle_key] of mode.c, which mode.h declares with an
    [unsigned int key], is the key handler of the current mode: it answers
    with a [VbResult] and may switch the mode, change its flags and whatever
    else it keeps; it does not call back into map.c. *)
Class Env (U : Type) : Type := {
  FLAG_NOMAP : Z;
  IS_CTRL : ascii → bool;
  CTRL : ascii → ascii;
  mode_handle_key : Z → VbCore U → VbResult * VbCore U
}.

Section Engine.
Context {U : Type} {E : Env U}.

Implicit Type s : state U.

(** The [while (keylen-- && map.slen < max)] loop of [showcmd]. *)
Fixpoint showcmd_loop (keys : list ascii) (keylen : Z) (buf : list ascii)
    (slen max : Z) : res (list ascii * Z) :=
  if bool_decide (keylen ≠ 0) && bool_decide (slen < max) then
    match keys with
    | [] => Undef
    | key :: keys' =>
        if IS_CTRL key then
          buf1 ← wr buf slen "^"%char;
          buf2 ← wr buf1 (slen + 1) (CTRL key);
          showcmd_loop keys' (keylen - 1) buf2 (slen + 2) max
        else
          buf1 ← wr buf slen key;
          showcmd_loop keys' (keylen - 1) buf1 (slen + 1) max
    end
  else Ok (buf, slen).

Definition showcmd (keys : list ascii) (keylen : Z) (append : bool) s
    : res (state U) :=
  (* make sure we keep in buffer range also for ^X chars *)
  let max := LENGTH (showbuf s) - 2 in
  let slen0 := if append then slen s else 0 in
  '(buf, slen1) ←
    (if bool_decide (keylen = 0) then
       buf ← wr (showbuf s) 0 NUL; Ok (buf, 0)
     else
       '(buf, slen1) ← showcmd_loop keys keylen (showbuf s) slen0 max;
       buf' ← wr buf slen1 NUL; Ok (buf', slen1));
  (* show the typed keys *)
  Ok (set_statusbar_cmd (c_string buf) (set_showbuf buf slen1 s)).

(** The [while (map.qlen < LENGTH(map.queue) && keylen > 0)] loop that
    copies the keys onto the end of queue. *)
Fixpoint enqueue (keys : list ascii) (keylen : Z) s : res (state U) :=
  if bool_decide (qlen s < LENGTH (queue s)) && bool_decide (0 < keylen) then
    match keys with
    | [] => Undef
    | k :: keys' =>
        q ← wr (queue s) (qlen s) k;
        enqueue keys' (keylen - 1) (set_qlen (qlen s + 1) (set_queue q s))
    end
  else Ok s.

(** [for (int i = 0; i < map.qlen; i++) map.queue[i] = map.queue[i + 1]],
    from [i] on with [n] rounds to go. *)
Fixpoint shift_queue (n : nat) (q : list ascii) (i : Z) : res (list ascii) :=
  match n with
  | O => Ok q
  | S n' => c ← rd q (i + 1); q' ← wr q i c; shift_queue n' q' (i + 1)
  end.

(** One round of [while (map.resolved > 0)]. *)
Definition drain_step s : res (state U) :=
  (* pop the next char from queue *)
  let s := set_qlen (qlen s - 1) (set_resolved (resolved s - 1) s) in
  (* get first char of queue *)
  qk ← rd (queue s) 0;
  (* move all other queue entries one step to the left *)
  q ← shift_queue (Z.to_nat (qlen s)) (queue s) 0;
  let s := set_queue q s in
  (* remove the nomap flag *)
  let v := Build_VbCore (mode_id (vb s))
             (Z.land (mode_flags (vb s)) (Z.lnot FLAG_NOMAP)) (user (vb s)) in
  (* send the key to the parser *)
  let '(r, v') := mode_handle_key (uint_of_char qk) v in
  let s := set_vb v' (log (EvKey qk) s) in
  if bool_decide (r ≠ RESULT_MORE) then showcmd [] 0 false s else Ok s.

(** [while (map.resolved > 0)]: every round takes one from [map.resolved]
    and nothing else changes it, so the loop makes [map.resolved] rounds. *)
Fixpoint drain (n : nat) s : res (state U) :=
  match n with
  | O => Ok s
  | S n' => s' ← drain_step s; drain n' s'
  end.

(** The [for] loop over [map.list] that finds matching maps, from the link
    [l] on, with the locals [match] and [ambiguous]. *)
Fixpoint lookup (l : list Map) (timeout : bool) (match_ : option Map)
    (ambiguous : Z) s : res (state U * option Map * Z) :=
  match l with
  | [] => Ok (s, match_, ambiguous)
  | m :: l' =>
      (* ignore maps for other modes *)
      if bool_decide (mode m ≠ mode_id (vb s)) then
        lookup l' timeout match_ ambiguous s
      else
        (* find ambiguous matches *)
        '(s1, ambiguous1) ←
          (if negb timeout && bool_decide (qlen s < inlen m) then
             r ← strncmp (cstr (in_ m)) (queue s) (qlen s);
             if bool_decide (r = 0) then
               s1 ← showcmd (queue s) (qlen s) false s;
               Ok (s1, ambiguous + 1)
             else Ok (s, ambiguous)
           else Ok (s, ambiguous));
        (* complete match or better/longer match than previous found *)
        match1 ←
          (if bool_decide (inlen m ≤ qlen s1) then
             r ← strncmp (cstr (in_ m)) (queue s1) (inlen m);
             if bool_decide (r = 0)
                && match match_ with
                   | None => true
                   | Some m0 => bool_decide (inlen m0 < inlen m)
                   end
             then Ok (Some m) else Ok match_
           else Ok match_);
        lookup l' timeout match1 ambiguous1 s1
  end.

(** [for (i = map.qlen + mappedlen - inlen, j = map.qlen; j > inlen; )
    map.queue[--i] = map.queue[--j]], with [n] rounds to go. *)
Fixpoint make_space (n : nat) (q : list ascii) (i j : Z) : res (list ascii) :=
  match n with
  | O => Ok q
  | S n' => c ← rd q (j - 1); q' ← wr q (i - 1) c; make_space n' q' (i - 1) (j - 1)
  end.

(** [for (i = mappedlen, j = inlen; i < map.qlen; )
    map.queue[i++] = map.queue[j++]], with [n] rounds to go. *)
Fixpoint delete_keys (n : nat) (q : list ascii) (i j : Z) : res (list ascii) :=
  match n with
  | O => Ok q
  | S n' => c ← rd q j; q' ← wr q i c; delete_keys n' q' (i + 1) (j + 1)
  end.

(** The branch [if (match)]: replace the matched chars from queue by the
    cooked string that is the result of the mapping. *)
Definition substitute (m : Map) s : res (state U) :=
  q ←
    (if bool_decide (inlen m < mappedlen m) then
       (* make some space within the queue *)
       make_space (Z.to_nat (qlen s - inlen m)) (queue s)
         (qlen s + mappedlen m - inlen m) (qlen s)
     else if bool_decide (inlen m > mappedlen m) then
       (* delete some keys *)
       delete_keys (Z.to_nat (qlen s - mappedlen m)) (queue s)
         (mappedlen m) (inlen m)
     else Ok (queue s));
  (* copy the mapped string into the queue *)
  q' ← strncpy q (cstr (mapped m)) (mappedlen m);
  let s := set_qlen (qlen s + (mappedlen m - inlen m)) (set_queue q' s) in
  let s :=
    if bool_decide (inlen m ≤ mappedlen m) then set_resolved (inlen m) s
    else set_resolved (mappedlen m) s in
  Ok (log (EvMapped m) s).

(** The branch [else]: first char is not mapped but resolved. *)
Definition literal s : res (state U) :=
  let s := set_resolved 1 s in
  showcmd (queue s) (resolved s) true
    (log (EvLiteral (default NUL (queue s !! 0%nat))) s).

(** The lookup of one round of the loop: [match] and [ambiguous] after the
    [if (!(vb.mode->flags & FLAG_NOMAP))] around the loop over [map.list]. *)
Definition lookup_round (timeout : bool) s : res (state U * option Map * Z) :=
  if bool_decide (Z.land (mode_flags (vb s)) FLAG_NOMAP = 0) then
    lookup (mlist s) timeout None 0 s
  else Ok (s, None, 0).

(** The loop [while (true)] of [map_handle_keys] with its local [match];
    [fuel] bounds the number of rounds. *)
Fixpoint resolve (fuel : nat) (timeout : bool) (match_ : option Map) s
    : res (MapState * state U) :=
  match fuel with
  | O => OutOfFuel
  | S fuel' =>
      (* send any resolved key to the parser *)
      s ← drain (Z.to_nat (resolved s)) s;
      (* if all keys where processed return MAP_DONE *)
      if bool_decide (qlen s = 0) then
        Ok (match match_ with Some _ => MAP_DONE | None => MAP_NOMATCH end,
            set_resolved 0 s)
      else
        (* try to find matching maps *)
        '(s, match_, ambiguous) ← lookup_round timeout s;
        (* if there are ambiguous matches return MAP_KEY and flush queue
           after a timeout if the user do not type more keys *)
        if bool_decide (ambiguous ≠ 0) then Ok (MAP_AMBIGUOUS, s)
        else
          match match_ with
          | Some m => s ← substitute m s; resolve fuel' timeout match_ s
          | None => s ← literal s; resolve fuel' timeout match_ s
          end
  end.

(** The start of [map_handle_keys]: unless a timeout is handled, a previous
    timeout function is removed and the timeout is started new. *)
Definition arm_timeout (keylen : Z) s : state U :=
  if bool_decide (keylen = 0) then s
  else
    let s := if bool_decide (timout_id s ≠ 0)
             then g_source_remove (timout_id s) s else s in
    let '(id, s) := g_timeout_add 1000 s in
    set_timout_id id s.

Definition map_handle_keys (fuel : nat) (keys : list ascii) (keylen : Z) s
    : res (MapState * state U) :=
  let timeout := bool_decide (keylen = 0) in (* keylen 0 signalized timeout *)
  (* copy the keys onto the end of queue *)
  s ← enqueue keys keylen (arm_timeout keylen s);
  (* try to resolve keys against the map *)
  resolve fuel timeout None s.


(** [map_insert(in, mapped, mode)] with the C strings [in] and [mapped]. *)
Definition map_insert (in_0 mapped0 : list ascii) (mode0 : ascii) s
    : res (state U) :=
  '(lhs, inlen0) ← map_convert_keys (cstr in_0) (strlen (cstr in_0));
  '(rhs, mappedlen0) ← map_convert_keys (cstr mapped0) (strlen (cstr mapped0));
  let new := {| in_ := lhs; inlen := inlen0; mapped := rhs;
                mappedlen := mappedlen0; mode := mode0 |} in
  Ok (set_mlist (new :: mlist s) s).

(** The [for] loop of [map_delete]: the position of the first link whose
    map matches, counted from [i]. *)
Fixpoint find_link (l : list Map) (lhs : list ascii) (len : Z) (mode0 : ascii)
    (i : nat) : res (option nat) :=
  match l with
  | [] => Ok None
  | m :: l' =>
      (* remove only if the map's lhs matches the given key sequence *)
      if bool_decide (mode m = mode0) && bool_decide (inlen m = len) then
        r ← strcmp (cstr (in_ m)) (cstr lhs);
        if bool_decide (r = 0) then Ok (Some i)
        else find_link l' lhs len mode0 (S i)
      else find_link l' lhs len mode0 (S i)
  end.

(** [map_delete(in, mode)]: the [gboolean] returned and the state. *)
Definition map_delete (in_0 : list ascii) (mode0 : ascii) s
    : res (bool * state U) :=
  '(lhs, len) ← map_convert_keys (cstr in_0) (strlen (cstr in_0));
  found ← find_link (mlist s) lhs len mode0 0%nat;
  match found with
  | Some i => Ok (true, set_mlist (delete i (mlist s)) s) (* g_slist_delete_link *)
  | None => Ok (false, s)
  end.

End Engine.
(** ** Notions the properties are stated with *)

(** A [<C-X>] with [X] in one of the two ranges of [map_convert_keys]. *)
Definition is_ctrl_token (tok : list ascii) : bool :=
  match tok with
  | [lt; c; dash; x; gt] =>
      bool_decide (lt = "<"%char) && bool_decide (c = "C"%char)
      && bool_decide (dash = "-"%char) && bool_decide (gt = ">"%char)
      && (bool_decide (0x41 ≤ char_code x ≤ 0x5d)
          || bool_decide (0x61 ≤ char_code x ≤ 0x7a))
  | _ => false
  end.

(** One of the labels of [map_convert_keylabel]. *)
Definition is_named_token (tok : list ascii) : bool :=
  bool_decide (tok ∈ (λ key, key.1.1.1) <$> keylabels).

(** A character that can stand inside a symbolic name. *)
Definition name_char (c : ascii) : Prop :=
  c ≠ "<"%char ∧ c ≠ ">"%char ∧ c ≠ " "%char ∧ c ≠ NUL.


(** What the translator knows of a symbolic name: nothing, or one raw
    character that is not NUL. *)
Definition raw_ok (raw : option (list ascii)) (rawlen : Z) : Prop :=
  (raw = None ∧ rawlen = 0) ∨ (∃ ch, raw = Some [ch] ∧ rawlen = 1 ∧ ch ≠ NUL).


(** A map as [map_insert] builds it: the lengths are those of the strings
    and the strings hold no NUL. *)
Definition wf_Map (m : Map) : Prop :=
  inlen m = Z.of_nat (length (in_ m)) ∧ mappedlen m = Z.of_nat (length (mapped m))
  ∧ (NUL ∉ in_ m) ∧ (NUL ∉ mapped m).

(** The keys in the queue, oldest first. *)
Definition content {U : Type} (s : state U) : list ascii :=
  take (Z.to_nat (qlen s)) (queue s).

(** The invariant of the resolution state: [0 ≤ resolved ≤ qlen ≤ capacity]. *)
Definition queue_inv {U : Type} (s : state U) : Prop :=
  0 ≤ resolved s ≤ qlen s ∧ qlen s ≤ LENGTH (queue s).

(** [char showbuf[12]] and its index. *)
Definition bufs_ok {U : Type} (s : state U) : Prop :=
  length (showbuf s) = 12%nat ∧ 0 ≤ slen s < 12.

Definition wf_state {U : Type} (s : state U) : Prop :=
  queue_inv s ∧ bufs_ok s ∧ Forall wf_Map (mlist s).

(** A map of the current mode whose lhs is no longer than the queue and
    equals the leading keys of the queue. *)
Definition full_match {U : Type} (s : state U) (m : Map) : Prop :=
  mode m = mode_id (vb s) ∧ inlen m ≤ qlen s
  ∧ in_ m = take (Z.to_nat (inlen m)) (content s).

(** A map of the current mode whose lhs is longer than the queue and starts
    with all the keys of the queue. *)
Definition ambiguous_match {U : Type} (s : state U) (m : Map) : Prop :=
  mode m = mode_id (vb s) ∧ qlen s < inlen m
  ∧ take (Z.to_nat (qlen s)) (in_ m) = content s.

(** The queued chars handed to [mode_handle_key], oldest first; the handler
    gets each as the [unsigned int] it converts to. *)
Definition keys_sent (tr : list event) : list ascii :=
  omap (λ e, match e with EvKey k => Some k | _ => None end) tr.

(** Whether the last resolution among the events, a substitution or a
    literal key, was a substitution; [d] where there is none. *)
Fixpoint last_mapped (d : bool) (tr : list event) : bool :=
  match tr with
  | [] => d
  | EvMapped _ :: tr' => last_mapped true tr'
  | EvLiteral _ :: tr' => last_mapped false tr'
  | EvKey _ :: tr' => last_mapped d tr'
  end.

(** What the handlers make of [vb] when they are sent [ks], each char
    converted to [unsigned int]; every key finds the nomap flag removed. *)
Fixpoint feed {U : Type} {E : Env U} (ks : list ascii) (v : VbCore U) : VbCore U :=
  match ks with
  | [] => v
  | k :: ks' =>
      feed ks' (snd (mode_handle_key (uint_of_char k)
        (Build_VbCore (mode_id v) (Z.land (mode_flags v) (Z.lnot FLAG_NOMAP)) (user v))))
  end.

(** ** A concrete instance

    A consumer that accepts every key and completes a command with each, in a
    mode that never changes; [FLAG_NOMAP], [IS_CTRL] and [CTRL] as vi has
    them.  The instance serves to run the engine on concrete inputs. *)

Definition vi_env : Env unit :=
  {| FLAG_NOMAP := 1;
     IS_CTRL := λ c, bool_decide (char_code c < 0x20);
     CTRL := λ c, char_of (Z.lxor (char_code c) 0x40);
     mode_handle_key := λ k v, (RESULT_COMPLETE, v) |}.

(** The zero-initialised static [map] with a queue of [cap] chars, in the
    mode [id0] with no flag set. *)
Definition map_init {U : Type} (cap : nat) (id0 : ascii) (u : U) : state U :=
  {| mlist := []; queue := replicate cap NUL; qlen := 0; resolved := 0;
     showbuf := replicate 12 NUL; slen := 0; timout_id := 0;
     vb := Build_VbCore id0 0 u;
     sources := []; next_source := 1; statusbar_cmd := []; trace := [] |}.

(** [map_handle_keys] with the keys of a string literal. *)
Definition handle_keys_vi (fuel : nat) (keys : string) (s : state unit)
    : res (MapState * state unit) :=
  map_handle_keys (E := vi_env) fuel (keys_of keys) (Z.of_nat (length (keys_of keys))) s.

(** [map_insert] with string literals. *)
Definition insert_vi (l r : string) (mode0 : ascii) (s : state unit) : res (state unit) :=
  map_insert (keys_of l) (keys_of r) mode0 s.

(** What draining the keys [ks] from the front of the queue of [s] leaves. *)
Definition drained {U : Type} {E : Env U} (ks : list ascii) (s s' : state U) : Prop :=
  qlen s' = qlen s - Z.of_nat (length ks)
  ∧ resolved s' = resolved s - Z.of_nat (length ks)
  ∧ content s = ks ++ content s'
  ∧ length (queue s') = length (queue s)
  ∧ mlist s' = mlist s
  ∧ timout_id s' = timout_id s ∧ sources s' = sources s
  ∧ next_source s' = next_source s
  ∧ trace s' = trace s ++ (EvKey <$> ks)
  ∧ vb s' = feed ks (vb s)
  ∧ bufs_ok s'.

(** [s'] is [s] but for what is on display. *)
Definition same_but_display {U : Type} (s s' : state U) : Prop :=
  mlist s' = mlist s ∧ queue s' = queue s ∧ qlen s' = qlen s
  ∧ resolved s' = resolved s ∧ timout_id s' = timout_id s ∧ vb s' = vb s
  ∧ sources s' = sources s ∧ next_source s' = next_source s
  ∧ trace s' = trace s.

(** [res] is, among the maps [P] holds of, one in [l] with the greatest lhs
    length and the first of these, or the map [acc] found before where no
    map of [l] has a greater lhs length. *)
Definition selects (P : Map → Prop) (l : list Map) (acc res : option Map) : Prop :=
  match res with
  | None => acc = None ∧ ∀ m, m ∈ l → ¬ P m
  | Some m =>
      (acc = Some m ∧ ∀ m', m' ∈ l → P m' → inlen m' ≤ inlen m)
      ∨ (∃ l1 l2, l = l1 ++ m :: l2 ∧ P m
           ∧ (∀ m0, acc = Some m0 → inlen m0 < inlen m)
           ∧ (∀ m', m' ∈ l1 → P m' → inlen m' < inlen m)
           ∧ (∀ m', m' ∈ l2 → P m' → inlen m' ≤ inlen m))
  end.

(** The number of maps of [l] that make the queue of [s] ambiguous. *)
Fixpoint count_ambiguous {U : Type} (s : state U) (l : list Map) : Z :=
  match l with
  | [] => 0
  | m :: l' =>
      (if bool_decide (ambiguous_match s m) then 1 else 0) + count_ambiguous s l'
  end.

(** The nomap flag of the current mode is set. *)
Definition nomap {U : Type} {E : Env U} (s : state U) : Prop :=
  Z.land (mode_flags (vb s)) FLAG_NOMAP ≠ 0.

(** The weight of keys under the ranks [w]: a key weighs one more than its
    rank, so keys of rank 0 weigh as many as they are. *)
Definition weight (w : ascii → nat) (ks : list ascii) : nat :=
  sum_list_with (λ k, S (w k)) ks.

(** The mapped keys of [m] that its substitution leaves in the queue to be
    looked up again: those behind the first [inlen], which are resolved and
    sent as they are.  A map with no more mapped keys than its lhs leaves
    none. *)
Definition leftover (m : Map) : list ascii := drop (Z.to_nat (inlen m)) (mapped m).

(** Under the ranks [w] the substitution of [m] makes the keys to look up
    lighter: [m] has keys on its lhs, and what its mapped keys leave to be
    looked up again weighs less than its lhs. *)
Definition lightens (w : ascii → nat) (m : Map) : Prop :=
  0 < inlen m ∧ (weight w (leftover m) < weight w (in_ m))%nat.

(** The chars the substitution of [m] needs beyond the weight of the keys
    to look up: for more mapped keys than the lhs has, the lhs less one key;
    for fewer, the chars the deleting loop reads behind the last key. *)
Definition headroom (m : Map) : Z :=
  if bool_decide (inlen m < mappedlen m) then inlen m - 1
  else inlen m - mappedlen m.

(** The keys in the queue once [map_handle_keys] has appended those of the
    [keylen] keys given that fit. *)
Definition stored {U : Type} (keys : list ascii) (keylen : Z) (s : state U)
    : list ascii :=
  content s ++ take (Z.to_nat (Z.min keylen (LENGTH (queue s) - qlen s))) keys.

Global Instance wf_Map_dec (m : Map) : Decision (wf_Map m).
Proof. unfold wf_Map. apply _. Defined.

Global Instance wf_state_dec {U : Type} (s : state U) : Decision (wf_state s).
Proof. unfold wf_state, queue_inv, bufs_ok. apply _. Defined.

Global Instance lightens_dec (w : ascii → nat) (m : Map) : Decision (lightens w m).
Proof. unfold lightens. apply _. Defined.

(** ** Concrete tables *)

Definition mk_map (l r : string) (mode0 : ascii) : Map :=
  {| in_ := keys_of l; inlen := Z.of_nat (length (keys_of l));
     mapped := keys_of r; mappedlen := Z.of_nat (length (keys_of r));
     mode := mode0 |}.

(** The table with [a] mapped to [1] and [ab] mapped to [2] in the mode [n],
    the second inserted last, over a queue of eight chars. *)
Definition table_a_ab : state unit :=
  set_mlist [mk_map "ab" "2" "n"; mk_map "a" "1" "n"] (map_init 8 "n" tt).

(** A map whose mapped keys leave its own lhs in the queue. *)
Definition table_a_ba : state unit :=
  set_mlist [mk_map "a" "ba" "n"] (map_init 8 "n" tt).

(** A map with more mapped keys than the queue has chars. *)
Definition table_long : state unit :=
  set_mlist [mk_map "a" "bbbbb" "n"] (map_init 4 "n" tt).

(** A map that shortens the queue. *)
Definition table_ab_x : state unit :=
  set_mlist [mk_map "ab" "x" "n"] (map_init 8 "n" tt).

(** A map with three mapped keys for one, none of them its lhs. *)
Definition table_a_xyz : state unit :=
  set_mlist [mk_map "a" "xyz" "n"] (map_init 8 "n" tt).

(** The ranks that give the key [c] the rank [n] and every other key the
    rank 0. *)
Definition rank_key (c : ascii) (n : nat) (k : ascii) : nat :=
  if bool_decide (k = c) then n else 0%nat.

(** A map of one key to one, over a queue of four chars. *)
Definition table_a_b : state unit :=
  set_mlist [mk_map "a" "b" "n"] (map_init 4 "n" tt).

(** The one map with [a] mapped to [1]. *)
Definition table_a_1 : state unit :=
  set_mlist [mk_map "a" "1" "n"] (map_init 8 "n" tt).

(** A map that shortens the queue, over a queue of four chars. *)
Definition table_ab_x_short : state unit :=
  set_mlist [mk_map "ab" "x" "n"] (map_init 4 "n" tt).

(** The states [table_a_ba] runs through once [a] is typed: the mapped keys
    are in the queue and the first of them is resolved; [tr] are the events
    so far. *)
Definition looping_state (tr : list event) : state unit :=
  {| mlist := [mk_map "a" "ba" "n"];
     queue := keys_of "ba" ++ replicate 6 NUL; qlen := 2; resolved := 1;
     showbuf := replicate 12 NUL; slen := 0; timout_id := 1;
     vb := Build_VbCore "n" 0 tt;
     sources := [(1, 1000)]; next_source := 2; statusbar_cmd := []; trace := tr |}.

(** ** The protocol on the keys in the queue

    What the loop of [map_handle_keys] does, told on the list of the keys in
    the queue instead of the array: the lookup among the maps, and the rounds
    of draining, lookup and substitution. *)

(** The map [m] of the mode [id] is a full match for the keys [c]: its lhs is
    no longer than [c] and equals the leading keys of [c]. *)
Definition is_full (id : ascii) (c : list ascii) (m : Map) : bool :=
  bool_decide (mode m = id) && bool_decide (inlen m ≤ Z.of_nat (length c))
  && bool_decide (in_ m = take (Z.to_nat (inlen m)) c).

(** The map [m] of the mode [id] is ambiguous for the keys [c]: its lhs is
    longer than [c] and starts with [c]. *)
Definition is_ambiguous (id : ascii) (c : list ascii) (m : Map) : bool :=
  bool_decide (mode m = id) && bool_decide (Z.of_nat (length c) < inlen m)
  && bool_decide (take (length c) (in_ m) = c).

(** Among the full matches, the one with the greatest lhs length seen so
    far; ties keep the first found. *)
Fixpoint best_match (id : ascii) (c : list ascii) (l : list Map)
    (best : option Map) : option Map :=
  match l with
  | [] => best
  | m :: l' =>
      best_match id c l'
        (if is_full id c m
            && match best with
               | None => true
               | Some m0 => bool_decide (inlen m0 < inlen m)
               end
         then Some m else best)
  end.

Fixpoint ambiguous_count (id : ascii) (c : list ascii) (l : list Map) : Z :=
  match l with
  | [] => 0
  | m :: l' => (if is_ambiguous id c m then 1 else 0) + ambiguous_count id c l'
  end.

(** [lookup_candidates] of the specification: the best match and the
    number of ambiguous matches, which a timeout call does not count. *)
Definition lookup_candidates (l : list Map) (c : list ascii) (id : ascii)
    (timeout : bool) : option Map * Z :=
  (best_match id c l None, if timeout then 0 else ambiguous_count id c l).

(** The resolution state as the protocol sees it. *)
Record astate (U : Type) : Type := {
  a_queue : list ascii;      (* the keys in the queue, oldest first *)
  a_resolved : Z;
  a_vb : VbCore U;
  a_trace : list event
}.
Arguments a_queue {U} _.
Arguments a_resolved {U} _.
Arguments a_vb {U} _.
Arguments a_trace {U} _.
Arguments Build_astate {U} _ _ _ _.

Definition abs {U : Type} (s : state U) : astate U :=
  Build_astate (content s) (resolved s) (vb s) (trace s).

Inductive aout (U : Type) : Type :=
| AReturn (r : MapState) (a : astate U)
| ANoRoom           (* the queue has no room for a substitution *)
| AOutOfFuel.
Arguments AReturn {U} r a.
Arguments ANoRoom {U}.
Arguments AOutOfFuel {U}.

(** The rounds of the loop for the maps [l] and a queue of [cap] chars. *)
Fixpoint handle_loop {U : Type} {E : Env U} (fuel : nat) (l : list Map) (cap : Z)
    (timeout : bool) (match_ : option Map) (a : astate U) : aout U :=
  match fuel with
  | O => AOutOfFuel
  | S fuel' =>
      (* drain phase *)
      let ks := take (Z.to_nat (a_resolved a)) (a_queue a) in
      let q := drop (Z.to_nat (a_resolved a)) (a_queue a) in
      let v := feed ks (a_vb a) in
      let tr := a_trace a ++ (EvKey <$> ks) in
      if bool_decide (q = []) then
        AReturn (match match_ with Some _ => MAP_DONE | None => MAP_NOMATCH end)
          (Build_astate q 0 v tr)
      else
        let '(best, ambiguous) :=
          if bool_decide (Z.land (mode_flags v) FLAG_NOMAP = 0)
          then lookup_candidates l q (mode_id v) timeout else (None, 0) in
        if bool_decide (ambiguous ≠ 0) then
          AReturn MAP_AMBIGUOUS (Build_astate q 0 v tr)
        else
          match best with
          | Some m =>
              if bool_decide (Z.of_nat (length q) + Z.abs (mappedlen m - inlen m) ≤ cap)
              then
                handle_loop fuel' l cap timeout best
                  (Build_astate (mapped m ++ drop (Z.to_nat (inlen m)) q)
                     (Z.min (inlen m) (mappedlen m)) v (tr ++ [EvMapped m]))
              else ANoRoom
          | None =>
              handle_loop fuel' l cap timeout best
                (Build_astate q 1 v (tr ++ [EvLiteral (default NUL (head q))]))
          end
  end.

(** A call: as many of the keys as fit are appended, then the loop runs. *)
Definition handle_keys {U : Type} {E : Env U} (fuel : nat) (l : list Map) (cap : Z)
    (keys : list ascii) (keylen : Z) (a : astate U) : aout U :=
  let n := Z.to_nat (Z.min keylen (cap - Z.of_nat (length (a_queue a)))) in
  handle_loop fuel l cap (bool_decide (keylen = 0)) None
    (Build_astate (a_queue a ++ take n keys) (a_resolved a) (a_vb a) (a_trace a)).

(** The state [s] with the keys of [keys] in its queue, none resolved. *)
Definition with_keys (keys : string) (s : state unit) : state unit :=
  set_qlen (Z.of_nat (length (keys_of keys)))
    (set_queue (keys_of keys ++ drop (length (keys_of keys)) (queue s)) s).

(** ** Key presses

    [map_keypress] is the handler of the key-press signal: it turns the key
    symbol of the event into the one byte vimb knows the key by and hands the
    byte to [map_handle_keys]. *)

(** The fields of [GdkEventKey] that [map_keypress] reads, [event->state]
    and [event->keyval], both [guint]. *)
Record GdkEventKey : Set := {
  ev_state : Z;     (* the modifier bits *)
  keyval : Z        (* the key symbol *)
}.

(** The modifier bit and the key symbols of gdk that map.c names, with the
    values gdktypes.h and gdkkeysyms.h give them. *)
Definition GDK_CONTROL_MASK : Z := 4.
Definition GDK_Escape : Z := 0xff1b.
Definition GDK_Tab : Z := 0xff09.
Definition GDK_ISO_Left_Tab : Z := 0xfe20.
Definition GDK_Return : Z := 0xff0d.
Definition GDK_BackSpace : Z := 0xff08.
Definition GDK_Up : Z := 0xff52.
Definition GDK_Down : Z := 0xff54.

(** [vb.state], of which map.c uses the flag [processed_key]; the key
    handlers of the modes set the flag, so it is part of what the handlers
    keep. *)
Record VbState (W : Type) : Type := {
  processed_key : bool;
  state_rest : W
}.
Arguments processed_key {W} _.
Arguments state_rest {W} _.
Arguments Build_VbState {W} _ _.

(** The bytes of the [unsigned int key] as the [char] pointer to [key] sees
    them where the low byte comes first, as on x86. *)
Definition key_bytes (key : Z) : list ascii :=
  [char_of key; char_of (key / 256); char_of (key / 65536); char_of (key / 16777216)].

Section Keypress.
Context {W : Type} {E : Env (VbState W)}.

(** The local [key] of [map_keypress] after the conversion of the event. *)
Definition keypress_key (event : GdkEventKey) : Z :=
  if bool_decide (Z.land (ev_state event) GDK_CONTROL_MASK = 0)
     && bool_decide (0 < keyval event) && bool_decide (keyval event < 0xff)
  then keyval event
  else
    (* convert chars A-Za-z with ctrl flag <ctrl-a> or <ctrl-A> -> \001
       and <ctrl-z> -> \032 like vi *)
    if bool_decide (keyval event = GDK_Escape) then char_code (CTRL "["%char)
    else if bool_decide (keyval event = GDK_Tab) then char_code (CTRL "I"%char)
    else if bool_decide (keyval event = GDK_ISO_Left_Tab) then char_code (CTRL "O"%char)
    else if bool_decide (keyval event = GDK_Return) then char_code "010"%char
    else if bool_decide (keyval event = GDK_BackSpace) then char_code (CTRL "H"%char)
    else if bool_decide (keyval event = GDK_Up) then char_code (CTRL "P"%char)
    else if bool_decide (keyval event = GDK_Down) then char_code (CTRL "N"%char)
    else if bool_decide (0x41 ≤ keyval event) && bool_decide (keyval event ≤ 0x5d)
    then keyval event - 0x40 (* chars A-] *)
    else if bool_decide (0x61 ≤ keyval event) && bool_decide (keyval event ≤ 0x7a)
    then keyval event - 0x60 (* chars a-z *)
    else 0.

(** [vb.state.processed_key = b]. *)
Definition set_processed_key (b : bool) (s : state (VbState W)) : state (VbState W) :=
  set_vb (Build_VbCore (mode_id (vb s)) (mode_flags (vb s))
            (Build_VbState b (state_rest (user (vb s))))) s.

(** [map_keypress(widget, event, data)]: the [gboolean] returned and the
    state. *)
Definition map_keypress (fuel : nat) (event : GdkEventKey) (s : state (VbState W))
    : res (bool * state (VbState W)) :=
  let key := keypress_key event in
  (* set initial value for the flag that should be changed in the modes key
     handler functions *)
  let s := set_processed_key false s in
  s ← (if bool_decide (key ≠ 0) then
         r ← map_handle_keys fuel (key_bytes key) 1 s; Ok r.2
       else Ok s);
  Ok (processed_key (user (vb s)), s).

End Keypress.

(** ** More notions the properties are stated with *)

(** What [showcmd] puts on display for a key: a control character as [^] and
    its letter, any other key as it is. *)
Definition show_key {U : Type} {E : Env U} (k : ascii) : list ascii :=
  if IS_CTRL k then ["^"%char; CTRL k] else [k].

Definition show_keys {U : Type} {E : Env U} (ks : list ascii) : list ascii :=
  ks ≫= show_key.

(** The display of [s'] shows the keys in the queue of [s]: all of them, or
    as many as make ten characters or more. *)
Definition shows_pending {U : Type} {E : Env U} (s s' : state U) : Prop :=
  ∃ j : nat,
    Z.of_nat j ≤ qlen s
    ∧ take (Z.to_nat (slen s')) (showbuf s') = show_keys (take j (queue s))
    ∧ statusbar_cmd s' = c_string (cstr (show_keys (take j (queue s))))
    ∧ (Z.of_nat j = qlen s ∨ 10 ≤ slen s').

(** The raw key of a [<C-X>]. *)
Definition ctrl_raw (x : ascii) : ascii :=
  if bool_decide (char_code x ≤ 0x5d) then char_of (char_code x - 0x40)
  else char_of (char_code x - 0x60).

(** The raw keys of the label [tok], if it is one of [map_convert_keylabel]. *)
Definition label_raw (tok : list ascii) : option (list ascii) :=
  (λ key, key.1.2) <$> head (filter (λ key, key.1.1.1 = tok) keylabels).

(** The raw keys of a symbolic name [<...>]: the control character of a
    [<C-X>], the key of a label, and the name itself where it is neither. *)
Definition token_raw (tok : list ascii) : list ascii :=
  if is_ctrl_token tok then [ctrl_raw (default NUL (tok !! 3%nat))]
  else default tok (label_raw tok).

(** Every pending timeout is the one [map.timout_id] names, and the ids to
    come are positive, as GLib has them. *)
Definition one_timeout {U : Type} (s : state U) : Prop :=
  0 < next_source s
  ∧ ∀ src, src ∈ sources s → src.1 = timout_id s ∧ 0 < src.1 < next_source s.

(** The instance [vi_env] with a consumer that marks every key it is sent as
    processed. *)
Definition vi_key_env : Env (VbState unit) :=
  {| FLAG_NOMAP := 1;
     IS_CTRL := λ c, bool_decide (char_code c < 0x20);
     CTRL := λ c, char_of (Z.lxor (char_code c) 0x40);
     mode_handle_key := λ k v,
       (RESULT_COMPLETE,
        Build_VbCore (mode_id v) (mode_flags v) (Build_VbState true tt)) |}.

(** The same with a consumer that keeps the keys it is sent, newest first. *)
Definition key_log_env : Env (VbState (list Z)) :=
  {| FLAG_NOMAP := 1;
     IS_CTRL := λ c, bool_decide (char_code c < 0x20);
     CTRL := λ c, char_of (Z.lxor (char_code c) 0x40);
     mode_handle_key := λ k v,
       (RESULT_COMPLETE,
        Build_VbCore (mode_id v) (mode_flags v)
          (Build_VbState true (k :: state_rest (user v)))) |}.

(** ** More concrete states *)

(** [table_a_ab] with the nomap flag of the mode set. *)
Definition table_nomap : state unit :=
  set_vb (Build_VbCore "n"%char 1 tt) table_a_ab.

(** No map, and a queue of four chars. *)
Definition table_none : state unit := map_init 4 "n" tt.

(** The table with [ab] mapped to [x] in the mode [n], with a consumer that
    marks the keys it is sent; no key has been processed. *)
Definition key_table : state (VbState unit) :=
  set_mlist [mk_map "ab" "x" "n"] (map_init 8 "n" (Build_VbState false tt)).

(** The same with no map. *)
Definition key_table_none : state (VbState unit) :=
  map_init 8 "n" (Build_VbState false tt).

(** Control held and the key [w]; Control held and the key [1]; the key [a]
    alone. *)
Definition ctrl_w : GdkEventKey := {| ev_state := GDK_CONTROL_MASK; keyval := 0x77 |}.
Definition ctrl_1 : GdkEventKey := {| ev_state := GDK_CONTROL_MASK; keyval := 0x31 |}.
Definition plain_a : GdkEventKey := {| ev_state := 0; keyval := 0x61 |}.

(** No map, a queue of eight chars and a consumer that has been sent no key;
    the key [e] with an acute accent alone, whose key symbol is 0xe9. *)
Definition key_table_log : state (VbState (list Z)) :=
  map_init 8 "n" (Build_VbState false []).
Definition plain_eacute : GdkEventKey := {| ev_state := 0; keyval := 0xe9 |}.

(** * Properties *)

Example translate_CA : translate "<C-A>" = Ok (["001"%char], 1).
Proof. reflexivity. Qed.

Example translate_mixed :
  translate "a<CR>b<C-]><x y<"
  = Ok (keys_of "a" ++ ["010"%char] ++ keys_of "b" ++ ["029"%char] ++ keys_of "<x y<", 9).
Proof. reflexivity. Qed.

(** The concrete table is the one [map_insert] builds. *)
Example table_a_ab_inserted :
  (s ← insert_vi "a" "1" "n" (map_init 8 "n" tt); insert_vi "ab" "2" "n" s)
  = Ok table_a_ab.
Proof. vm_compute. reflexivity. Qed.

(** One map of two keys to one: the keys typed one by one are answered with
    the mapped key, and the second call returns [MAP_DONE]. *)
Example ab_to_x_two_calls :
  ∃ s1 s2,
    handle_keys_vi 3 "a" table_ab_x = Ok (MAP_AMBIGUOUS, s1)
    ∧ handle_keys_vi 3 "b" s1 = Ok (MAP_DONE, s2)
    ∧ keys_sent (trace s2) = keys_of "x".
Proof.
  eexists _, _. split; [vm_compute; reflexivity |].
  split; vm_compute; reflexivity.
Qed.

(** ** The monad and the array accesses *)

Lemma bind_Ok {A B : Type} (r : res A) (k : A → res B) (b : B) :
  r ≫= k = Ok b ↔ ∃ a, r = Ok a ∧ k a = Ok b.
Proof.
  destruct r as [a| |]; simpl; split.
  - intros H; exists a; auto.
  - intros (a' & [= ->] & H); exact H.
  - discriminate.
  - intros (a' & [=] & _).
  - discriminate.
  - intros (a' & [=] & _).
Qed.

Lemma bind_Ok_l {A B : Type} (a : A) (k : A → res B) : Ok a ≫= k = k a.
Proof. reflexivity. Qed.

(** [inv_ok H] takes apart a hypothesis [H : x ← r; k = Ok b]. *)
Ltac inv_ok H :=
  let a := fresh "a" in
  let Ha := fresh "Ha" in
  apply bind_Ok in H; destruct H as (a & Ha & H).

(** [case_if H] splits on the condition of the first [if] in [H]. *)
Ltac case_if H :=
  match type of H with
  | context [if ?b then _ else _] => destruct b eqn:?
  end.

Lemma rd_Ok (a : list ascii) (i : Z) (c : ascii) :
  rd a i = Ok c ↔ 0 ≤ i ∧ a !! Z.to_nat i = Some c.
Proof.
  unfold rd. case_bool_decide as Hi.
  - destruct (a !! Z.to_nat i) as [c'|]; split.
    + intros [= ->]; auto.
    + intros [_ [= ->]]; auto.
    + discriminate.
    + intros [_ [=]].
  - split; [discriminate | intros [? _]; lia].
Qed.

Lemma rd_lookup (a : list ascii) (k : nat) (c : ascii) :
  a !! k = Some c → rd a (Z.of_nat k) = Ok c.
Proof. intros H. apply rd_Ok. rewrite Nat2Z.id. split; [lia | done]. Qed.

Lemma rd_lt (a : list ascii) (i : Z) :
  0 ≤ i < LENGTH a → ∃ c, rd a i = Ok c ∧ a !! Z.to_nat i = Some c.
Proof.
  unfold LENGTH. intros Hi.
  destruct (lookup_lt_is_Some_2 a (Z.to_nat i)) as [c Hc]; [lia |].
  exists c. split; [apply rd_Ok; split; [lia | done] | done].
Qed.

Lemma wr_Ok (a a' : list ascii) (i : Z) (c : ascii) :
  wr a i c = Ok a' ↔ 0 ≤ i < LENGTH a ∧ a' = <[Z.to_nat i := c]> a.
Proof.
  unfold wr, LENGTH. case_bool_decide as Hi.
  - split; [intros [= <-]; auto | intros [_ ->]; auto].
  - split; [discriminate | intros [? _]; lia].
Qed.

Lemma wr_lt (a : list ascii) (i : Z) (c : ascii) :
  0 ≤ i < LENGTH a → wr a i c = Ok (<[Z.to_nat i := c]> a).
Proof. intros Hi. apply wr_Ok. auto. Qed.

Lemma wr_ge (a : list ascii) (i : Z) (c : ascii) :
  LENGTH a ≤ i → wr a i c = Undef.
Proof. unfold wr, LENGTH. intros Hi. case_bool_decide; [lia | done]. Qed.

Lemma LENGTH_insert (a : list ascii) (k : nat) (c : ascii) :
  LENGTH (<[k := c]> a) = LENGTH a.
Proof. unfold LENGTH. by rewrite length_insert. Qed.

(** ** The loops that move characters within the queue *)

Lemma shift_queue_delete_keys (n : nat) (q : list ascii) (i : Z) :
  shift_queue n q i = delete_keys n q i (i + 1).
Proof.
  revert q i. induction n as [|n IH]; intros q i; [done |].
  simpl. destruct (rd q (i + 1)) as [c| |]; simpl; try done.
  destruct (wr q i c) as [q'| |]; simpl; [apply IH | done | done].
Qed.

(** [delete_keys] copies [n] characters down from [j] to [i ≤ j]. *)
Lemma delete_keys_spec (n : nat) (q : list ascii) (i j : Z) :
  0 ≤ i ≤ j → j + Z.of_nat n ≤ LENGTH q →
  ∃ q', delete_keys n q i j = Ok q' ∧ length q' = length q ∧
    ∀ k : nat, q' !! k =
      if bool_decide (i ≤ Z.of_nat k < i + Z.of_nat n)
      then q !! Z.to_nat (Z.of_nat k + (j - i)) else q !! k.
Proof.
  revert q i j. induction n as [|n IH]; intros q i j Hij Hlen.
  - exists q. split; [done |]. split; [done |]. intros k.
    case_bool_decide; [lia | done].
  - simpl. destruct (rd_lt q j) as (c & -> & Hc); [lia |].
    rewrite bind_Ok_l, wr_lt by lia. rewrite bind_Ok_l.
    destruct (IH (<[Z.to_nat i := c]> q) (i + 1) (j + 1)) as (q' & Hq' & Hl & Hk);
      [lia | rewrite LENGTH_insert; lia |].
    exists q'. split; [done |]. split; [by rewrite Hl, length_insert |].
    intros k. rewrite Hk. unfold LENGTH in Hlen.
    destruct (decide (Z.of_nat k = i)) as [Hki | Hki].
    + rewrite (bool_decide_eq_false_2 (i + 1 ≤ _ < _)) by lia.
      rewrite (bool_decide_eq_true_2 (i ≤ _ < _)) by lia.
      replace (Z.to_nat i) with k by lia.
      rewrite list_lookup_insert_eq by lia.
      replace (Z.to_nat (Z.of_nat k + (j - i))) with (Z.to_nat j) by lia. done.
    + case_bool_decide as H1.
      * rewrite (bool_decide_eq_true_2 (i ≤ _ < _)) by lia.
        rewrite list_lookup_insert_ne by lia. f_equal. lia.
      * rewrite list_lookup_insert_ne by lia.
        case_bool_decide; [lia | done].
Qed.

(** [make_space] copies [n] characters up, those below [j] to below [i ≥ j],
    the highest first. *)
Lemma make_space_spec (n : nat) (q : list ascii) (i j : Z) :
  Z.of_nat n ≤ j ≤ i → i ≤ LENGTH q →
  ∃ q', make_space n q i j = Ok q' ∧ length q' = length q ∧
    ∀ k : nat, q' !! k =
      if bool_decide (i - Z.of_nat n ≤ Z.of_nat k < i)
      then q !! Z.to_nat (Z.of_nat k - (i - j)) else q !! k.
Proof.
  revert q i j. induction n as [|n IH]; intros q i j Hij Hlen.
  - exists q. split; [done |]. split; [done |]. intros k.
    case_bool_decide; [lia | done].
  - simpl. destruct (rd_lt q (j - 1)) as (c & -> & Hc); [lia |].
    rewrite bind_Ok_l, wr_lt by lia. rewrite bind_Ok_l.
    destruct (IH (<[Z.to_nat (i - 1) := c]> q) (i - 1) (j - 1)) as (q' & Hq' & Hl & Hk);
      [lia | rewrite LENGTH_insert; lia |].
    exists q'. split; [done |]. split; [by rewrite Hl, length_insert |].
    intros k. rewrite Hk. unfold LENGTH in Hlen.
    destruct (decide (Z.of_nat k = i - 1)) as [Hki | Hki].
    + rewrite (bool_decide_eq_false_2 (i - 1 - _ ≤ _ < _)) by lia.
      rewrite (bool_decide_eq_true_2 (i - _ ≤ _ < _)) by lia.
      replace (Z.to_nat (i - 1)) with k by lia.
      rewrite list_lookup_insert_eq by lia.
      replace (Z.to_nat (Z.of_nat k - (i - j))) with (Z.to_nat (j - 1)) by lia. done.
    + case_bool_decide as H1.
      * rewrite (bool_decide_eq_true_2 (i - _ ≤ _ < _)) by lia.
        rewrite list_lookup_insert_ne by lia. f_equal. lia.
      * rewrite list_lookup_insert_ne by lia.
        case_bool_decide; [lia | done].
Qed.

(** ** The C library functions on strings without NUL *)

Lemma char_code_inj (c1 c2 : ascii) : char_code c1 = char_code c2 → c1 = c2.
Proof.
  unfold char_code. intros H. apply N2Z.inj in H.
  rewrite <- (ascii_N_embedding c1), <- (ascii_N_embedding c2). by rewrite H.
Qed.

Lemma char_code_range (c : ascii) : 0 ≤ char_code c < 256.
Proof.
  unfold char_code. pose proof (N_ascii_bounded c) as H. lia.
Qed.

Lemma char_of_not_NUL (z : Z) : 0 < z < 256 → char_of z ≠ NUL.
Proof.
  intros Hz Heq. unfold char_of in Heq.
  apply (f_equal N_of_ascii) in Heq.
  rewrite N_ascii_embedding in Heq.
  - simpl in Heq. rewrite Z.mod_small in Heq by lia. lia.
  - rewrite Z.mod_small by lia. lia.
Qed.

(** Where the first [n] characters of [s1] hold no NUL, [strncmp] compares
    the first [n] characters. *)
Lemma strncmp_n_spec (n : nat) (s1 s2 : list ascii) :
  (n ≤ length s1)%nat → (n ≤ length s2)%nat → NUL ∉ take n s1 →
  ∃ r, strncmp_n n s1 s2 = Ok r ∧ (r = 0 ↔ take n s1 = take n s2).
Proof.
  revert s1 s2. induction n as [|n IH]; intros s1 s2 H1 H2 Hnul.
  - exists 0. by rewrite !take_0.
  - destruct s1 as [|c1 t1]; [simpl in H1; lia |].
    destruct s2 as [|c2 t2]; [simpl in H2; lia |].
    simpl in *. rewrite not_elem_of_cons in Hnul. destruct Hnul as [Hc Hnul].
    case_bool_decide as Hne.
    + eexists. split; [done |]. split.
      * intros H0. exfalso. apply Hne, char_code_inj. lia.
      * intros [= ? _]. done.
    + subst c2.
      rewrite bool_decide_eq_false_2 by done.
      destruct (IH t1 t2) as (r & Hr & Hiff); [lia | lia | done |].
      exists r. split; [done |]. rewrite Hiff. split; [by intros -> | by intros [= ->]].
Qed.

Lemma strncmp_spec (s1 s2 : list ascii) (n : Z) :
  0 ≤ n ≤ Z.of_nat (length s1) → n ≤ Z.of_nat (length s2) → NUL ∉ s1 →
  ∃ r, strncmp (cstr s1) s2 n = Ok r ∧
       (r = 0 ↔ take (Z.to_nat n) s1 = take (Z.to_nat n) s2).
Proof.
  intros H1 H2 Hnul. unfold strncmp, cstr.
  destruct (strncmp_n_spec (Z.to_nat n) (s1 ++ [NUL]) s2) as (r & Hr & Hiff).
  - rewrite length_app. lia.
  - lia.
  - rewrite take_app_le by lia. intros Hin. apply Hnul.
    by apply (subseteq_take (Z.to_nat n) s1).
  - exists r. split; [done |]. by rewrite take_app_le in Hiff by lia.
Qed.

Lemma strcmp_spec (s1 s2 : list ascii) :
  NUL ∉ s1 → NUL ∉ s2 →
  ∃ r, strcmp (cstr s1) (cstr s2) = Ok r ∧ (r = 0 ↔ s1 = s2).
Proof.
  unfold cstr. revert s2. induction s1 as [|c1 t1 IH]; intros s2 H1 H2.
  - destruct s2 as [|c2 t2]; simpl.
    + exists 0. done.
    + rewrite not_elem_of_cons in H2. destruct H2 as [Hc _].
      rewrite bool_decide_eq_true_2 by done. eexists. split; [done |].
      split; [| done]. intros H0. exfalso. apply Hc, char_code_inj.
      change (char_code NUL) with 0 in *. lia.
  - rewrite not_elem_of_cons in H1. destruct H1 as [Hc1 H1].
    destruct s2 as [|c2 t2]; simpl.
    + rewrite bool_decide_eq_true_2 by done. eexists. split; [done |].
      split; [| done]. intros H0. exfalso. apply Hc1. symmetry. apply char_code_inj.
      change (char_code NUL) with 0 in *. lia.
    + rewrite not_elem_of_cons in H2. destruct H2 as [Hc2 H2].
      case_bool_decide as Hne.
      * eexists. split; [done |]. split.
        -- intros H0. exfalso. apply Hne, char_code_inj. lia.
        -- intros [= ? _]. done.
      * subst c2.
        rewrite bool_decide_eq_false_2 by done.
        destruct (IH t2) as (r & Hr & Hiff); [done | done |].
        exists r. split; [done |]. rewrite Hiff.
        split; [by intros -> | by intros [= ->]].
Qed.

(** Where [src] holds no NUL, [strncpy] of its length copies it over the
    characters of [dst] from [i] on. *)
Lemma strncpy_at_spec (src rest dst : list ascii) (i : Z) :
  NUL ∉ src → 0 ≤ i → i + Z.of_nat (length src) ≤ LENGTH dst →
  ∃ q', strncpy_at (length src) dst (src ++ rest) i = Ok q' ∧
    length q' = length dst ∧
    ∀ k : nat, q' !! k =
      if bool_decide (i ≤ Z.of_nat k < i + Z.of_nat (length src))
      then src !! Z.to_nat (Z.of_nat k - i) else dst !! k.
Proof.
  revert dst i. induction src as [|c src IH]; intros dst i Hnul Hi Hlen.
  - exists dst. split; [done |]. split; [done |]. intros k.
    simpl. case_bool_decide; [lia | done].
  - rewrite not_elem_of_cons in Hnul. destruct Hnul as [Hc Hnul].
    simpl in *. rewrite bool_decide_eq_false_2 by done.
    rewrite wr_lt by lia. rewrite bind_Ok_l.
    destruct (IH (<[Z.to_nat i := c]> dst) (i + 1)) as (q' & Hq' & Hl & Hk);
      [done | lia | rewrite LENGTH_insert; lia |].
    exists q'. split; [done |]. split; [by rewrite Hl, length_insert |].
    intros k. rewrite Hk. unfold LENGTH in Hlen.
    destruct (decide (Z.of_nat k = i)) as [Hki | Hki].
    + rewrite (bool_decide_eq_false_2 (i + 1 ≤ _ < _)) by lia.
      rewrite (bool_decide_eq_true_2 (i ≤ _ < _)) by lia.
      replace (Z.to_nat i) with k by lia.
      rewrite list_lookup_insert_eq by lia.
      replace (Z.to_nat (Z.of_nat k - i)) with 0%nat by lia. done.
    + rewrite list_lookup_insert_ne by lia.
      case_bool_decide as H1.
      * rewrite (bool_decide_eq_true_2 (i ≤ _ < _)) by lia.
        replace (Z.to_nat (Z.of_nat k - i)) with (S (Z.to_nat (Z.of_nat k - (i + 1)))) by lia.
        done.
      * case_bool_decide; [lia | done].
Qed.

(** Where [src] does not fit between [i] and the end of [dst], [strncpy]
    writes behind the end of [dst]. *)
Lemma strncpy_at_overflow (src rest dst : list ascii) (i : Z) :
  NUL ∉ src → 0 ≤ i ≤ LENGTH dst → LENGTH dst < i + Z.of_nat (length src) →
  strncpy_at (length src) dst (src ++ rest) i = Undef.
Proof.
  revert dst i. induction src as [|c src IH]; intros dst i Hnul Hi Hlen.
  - simpl in Hlen. lia.
  - rewrite not_elem_of_cons in Hnul. destruct Hnul as [Hc Hnul].
    simpl in *. rewrite bool_decide_eq_false_2 by done.
    destruct (decide (i = LENGTH dst)) as [-> | Hne].
    + by rewrite wr_ge by lia.
    + rewrite wr_lt by lia. rewrite bind_Ok_l. apply IH; [done | |];
        rewrite LENGTH_insert; lia.
Qed.

(** ** The translator returns, and returns a string without NUL *)

Lemma strncmp_n_safe (n : nat) (s1 s2 : list ascii) :
  (n ≤ length s1)%nat → (n ≤ length s2)%nat → ∃ r, strncmp_n n s1 s2 = Ok r.
Proof.
  revert s1 s2. induction n as [|n IH]; intros s1 s2 H1 H2; [by eexists |].
  destruct s1 as [|c1 t1]; [simpl in H1; lia |].
  destruct s2 as [|c2 t2]; [simpl in H2; lia |].
  simpl in *. case_bool_decide; [by eexists |].
  case_bool_decide; [by eexists |]. apply IH; lia.
Qed.

Lemma strlen_spec (s : list ascii) :
  0 ≤ strlen s ≤ Z.of_nat (length s) ∧ NUL ∉ take (Z.to_nat (strlen s)) s.
Proof.
  induction s as [|c s [IH1 IH2]]; simpl.
  - split; [lia | apply not_elem_of_nil].
  - case_bool_decide as Hc.
    + split; [lia | apply not_elem_of_nil].
    + split; [lia |].
      replace (Z.to_nat (1 + strlen s)) with (S (Z.to_nat (strlen s))) by lia.
      simpl. by apply not_elem_of_cons.
Qed.

Lemma strlen_cstr (s : list ascii) : NUL ∉ s → strlen (cstr s) = Z.of_nat (length s).
Proof.
  unfold cstr. induction s as [|c s IH]; intros Hs; simpl.
  - done.
  - rewrite not_elem_of_cons in Hs. destruct Hs as [Hc Hs].
    rewrite bool_decide_eq_false_2 by done. rewrite IH by done. lia.
Qed.

Lemma scan_symbol_spec (q : list ascii) (rem symlen : Z) :
  symlen ≤ rem → rem - symlen ≤ Z.of_nat (length q) →
  ∃ n, scan_symbol q rem symlen = Ok n ∧ symlen ≤ n ≤ rem.
Proof.
  revert symlen. induction q as [|c q IH]; intros symlen H1 H2; simpl in *.
  - rewrite bool_decide_eq_true_2 by lia. exists symlen. split; [done | lia].
  - case_bool_decide as Hrem; [exists symlen; split; [done | lia] |].
    destruct (bool_decide (c = "<"%char) || bool_decide (c = " "%char));
      [exists symlen; split; [done | lia] |].
    case_bool_decide.
    + destruct (IH (symlen + 1)) as (n & Hn & Hr); [lia | lia |].
      exists n. split; [done | lia].
    + exists (symlen + 1). split; [done | lia].
Qed.

Lemma convert_ctrl_spec (p : list ascii) (symlen : Z) :
  symlen ≤ Z.of_nat (length p) →
  ∃ raw rawlen, convert_ctrl p symlen = Ok (raw, rawlen) ∧ raw_ok raw rawlen.
Proof.
  intros Hlen. unfold convert_ctrl.
  assert (Hnone : raw_ok None 0) by (left; done).
  case_bool_decide as H5; [| by eexists _, _].
  destruct (rd_lt p 2) as (p2 & -> & _); [unfold LENGTH; lia |].
  rewrite bind_Ok_l. case_bool_decide; [| by eexists _, _].
  destruct (rd_lt p 1) as (p1 & -> & _); [unfold LENGTH; lia |].
  rewrite bind_Ok_l. case_bool_decide; [| by eexists _, _].
  destruct (rd_lt p 3) as (p3 & -> & _); [unfold LENGTH; lia |].
  rewrite bind_Ok_l.
  destruct (bool_decide (0x41 ≤ char_code p3) && bool_decide (char_code p3 ≤ 0x5d))
    eqn:Hup.
  { apply andb_true_iff in Hup. destruct Hup as [Ha Hb].
    apply bool_decide_eq_true in Ha, Hb.
    eexists _, _. split; [done |]. right. eexists. split; [done |].
    split; [done |]. apply char_of_not_NUL. lia. }
  destruct (bool_decide (0x61 ≤ char_code p3) && bool_decide (char_code p3 ≤ 0x7a))
    eqn:Hlo; [| by eexists _, _].
  apply andb_true_iff in Hlo. destruct Hlo as [Ha Hb].
  apply bool_decide_eq_true in Ha, Hb.
  eexists _, _. split; [done |]. right. eexists. split; [done |].
  split; [done |]. apply char_of_not_NUL. lia.
Qed.

Lemma map_convert_keylabel_from_spec (keys : list (list ascii * Z * list ascii * Z))
    (p : list ascii) (inlen : Z) :
  Forall (λ key, key.1.1.2 = Z.of_nat (length key.1.1.1)
                 ∧ raw_ok (Some key.1.2) key.2) keys →
  inlen ≤ Z.of_nat (length p) →
  ∃ raw rawlen, map_convert_keylabel_from keys p inlen = Ok (raw, rawlen)
                ∧ raw_ok raw rawlen.
Proof.
  intros Hkeys Hlen. induction Hkeys as [|[[[label len] ch] chlen] keys [Hl Hch] _ IH];
    simpl in *.
  - eexists _, _. split; [done |]. by left.
  - case_bool_decide as Hin; [| done].
    destruct (strncmp_n_safe (Z.to_nat inlen) (cstr label) p) as [r Hr];
      [unfold cstr; rewrite length_app; lia | lia |].
    unfold strncmp. rewrite Hr, bind_Ok_l.
    case_bool_decide; [| done]. by eexists _, _.
Qed.

Lemma keylabels_ok :
  Forall (λ key, key.1.1.2 = Z.of_nat (length key.1.1.1)
                 ∧ raw_ok (Some key.1.2) key.2) keylabels.
Proof.
  unfold keylabels. repeat apply Forall_cons_2; try apply Forall_nil_2;
    (split; [done |]); right; eexists; (split; [done |]); (split; [done |]);
    discriminate.
Qed.

Lemma convert_symbol_spec (p : list ascii) (rem : Z) :
  0 < rem ≤ Z.of_nat (length p) →
  ∃ raw rawlen symlen, convert_symbol p rem = Ok (raw, rawlen, symlen)
    ∧ 1 ≤ symlen ≤ rem ∧ rawlen = Z.of_nat (length raw)
    ∧ (NUL ∉ take (Z.to_nat rem) p → NUL ∉ raw).
Proof.
  intros Hrem. unfold convert_symbol.
  destruct (scan_symbol_spec (drop 1 p) rem 1) as (symlen & -> & Hsym);
    [lia | rewrite length_drop; lia |].
  rewrite bind_Ok_l.
  destruct (rd_lt p (symlen - 1)) as (last & -> & _); [unfold LENGTH; lia |].
  rewrite bind_Ok_l.
  assert (Hrec : ∃ raw rawlen,
    (if bool_decide (last = ">"%char) then
       '(raw, rawlen) ← convert_ctrl p symlen;
       match raw with
       | Some _ => Ok (raw, rawlen)
       | None => map_convert_keylabel p symlen
       end
     else Ok (None, 0)) = Ok (raw, rawlen) ∧ raw_ok raw rawlen).
  { case_bool_decide; [| eexists _, _; split; [done | by left]].
    destruct (convert_ctrl_spec p symlen) as (raw & rawlen & -> & Hraw); [lia |].
    rewrite bind_Ok_l. destruct raw as [r|]; [by eexists _, _ |].
    apply map_convert_keylabel_from_spec; [apply keylabels_ok | lia]. }
  destruct Hrec as (raw & rawlen & -> & Hraw). rewrite bind_Ok_l.
  destruct Hraw as [[-> ->] | (ch & -> & -> & Hch)]; simpl.
  - eexists _, _, _. split; [done |]. split; [lia |].
    split; [rewrite length_take; lia |].
    intros Hnul Hin. apply Hnul.
    apply elem_of_take in Hin. destruct Hin as (i & Hi & Hlt).
    apply elem_of_take. exists i. split; [done | lia].
  - eexists _, _, _. split; [done |]. split; [lia |]. split; [done |].
    intros _. rewrite list_elem_of_singleton. congruence.
Qed.

Lemma map_convert_keys_from_spec (n : nat) (p : list ascii) (rem : Z)
    (str : list ascii) (len : Z) :
  rem ≤ Z.of_nat n → rem ≤ Z.of_nat (length p) →
  NUL ∉ take (Z.to_nat rem) p → NUL ∉ str → len = Z.of_nat (length str) →
  ∃ str', map_convert_keys_from n p rem str len = Ok (str', Z.of_nat (length str'))
          ∧ NUL ∉ str'.
Proof.
  revert p rem str len.
  induction n as [|n IH]; intros p rem str len Hn Hp Hnul Hstr ->.
  - exists str. simpl. rewrite bool_decide_eq_false_2 by lia. done.
  - simpl. case_bool_decide as Hrem; [| by exists str].
    destruct (rd_lt p 0) as (c & -> & Hc); [unfold LENGTH; lia |].
    rewrite bind_Ok_l.
    assert (Hdrop : ∀ k : nat, (k ≤ Z.to_nat rem)%nat →
              NUL ∉ take (Z.to_nat rem - k) (drop k p)).
    { intros k Hk Hin. apply Hnul.
      apply elem_of_take in Hin. destruct Hin as (i & Hi & Hlt).
      rewrite lookup_drop in Hi. apply elem_of_take. exists (k + i)%nat.
      split; [done | lia]. }
    case_bool_decide as Hlt.
    + apply IH.
      * lia.
      * rewrite length_drop. lia.
      * replace (Z.to_nat (rem - 1)) with (Z.to_nat rem - 1)%nat by lia.
        apply Hdrop. lia.
      * rewrite not_elem_of_app. split; [done |].
        rewrite list_elem_of_singleton. intros <-. apply Hnul.
        apply elem_of_take. exists 0%nat. split; [done | lia].
      * rewrite length_app. simpl. lia.
    + destruct (convert_symbol_spec p rem) as (raw & rawlen & symlen & -> & Hs & -> & Hraw);
        [lia |].
      rewrite bind_Ok_l. apply IH.
      * lia.
      * rewrite length_drop. lia.
      * replace (Z.to_nat (rem - symlen)) with (Z.to_nat rem - Z.to_nat symlen)%nat by lia.
        apply Hdrop. lia.
      * rewrite not_elem_of_app. auto.
      * rewrite length_app. lia.
Qed.

(** The translator returns for every C string, and the string it returns has
    the length it reports and holds no NUL. *)
Lemma map_convert_keys_total (in_0 : list ascii) :
  ∃ raw, map_convert_keys (cstr in_0) (strlen (cstr in_0))
         = Ok (raw, Z.of_nat (length raw)) ∧ NUL ∉ raw.
Proof.
  unfold map_convert_keys.
  destruct (strlen_spec (cstr in_0)) as [Hlen Hnul].
  apply map_convert_keys_from_spec; try done; try lia. apply not_elem_of_nil.
Qed.


(** ** Tokens the translator does not know *)

Lemma scan_symbol_name (body rest : list ascii) (rem symlen : Z) :
  Forall name_char body → symlen + Z.of_nat (length body) < rem →
  scan_symbol (body ++ ">"%char :: rest) rem symlen
  = Ok (symlen + Z.of_nat (length body) + 1).
Proof.
  intros Hbody. revert symlen.
  induction Hbody as [|c body (Hlt & Hgt & Hsp & _) _ IH]; intros symlen Hrem;
    simpl in *.
  - rewrite bool_decide_eq_false_2 by lia. f_equal. lia.
  - rewrite bool_decide_eq_false_2 by lia.
    rewrite (bool_decide_eq_false_2 (c = "<"%char)) by done.
    rewrite (bool_decide_eq_false_2 (c = " "%char)) by done.
    rewrite bool_decide_eq_true_2 by done. simpl.
    rewrite IH by lia. f_equal. lia.
Qed.

Lemma map_convert_keylabel_from_unknown (keys : list (list ascii * Z * list ascii * Z))
    (tok rest : list ascii) :
  Forall (λ key, key.1.1.2 = Z.of_nat (length key.1.1.1) ∧ NUL ∉ key.1.1.1) keys →
  tok ∉ (λ key, key.1.1.1) <$> keys →
  map_convert_keylabel_from keys (tok ++ rest) (Z.of_nat (length tok)) = Ok (None, 0).
Proof.
  intros Hkeys. induction Hkeys as [|[[[label len] ch] chlen] keys [Hl Hnul] _ IH];
    intros Hnot; simpl in *; [done |].
  rewrite not_elem_of_cons in Hnot. destruct Hnot as [Hne Hnot].
  case_bool_decide as Hlen; [| by apply IH].
  destruct (strncmp_spec label (tok ++ rest) (Z.of_nat (length tok)))
    as (r & -> & Hiff); [lia | rewrite length_app; lia | done |].
  rewrite bind_Ok_l. rewrite bool_decide_eq_false_2; [by apply IH |].
  rewrite Hiff. rewrite Nat2Z.id, take_app_length.
  rewrite take_ge by lia. congruence.
Qed.

Lemma convert_ctrl_unknown (body rest : list ascii) :
  is_ctrl_token ("<"%char :: body ++ [">"%char]) = false →
  convert_ctrl ("<"%char :: body ++ ">"%char :: rest) (Z.of_nat (length body) + 2)
  = Ok (None, 0).
Proof.
  intros Hno. unfold convert_ctrl. case_bool_decide as H5; [| done].
  destruct body as [|c [|dash [|x [|? ?]]]]; simpl in H5; try lia.
  simpl in *. unfold rd. simpl.
  destruct (decide (dash = "-"%char)) as [-> | Hdash];
    [| by rewrite (bool_decide_eq_false_2 (dash = _)) by done].
  destruct (decide (c = "C"%char)) as [-> | Hc];
    [| by rewrite (bool_decide_eq_false_2 (c = _)) by done].
  simpl in *.
  apply orb_false_iff in Hno. destruct Hno as [Hup Hlo].
  apply bool_decide_eq_false in Hup, Hlo.
  destruct (bool_decide (65 ≤ char_code x) && bool_decide (char_code x ≤ 93)) eqn:E1.
  { apply andb_true_iff in E1. destruct E1 as [Ha Hb].
    apply bool_decide_eq_true in Ha, Hb. lia. }
  destruct (bool_decide (97 ≤ char_code x) && bool_decide (char_code x ≤ 122)) eqn:E2;
    [| done].
  apply andb_true_iff in E2. destruct E2 as [Ha Hb].
  apply bool_decide_eq_true in Ha, Hb. lia.
Qed.

(** A symbolic name that is neither a [<C-X>] nor a label is translated to
    its own characters. *)
Lemma map_convert_keys_unknown (body : list ascii) :
  let tok := "<"%char :: body ++ [">"%char] in
  Forall name_char body → is_ctrl_token tok = false → is_named_token tok = false →
  map_convert_keys (cstr tok) (strlen (cstr tok)) = Ok (tok, Z.of_nat (length tok)).
Proof.
  intros tok Hbody Hctrl Hnamed.
  assert (Hnul : NUL ∉ tok).
  { unfold tok. rewrite not_elem_of_cons, not_elem_of_app, list_elem_of_singleton.
    split; [done |]. split; [| done].
    intros Hin. rewrite Forall_forall in Hbody. by apply Hbody in Hin as (_ & _ & _ & ?). }
  rewrite strlen_cstr by done. unfold map_convert_keys. rewrite Nat2Z.id.
  assert (Hlen : length tok = S (S (length body))).
  { unfold tok. simpl. rewrite length_app. simpl. lia. }
  rewrite Hlen. cbn [map_convert_keys_from].
  rewrite bool_decide_eq_true_2 by lia.
  change (rd (cstr tok) 0) with (Ok (A := ascii) "<"%char). rewrite bind_Ok_l.
  rewrite bool_decide_eq_false_2 by (intros H; by apply H).
  assert (Hsym : convert_symbol (cstr tok) (Z.of_nat (S (S (length body))))
                 = Ok (tok, Z.of_nat (length tok), Z.of_nat (length tok))).
  { assert (Hcstr : cstr tok = "<"%char :: body ++ [">"%char; NUL]).
    { unfold cstr, tok. simpl. by rewrite <- app_assoc. }
    rewrite Hcstr. unfold convert_symbol, tok.
    change (drop 1 ("<"%char :: body ++ [">"%char; NUL])) with (body ++ [">"%char; NUL]).
    rewrite scan_symbol_name by (done || lia). rewrite bind_Ok_l.
    assert (Hlast : rd ("<"%char :: body ++ [">"%char; NUL])
                      (1 + Z.of_nat (length body) + 1 - 1) = Ok ">"%char).
    { apply rd_Ok. split; [lia |].
      replace (Z.to_nat (1 + Z.of_nat (length body) + 1 - 1)) with (S (length body)) by lia.
      simpl. by rewrite list_lookup_middle. }
    rewrite Hlast, bind_Ok_l. rewrite bool_decide_eq_true_2 by done.
    replace (1 + Z.of_nat (length body) + 1) with (Z.of_nat (length body) + 2) by lia.
    rewrite convert_ctrl_unknown by done. rewrite bind_Ok_l.
    unfold map_convert_keylabel.
    pose proof (map_convert_keylabel_from_unknown keylabels tok [NUL]) as Hlab.
    fold (cstr tok) in Hlab. rewrite Hcstr in Hlab. unfold tok in Hlab.
    simpl length in Hlab. rewrite length_app in Hlab. simpl length in Hlab.
    replace (Z.of_nat (S (length body + 1))) with (Z.of_nat (length body) + 2) in Hlab by lia.
    rewrite Hlab.
    - rewrite bind_Ok_l. simpl. rewrite length_app. simpl.
      replace (Z.to_nat (Z.of_nat (length body) + 2)) with (S (length body + 1)) by lia.
      simpl. replace (">"%char :: NUL :: []) with ([">"%char] ++ [NUL]) by done.
      rewrite app_assoc. rewrite take_app_length' by (rewrite length_app; simpl; lia).
      do 3 f_equal; lia.
    - unfold keylabels. repeat apply Forall_cons_2; try apply Forall_nil_2;
        (split; [done |]); simpl; rewrite !not_elem_of_cons;
        repeat split; try discriminate; apply not_elem_of_nil.
    - unfold is_named_token in Hnamed. by apply bool_decide_eq_false in Hnamed. }
  rewrite Hsym, bind_Ok_l, Hlen.
  replace (Z.of_nat (S (S (length body))) - Z.of_nat (S (S (length body)))) with 0 by lia.
  generalize (S (S (length body))). intros n.
  unfold map_convert_keys_from. destruct (length body); reflexivity.
Qed.

(** ** States *)

(** [unfold_state] computes the fields of the states that the updates
    build. *)
Ltac unfold_state :=
  cbn [mlist queue qlen resolved showbuf slen timout_id vb sources next_source
       statusbar_cmd trace set_mlist set_queue set_qlen set_resolved set_showbuf
       set_timout_id set_vb set_sources set_statusbar_cmd log g_source_remove
       g_timeout_add] in *.

Lemma state_ext {U : Type} (s1 s2 : state U) :
  mlist s1 = mlist s2 → queue s1 = queue s2 → qlen s1 = qlen s2 →
  resolved s1 = resolved s2 → showbuf s1 = showbuf s2 → slen s1 = slen s2 →
  timout_id s1 = timout_id s2 → vb s1 = vb s2 → sources s1 = sources s2 →
  next_source s1 = next_source s2 → statusbar_cmd s1 = statusbar_cmd s2 →
  trace s1 = trace s2 → s1 = s2.
Proof. destruct s1, s2. simpl. by intros -> -> -> -> -> -> -> -> -> -> -> ->. Qed.

(** [state_eq] proves two states equal field by field. *)
Ltac state_eq :=
  lazymatch goal with |- Ok _ = Ok _ => f_equal | _ => idtac end;
  apply state_ext; unfold_state; first [done | lia].

(** ** The display *)

Section Display.
Context {U : Type} {E : Env U}.
Implicit Type s : state U.

Lemma showcmd_loop_ok (keys : list ascii) (keylen : Z) (buf : list ascii)
    (slen max : Z) :
  0 ≤ keylen ≤ Z.of_nat (length keys) → 0 ≤ slen < LENGTH buf →
  max + 2 = LENGTH buf →
  ∃ buf' slen', showcmd_loop keys keylen buf slen max = Ok (buf', slen')
    ∧ length buf' = length buf ∧ slen ≤ slen' < LENGTH buf.
Proof.
  revert keylen buf slen.
  induction keys as [|key keys IH]; intros keylen buf slen Hk Hs Hmax; simpl in *.
  - rewrite (bool_decide_eq_false_2 (keylen ≠ 0)) by lia. simpl.
    exists buf, slen. split; [done |]. split; [done | lia].
  - destruct (bool_decide (keylen ≠ 0) && bool_decide (slen < max)) eqn:Hcond;
      [| exists buf, slen; split; [done |]; split; [done | lia]].
    apply andb_true_iff in Hcond. destruct Hcond as [Hk0 Hlt].
    apply bool_decide_eq_true in Hk0, Hlt.
    destruct (IS_CTRL key).
    + rewrite wr_lt by lia. rewrite bind_Ok_l.
      rewrite wr_lt by (rewrite LENGTH_insert; lia). rewrite bind_Ok_l.
      destruct (IH (keylen - 1) (<[Z.to_nat (slen + 1):=CTRL key]>
                                   (<[Z.to_nat slen:="^"%char]> buf)) (slen + 2))
        as (buf' & slen' & -> & Hl & Hr);
        [lia | rewrite !LENGTH_insert; lia | rewrite !LENGTH_insert; lia |].
      exists buf', slen'. split; [done |].
      rewrite !length_insert in Hl. rewrite !LENGTH_insert in Hr. split; [done | lia].
    + rewrite wr_lt by lia. rewrite bind_Ok_l.
      destruct (IH (keylen - 1) (<[Z.to_nat slen:=key]> buf) (slen + 1))
        as (buf' & slen' & -> & Hl & Hr);
        [lia | rewrite !LENGTH_insert; lia | rewrite !LENGTH_insert; lia |].
      exists buf', slen'. split; [done |].
      rewrite !length_insert in Hl. rewrite !LENGTH_insert in Hr. split; [done | lia].
Qed.

(** [showcmd] stays within [showbuf] and changes the display only. *)
Lemma showcmd_ok (keys : list ascii) (keylen : Z) (append : bool) s :
  bufs_ok s → 0 ≤ keylen ≤ Z.of_nat (length keys) →
  ∃ buf sl, showcmd keys keylen append s
            = Ok (set_statusbar_cmd (c_string buf) (set_showbuf buf sl s))
    ∧ length buf = 12%nat ∧ 0 ≤ sl < 12.
Proof.
  intros [Hlen Hsl] Hk. unfold showcmd.
  case_bool_decide as Hk0.
  - rewrite wr_lt by (unfold LENGTH; lia). rewrite !bind_Ok_l.
    eexists _, _. split; [done |]. rewrite length_insert. split; [done | lia].
  - destruct (showcmd_loop_ok keys keylen (showbuf s) (if append then slen s else 0)
                (LENGTH (showbuf s) - 2)) as (buf & sl & -> & Hl & Hr);
      [lia | unfold LENGTH; destruct append; lia | lia |].
    rewrite bind_Ok_l. unfold LENGTH in Hr.
    rewrite wr_lt by (unfold LENGTH; destruct append; lia).
    rewrite !bind_Ok_l. eexists _, _. split; [done |].
    rewrite length_insert. split; [lia | destruct append; lia].
Qed.

Lemma showcmd_inv (keys : list ascii) (keylen : Z) (append : bool) s s' :
  showcmd keys keylen append s = Ok s' →
  ∃ buf sl, s' = set_statusbar_cmd (c_string buf) (set_showbuf buf sl s).
Proof.
  unfold showcmd. intros H. inv_ok H. destruct a as [buf sl].
  injection H as <-. by eexists _, _.
Qed.

End Display.

(** ** Copying the keys onto the end of the queue *)

Section Enqueue.
Context {U : Type} {E : Env U}.
Implicit Type s : state U.

Lemma enqueue_inv (keys : list ascii) (keylen : Z) s s' :
  enqueue keys keylen s = Ok s' → ∃ q n, s' = set_qlen n (set_queue q s).
Proof.
  revert keylen s. induction keys as [|k keys IH]; intros keylen s; simpl.
  - destruct (_ && _); [done |]. intros [= <-]. exists (queue s), (qlen s).
    by destruct s.
  - destruct (_ && _); [| intros [= <-]; exists (queue s), (qlen s); by destruct s].
    intros H. inv_ok H. apply IH in H as (q & n & ->). by exists q, n.
Qed.

(** As many of the keys as fit are appended to the keys in the queue. *)
Lemma enqueue_ok (keys : list ascii) (keylen : Z) s :
  0 ≤ qlen s ≤ LENGTH (queue s) → keylen ≤ Z.of_nat (length keys) →
  let n := Z.to_nat (Z.min keylen (LENGTH (queue s) - qlen s)) in
  ∃ q, enqueue keys keylen s = Ok (set_qlen (qlen s + Z.of_nat n) (set_queue q s))
    ∧ length q = length (queue s)
    ∧ take (Z.to_nat (qlen s) + n) q = content s ++ take n keys.
Proof.
  revert keylen s. induction keys as [|k keys IH]; intros keylen s Hq Hk n; simpl in *.
  - assert (n = 0%nat) as -> by lia.
    rewrite (bool_decide_eq_false_2 (0 < keylen)) by lia. rewrite andb_false_r.
    exists (queue s). split; [state_eq |].
    split; [done |]. unfold content. rewrite Nat.add_0_r, take_0, app_nil_r. done.
  - destruct (bool_decide (qlen s < LENGTH (queue s)) && bool_decide (0 < keylen))
      eqn:Hcond.
    + apply andb_true_iff in Hcond. destruct Hcond as [Hlt Hk0].
      apply bool_decide_eq_true in Hlt, Hk0.
      rewrite wr_lt by lia. rewrite bind_Ok_l.
      destruct (IH (keylen - 1)
                  (set_qlen (qlen s + 1) (set_queue (<[Z.to_nat (qlen s):=k]> (queue s)) s)))
        as (q & -> & Hl & Hc); simpl; [rewrite LENGTH_insert; lia | lia |].
      simpl in *. rewrite LENGTH_insert in *. rewrite length_insert in Hl.
      exists q. split; [state_eq |].
      split; [done |].
      assert (n = S (Z.to_nat (Z.min (keylen - 1) (LENGTH (queue s) - (qlen s + 1)))))
        as Hn by lia.
      rewrite Hn. simpl.
      replace (Z.to_nat (qlen s) + S (Z.to_nat (Z.min (keylen - 1) (LENGTH (queue s) - (qlen s + 1)))))%nat
        with (Z.to_nat (qlen s + 1) + Z.to_nat (Z.min (keylen - 1) (LENGTH (queue s) - (qlen s + 1))))%nat
        by lia.
      rewrite Hc. unfold content. simpl.
      replace (Z.to_nat (qlen s + 1)) with (S (Z.to_nat (qlen s))) by lia.
      unfold LENGTH in *.
      rewrite (take_S_r _ _ k) by (apply list_lookup_insert_eq; lia).
      rewrite take_insert_ge by lia. rewrite <- app_assoc. done.
    + assert (n = 0%nat) as ->.
      { apply andb_false_iff in Hcond. destruct Hcond as [H|H];
          apply bool_decide_eq_false in H; lia. }
      exists (queue s). split; [state_eq |].
      split; [done |]. unfold content. rewrite Nat.add_0_r, take_0, app_nil_r. done.
Qed.

End Enqueue.

(** ** Sending the resolved keys *)

Section Drain.
Context {U : Type} {E : Env U}.
Implicit Type s : state U.

Lemma feed_app (ks1 ks2 : list ascii) (v : VbCore U) :
  feed (ks1 ++ ks2) v = feed ks2 (feed ks1 v).
Proof. revert v. induction ks1 as [|k ks1 IH]; intros v; simpl; [done | apply IH]. Qed.

Lemma drained_nil s : bufs_ok s → drained [] s s.
Proof.
  intros Hb. unfold drained. simpl. rewrite app_nil_r.
  repeat split; try done; try lia; apply Hb.
Qed.

Lemma drained_app (ks1 ks2 : list ascii) s s1 s2 :
  drained ks1 s s1 → drained ks2 s1 s2 → drained (ks1 ++ ks2) s s2.
Proof.
  unfold drained.
  intros (Hq & Hr & Hc & Hl & Hm & Ht & Hs & Hn & Htr & Hv & _)
         (Hq' & Hr' & Hc' & Hl' & Hm' & Ht' & Hs' & Hn' & Htr' & Hv' & Hb).
  rewrite length_app, fmap_app, feed_app, <- app_assoc.
  split; [lia |]. split; [lia |]. split; [by rewrite Hc, Hc' |].
  split; [by rewrite Hl', Hl |]. split; [by rewrite Hm', Hm |].
  split; [by rewrite Ht', Ht |]. split; [by rewrite Hs', Hs |].
  split; [by rewrite Hn', Hn |]. split; [by rewrite Htr', Htr, app_assoc |].
  split; [by rewrite Hv', Hv | done].
Qed.

(** One round of the drain loop sends the first key of the queue. *)
Lemma drain_step_ok s :
  0 < qlen s ≤ LENGTH (queue s) → bufs_ok s →
  ∃ s' k, drain_step s = Ok s' ∧ drained [k] s s'.
Proof.
  intros Hq Hb. unfold drain_step.
  cbn [queue qlen set_qlen set_resolved].
  destruct (rd_lt (queue s) 0) as (k & -> & Hk); [lia |]. rewrite bind_Ok_l.
  rewrite shift_queue_delete_keys.
  destruct (delete_keys_spec (Z.to_nat (qlen s - 1)) (queue s) 0 (0 + 1))
    as (q & -> & Hl & Hq'); [lia | lia |].
  rewrite bind_Ok_l.
  cbn [vb set_queue set_qlen set_resolved].
  destruct (mode_handle_key (uint_of_char k) _) as [r v'] eqn:Hkey.
  set (s1 := set_vb v' _).
  assert (Hd : drained [k] s s1).
  { unfold drained, s1. unfold_state. simpl.
    rewrite Hkey. repeat split; try done; try lia; try apply Hb.
    unfold content. unfold_state.
    change (k :: take (Z.to_nat (qlen s - 1)) q)
      with ([k] ++ take (Z.to_nat (qlen s - 1)) q).
    apply list_eq. intros i. unfold LENGTH in *.
    destruct i as [|i]; simpl.
    - rewrite lookup_take_lt by lia. done.
    - rewrite !lookup_take. rewrite Hq'.
      repeat case_decide; try lia; [| done].
      rewrite bool_decide_eq_true_2 by lia. f_equal. lia. }
  case_bool_decide as Hr; [| by exists s1, k].
  destruct (showcmd_ok [] 0 false s1) as (buf & sl & -> & Hbl & Hsl);
    [apply Hd | simpl; lia |].
  eexists _, k. split; [done |].
  unfold drained in *. unfold_state. unfold content in *. unfold_state.
  unfold bufs_ok. simpl. tauto.
Qed.

(** The drain loop sends the first [n] keys of the queue. *)
Lemma drain_ok (n : nat) s :
  Z.of_nat n ≤ qlen s ≤ LENGTH (queue s) → bufs_ok s →
  ∃ s' ks, drain n s = Ok s' ∧ length ks = n ∧ drained ks s s'.
Proof.
  revert s. induction n as [|n IH]; intros s Hq Hb; simpl.
  - exists s, []. split; [done |]. split; [done |]. by apply drained_nil.
  - destruct (drain_step_ok s) as (s1 & k & -> & Hd); [lia | done |].
    rewrite bind_Ok_l.
    destruct (IH s1) as (s' & ks & -> & Hlen & Hd').
    + destruct Hd as (Hq1 & _ & _ & Hl1 & _). unfold LENGTH in *.
      rewrite Hq1, Hl1. simpl length. lia.
    + apply Hd.
    + exists s', (k :: ks). split; [done |]. split; [simpl; lia |].
      by apply (drained_app [k] ks s s1 s').
Qed.

(** What the drain loop does to the counters, whether or not it stays within
    the queue. *)
Lemma drain_step_inv s s' :
  drain_step s = Ok s' →
  resolved s' = resolved s - 1 ∧ qlen s' = qlen s - 1 ∧ mlist s' = mlist s
  ∧ ∃ k, trace s' = trace s ++ [EvKey k].
Proof.
  unfold drain_step. intros H. inv_ok H. inv_ok H.
  destruct (mode_handle_key _ _) as [r v'].
  case_bool_decide.
  - apply showcmd_inv in H as (buf & sl & ->). unfold_state.
    repeat split; try done. by eexists.
  - injection H as <-. unfold_state. repeat split; try done. by eexists.
Qed.

Lemma drain_inv (n : nat) s s' :
  drain n s = Ok s' →
  resolved s' = resolved s - Z.of_nat n ∧ qlen s' = qlen s - Z.of_nat n
  ∧ mlist s' = mlist s
  ∧ ∃ ks, trace s' = trace s ++ (EvKey <$> ks).
Proof.
  revert s. induction n as [|n IH]; intros s H; simpl in H.
  - injection H as <-. repeat split; try lia. exists []. simpl. by rewrite app_nil_r.
  - inv_ok H. apply drain_step_inv in Ha as (Hr & Hq & Hm & k & Ht).
    apply IH in H as (Hr' & Hq' & Hm' & ks & Ht').
    repeat split; try lia; try congruence.
    exists (k :: ks). rewrite Ht', Ht. simpl. by rewrite <- app_assoc.
Qed.

End Drain.

(** ** Finding matching maps *)

Section Lookup.
Context {U : Type} {E : Env U}.
Implicit Type s : state U.

Lemma same_but_display_refl s : same_but_display s s.
Proof. by repeat split. Qed.

Lemma same_but_display_trans s1 s2 s3 :
  same_but_display s1 s2 → same_but_display s2 s3 → same_but_display s1 s3.
Proof.
  unfold same_but_display. intros H1 H2. destruct_and!.
  repeat split; congruence.
Qed.

Lemma same_but_display_show (buf t : list ascii) (sl : Z) s :
  same_but_display s (set_statusbar_cmd t (set_showbuf buf sl s)).
Proof. by repeat split. Qed.

Lemma full_match_display s s' (m : Map) :
  same_but_display s s' → full_match s' m ↔ full_match s m.
Proof.
  intros (_ & Hq & Hl & _ & _ & Hv & _). unfold full_match, content.
  by rewrite Hq, Hl, Hv.
Qed.

Lemma ambiguous_match_display s s' (m : Map) :
  same_but_display s s' → ambiguous_match s' m ↔ ambiguous_match s m.
Proof.
  intros (_ & Hq & Hl & _ & _ & Hv & _). unfold ambiguous_match, content.
  by rewrite Hq, Hl, Hv.
Qed.

Lemma count_ambiguous_display s s' (l : list Map) :
  same_but_display s s' → count_ambiguous s' l = count_ambiguous s l.
Proof.
  intros Hd. induction l as [|m l IH]; simpl; [done |].
  rewrite IH. f_equal.
  by rewrite (bool_decide_ext _ _ (ambiguous_match_display s s' m Hd)).
Qed.

Lemma lookup_inv (l : list Map) (timeout : bool) (acc : option Map) (a : Z) s
    s' (acc' : option Map) (a' : Z) :
  lookup l timeout acc a s = Ok (s', acc', a') → same_but_display s s'.
Proof.
  revert acc a s. induction l as [|m l IH]; intros acc a s H; simpl in H.
  - injection H as <- _ _. apply same_but_display_refl.
  - case_bool_decide; [by eapply IH |].
    inv_ok H. destruct a0 as [s1 a1]. inv_ok H.
    apply IH in H. eapply same_but_display_trans; [| done].
    case_if Ha.
    + inv_ok Ha. case_if Ha.
      * inv_ok Ha. injection Ha as <- _.
        apply showcmd_inv in Ha2 as (buf & sl & ->). apply same_but_display_show.
      * injection Ha as <- _. apply same_but_display_refl.
    + injection Ha as <- _. apply same_but_display_refl.
Qed.

(** The test for a complete match is [full_match]. *)
Lemma full_test_ok s (m : Map) (acc : option Map) :
  wf_Map m → 0 ≤ qlen s ≤ LENGTH (queue s) → mode m = mode_id (vb s) →
  ∃ b : bool,
    (if bool_decide (inlen m ≤ qlen s) then
       r ← strncmp (cstr (in_ m)) (queue s) (inlen m);
       if bool_decide (r = 0)
          && match acc with
             | None => true
             | Some m0 => bool_decide (inlen m0 < inlen m)
             end
       then Ok (Some m) else Ok acc
     else Ok acc)
    = Ok (if b then Some m else acc)
    ∧ (b ↔ full_match s m ∧ ∀ m0, acc = Some m0 → inlen m0 < inlen m).
Proof.
  intros (Hin & _ & Hnul & _) Hq Hmode. unfold LENGTH in Hq.
  case_bool_decide as Hle.
  - destruct (strncmp_spec (in_ m) (queue s) (inlen m)) as (r & -> & Hr);
      [lia | lia | done |].
    rewrite bind_Ok_l.
    assert (Hfull : r = 0 ↔ full_match s m).
    { rewrite Hr. unfold full_match, content. rewrite take_take.
      rewrite (take_ge (in_ m)) by lia.
      replace (Z.to_nat (inlen m) `min` Z.to_nat (qlen s))%nat
        with (Z.to_nat (inlen m)) by lia.
      tauto. }
    destruct (bool_decide (r = 0) && _) eqn:Hb.
    + exists true. split; [done |]. split; [intros _ | done].
      apply andb_true_iff in Hb. destruct Hb as [Hr0 Hacc].
      apply bool_decide_eq_true in Hr0. split; [by apply Hfull |].
      intros m0 ->. by apply bool_decide_eq_true in Hacc.
    + exists false. split; [done |]. split; [done |]. intros [Hf Hacc].
      apply andb_false_iff in Hb. destruct Hb as [Hr0 | Hacc'].
      * apply bool_decide_eq_false in Hr0. by apply Hr0, Hfull.
      * destruct acc as [m0|]; [| done].
        apply bool_decide_eq_false in Hacc'. specialize (Hacc m0 eq_refl). lia.
  - exists false. split; [done |]. split; [done |].
    intros [(_ & Hle' & _) _]. lia.
Qed.

(** The test for an ambiguous match is [ambiguous_match]; it changes the
    display only. *)
Lemma ambiguous_test_ok s (m : Map) (timeout : bool) (a : Z) :
  wf_Map m → 0 ≤ qlen s ≤ LENGTH (queue s) → bufs_ok s →
  mode m = mode_id (vb s) →
  ∃ s1,
    (if negb timeout && bool_decide (qlen s < inlen m) then
       r ← strncmp (cstr (in_ m)) (queue s) (qlen s);
       if bool_decide (r = 0) then
         s1 ← showcmd (queue s) (qlen s) false s;
         Ok (s1, a + 1)
       else Ok (s, a)
     else Ok (s, a))
    = Ok (s1, a + if negb timeout && bool_decide (ambiguous_match s m) then 1 else 0)
    ∧ same_but_display s s1 ∧ bufs_ok s1.
Proof.
  intros (Hin & _ & Hnul & _) Hq Hb Hmode. unfold LENGTH in Hq.
  destruct timeout; simpl;
    [exists s; rewrite Z.add_0_r; auto using same_but_display_refl |].
  case_bool_decide as Hlt.
  - destruct (strncmp_spec (in_ m) (queue s) (qlen s)) as (r & -> & Hr);
      [lia | lia | done |].
    rewrite bind_Ok_l.
    assert (Hamb : r = 0 ↔ ambiguous_match s m).
    { rewrite Hr. unfold ambiguous_match, content. tauto. }
    case_bool_decide as Hr0.
    + destruct (showcmd_ok (queue s) (qlen s) false s) as (buf & sl & -> & Hl & Hsl);
        [done | lia |].
      rewrite bind_Ok_l. eexists. split; [| split].
      * rewrite bool_decide_eq_true_2 by (by apply Hamb). done.
      * apply same_but_display_show.
      * done.
    + exists s. rewrite bool_decide_eq_false_2 by (by rewrite <- Hamb).
      rewrite Z.add_0_r. auto using same_but_display_refl.
  - exists s. rewrite bool_decide_eq_false_2 by (intros (_ & ? & _); lia).
    rewrite Z.add_0_r. auto using same_but_display_refl.
Qed.

Lemma selects_ext (P Q : Map → Prop) (l : list Map) (acc res : option Map) :
  (∀ m, P m ↔ Q m) → selects P l acc res → selects Q l acc res.
Proof.
  intros HPQ. unfold selects. destruct res as [m|].
  - intros [[-> Hall] | (l1 & l2 & -> & HP & Hacc & H1 & H2)].
    + left. split; [done |]. intros m' Hin HQ. apply Hall; [done | by apply HPQ].
    + right. exists l1, l2. split; [done |]. split; [by apply HPQ |].
      split; [done |]. split.
      * intros m' Hin HQ. apply H1; [done | by apply HPQ].
      * intros m' Hin HQ. apply H2; [done | by apply HPQ].
  - intros [-> Hall]. split; [done |]. intros m' Hin HQ.
    apply (Hall m' Hin). by apply HPQ.
Qed.

Lemma selects_cons_skip (P : Map → Prop) (m : Map) (l : list Map)
    (acc res : option Map) :
  (P m → ∃ m0, acc = Some m0 ∧ inlen m ≤ inlen m0) →
  selects P l acc res → selects P (m :: l) acc res.
Proof.
  intros Hm. unfold selects. destruct res as [m'|].
  - intros [[-> Hall] | (l1 & l2 & -> & HP & Hacc & H1 & H2)].
    + left. split; [done |]. intros m'' [-> | Hin]%elem_of_cons HP''; [| by apply Hall].
      destruct (Hm HP'') as (m0 & [= <-] & Hle). done.
    + right. exists (m :: l1), l2. split; [done |]. split; [done |].
      split; [done |]. split; [| done].
      intros m'' [-> | Hin]%elem_of_cons HP''; [| by apply H1].
      destruct (Hm HP'') as (m0 & -> & Hle). specialize (Hacc m0 eq_refl). lia.
  - intros [-> Hall]. split; [done |].
    intros m'' [-> | Hin]%elem_of_cons HP''; [| by eapply Hall].
    by destruct (Hm HP'') as (m0 & [=] & _).
Qed.

Lemma selects_cons_take (P : Map → Prop) (m : Map) (l : list Map)
    (acc res : option Map) :
  P m → (∀ m0, acc = Some m0 → inlen m0 < inlen m) →
  selects P l (Some m) res → selects P (m :: l) acc res.
Proof.
  intros HP Hacc. unfold selects. destruct res as [m'|]; [| by intros [[=] _]].
  intros [[[= <-] Hall] | (l1 & l2 & -> & HP' & Hacc' & H1 & H2)]; right.
  - exists [], l. split; [done |]. split; [done |]. split; [done |].
    split; [| done]. intros m'' Hin. by apply elem_of_nil in Hin.
  - specialize (Hacc' m eq_refl).
    exists (m :: l1), l2. split; [done |]. split; [done |].
    split; [intros m0 Hm0; specialize (Hacc m0 Hm0); lia |]. split; [| done].
    intros m'' [-> | Hin]%elem_of_cons HP''; [done | by apply H1].
Qed.

(** The loop over the maps returns: it leaves one of the complete matches
    with the longest lhs, the first of them in the list, and the number of
    ambiguous matches, and it changes the display only. *)
Lemma lookup_ok (l : list Map) (timeout : bool) (acc : option Map) (a : Z) s :
  Forall wf_Map l → 0 ≤ qlen s ≤ LENGTH (queue s) → bufs_ok s →
  ∃ s' res,
    lookup l timeout acc a s
    = Ok (s', res, a + if timeout then 0 else count_ambiguous s l)
    ∧ same_but_display s s' ∧ bufs_ok s'
    ∧ selects (full_match s) l acc res.
Proof.
  intros Hwf. revert acc a s.
  induction Hwf as [|m l Hm _ IH]; intros acc a s Hq Hb; simpl.
  - exists s, acc. split; [by destruct timeout; rewrite Z.add_0_r |].
    split; [apply same_but_display_refl |]. split; [done |].
    unfold selects. destruct acc as [m|].
    + left. split; [done |]. intros m' Hin. by apply elem_of_nil in Hin.
    + split; [done |]. intros m' Hin. by apply elem_of_nil in Hin.
  - case_bool_decide as Hmode.
    + destruct (IH acc a s) as (s' & res & -> & Hd & Hb' & Hsel); [done | done |].
      exists s', res. split; [| split; [done |]; split; [done |]].
      * rewrite (bool_decide_eq_false_2 (ambiguous_match s m))
          by (intros (? & _); congruence).
        by destruct timeout.
      * apply selects_cons_skip; [| done]. intros (? & _). congruence.
    + destruct (ambiguous_test_ok s m timeout a) as (s1 & -> & Hd1 & Hb1);
        [done | done | done | done |].
      rewrite bind_Ok_l.
      assert (Hq1 : 0 ≤ qlen s1 ≤ LENGTH (queue s1)).
      { destruct Hd1 as (_ & -> & -> & _). done. }
      assert (Hmode1 : mode m = mode_id (vb s1)).
      { destruct Hd1 as (_ & _ & _ & _ & _ & -> & _). done. }
      destruct (full_test_ok s1 m acc) as (b & -> & Hbiff); [done | done | done |].
      rewrite bind_Ok_l.
      destruct (IH (if b then Some m else acc)
                  (a + (if negb timeout && bool_decide (ambiguous_match s m)
                        then 1 else 0)) s1)
        as (s' & res & -> & Hd & Hb' & Hsel); [done | done |].
      exists s', res. split; [| split; [| split; [done |]]].
      * rewrite (count_ambiguous_display s s1) by done.
        destruct timeout; simpl; do 2 f_equal; lia.
      * by eapply same_but_display_trans.
      * assert (Hsel' : selects (full_match s) l (if b then Some m else acc) res).
        { eapply selects_ext; [| done]. intros m'. by apply full_match_display. }
        rewrite (full_match_display s s1) in Hbiff by done.
        destruct b.
        -- destruct Hbiff as [[HP Hacc] _]; [done |].
           by apply selects_cons_take.
        -- apply selects_cons_skip; [| done]. intros HP.
           destruct acc as [m0|].
           ++ exists m0. split; [done |].
              destruct (decide (inlen m ≤ inlen m0)) as [|Hn]; [done |].
              destruct Hbiff as [_ Hf].
              assert (Is_true false) as []. apply Hf. split; [done |].
              intros ? [= <-]. lia.
           ++ destruct Hbiff as [_ Hf].
              assert (Is_true false) as []. apply Hf. split; [done |]. by intros ? [=].
Qed.

End Lookup.

(** ** Replacing matched keys and resolving an unmapped key *)

Section Substitute.
Context {U : Type} {E : Env U}.
Implicit Type s : state U.

(** The loops that make space or delete keys move the keys behind the lhs
    to where they follow the mapped keys. *)
Lemma shift_tail_ok (m : Map) (q : list ascii) (n : Z) :
  0 ≤ inlen m ≤ n → 0 ≤ mappedlen m →
  n + Z.abs (mappedlen m - inlen m) ≤ LENGTH q →
  ∃ q1,
    (if bool_decide (inlen m < mappedlen m) then
       make_space (Z.to_nat (n - inlen m)) q (n + mappedlen m - inlen m) n
     else if bool_decide (inlen m > mappedlen m) then
       delete_keys (Z.to_nat (n - mappedlen m)) q (mappedlen m) (inlen m)
     else Ok q) = Ok q1
    ∧ length q1 = length q
    ∧ ∀ k : nat, mappedlen m ≤ Z.of_nat k < n + (mappedlen m - inlen m) →
        q1 !! k = q !! Z.to_nat (Z.of_nat k - (mappedlen m - inlen m)).
Proof.
  intros Hin Hmap Hroom. case_bool_decide as Hlt; [| case_bool_decide as Hgt].
  - destruct (make_space_spec (Z.to_nat (n - inlen m)) q (n + mappedlen m - inlen m) n)
      as (q1 & -> & Hl & Hk); [lia | lia |].
    exists q1. split; [done |]. split; [done |]. intros k Hr. rewrite Hk.
    rewrite bool_decide_eq_true_2 by lia. f_equal. lia.
  - destruct (delete_keys_spec (Z.to_nat (n - mappedlen m)) q (mappedlen m) (inlen m))
      as (q1 & -> & Hl & Hk); [lia | lia |].
    exists q1. split; [done |]. split; [done |]. intros k Hr. rewrite Hk.
    rewrite bool_decide_eq_true_2 by lia. f_equal. lia.
  - exists q. split; [done |]. split; [done |]. intros k Hr. f_equal. lia.
Qed.

(** Where the queue has room for the shift, the substitution puts the mapped
    keys in the place of the lhs at the front of the queue. *)
Lemma substitute_ok (m : Map) s :
  wf_Map m → inlen m ≤ qlen s →
  qlen s + Z.abs (mappedlen m - inlen m) ≤ LENGTH (queue s) →
  ∃ q',
    substitute m s
    = Ok (log (EvMapped m)
            (set_resolved (Z.min (inlen m) (mappedlen m))
               (set_qlen (qlen s + (mappedlen m - inlen m)) (set_queue q' s))))
    ∧ length q' = length (queue s)
    ∧ take (Z.to_nat (qlen s + (mappedlen m - inlen m))) q'
      = mapped m ++ drop (Z.to_nat (inlen m)) (content s).
Proof.
  intros (Hin & Hmap & _ & Hnul) Hle Hroom. unfold substitute.
  destruct (shift_tail_ok m (queue s) (qlen s)) as (q1 & -> & Hl1 & Hk1);
    [lia | lia | done |].
  rewrite bind_Ok_l. unfold strncpy, cstr.
  replace (Z.to_nat (mappedlen m)) with (length (mapped m)) by lia.
  destruct (strncpy_at_spec (mapped m) [NUL] q1 0) as (q' & -> & Hl' & Hk');
    [done | done | unfold LENGTH in *; lia |].
  rewrite bind_Ok_l. exists q'. split; [| split; [congruence |]].
  - destruct (decide (inlen m ≤ mappedlen m));
      [rewrite (bool_decide_eq_true_2 (inlen m ≤ mappedlen m)) by done
      |rewrite (bool_decide_eq_false_2 (inlen m ≤ mappedlen m)) by done]; state_eq.
  - apply list_eq. intros k. unfold content, LENGTH in *.
    rewrite lookup_take, Hk'.
    destruct (decide (k < length (mapped m))%nat) as [Hlt | Hge].
    + rewrite decide_True by lia.
      rewrite bool_decide_eq_true_2 by lia. rewrite lookup_app_l by done.
      f_equal. lia.
    + rewrite bool_decide_eq_false_2 by lia. rewrite lookup_app_r by lia.
      rewrite lookup_drop, lookup_take.
      case_decide as Hk.
      * rewrite decide_True by lia. rewrite Hk1 by lia. f_equal. lia.
      * rewrite decide_False by lia. done.
Qed.

Lemma substitute_inv (m : Map) s s' :
  substitute m s = Ok s' →
  ∃ q', s' = log (EvMapped m)
               (set_resolved (Z.min (inlen m) (mappedlen m))
                  (set_qlen (qlen s + (mappedlen m - inlen m)) (set_queue q' s))).
Proof.
  unfold substitute. intros H. inv_ok H. inv_ok H. injection H as <-.
  exists a0.
  destruct (decide (inlen m ≤ mappedlen m));
    [rewrite (bool_decide_eq_true_2 (inlen m ≤ mappedlen m)) by done
    |rewrite (bool_decide_eq_false_2 (inlen m ≤ mappedlen m)) by done]; state_eq.
Qed.

(** Where the queue has no room for the mapped keys, the substitution writes
    behind the end of the queue. *)
Lemma substitute_overflow (m : Map) s :
  wf_Map m → inlen m ≤ qlen s ≤ LENGTH (queue s) →
  LENGTH (queue s) < qlen s + (mappedlen m - inlen m) →
  substitute m s = Undef.
Proof.
  intros (Hin & Hmap & _ & Hnul) Hle Hroom. unfold substitute.
  rewrite (bool_decide_eq_true_2 (inlen m < mappedlen m)) by lia.
  destruct (Z.to_nat (qlen s - inlen m)) as [|n] eqn:Hn; cbn [make_space].
  - rewrite bind_Ok_l. unfold strncpy, cstr.
    replace (Z.to_nat (mappedlen m)) with (length (mapped m)) by lia.
    rewrite strncpy_at_overflow; [done | done | lia | lia].
  - destruct (rd_lt (queue s) (qlen s - 1)) as (c & -> & _); [lia |].
    rewrite bind_Ok_l. by rewrite wr_ge by lia.
Qed.

(** An unmapped key is resolved as it is and shown. *)
Lemma literal_ok s :
  0 < qlen s ≤ LENGTH (queue s) → bufs_ok s →
  ∃ buf sl k, queue s !! 0%nat = Some k
    ∧ literal s = Ok (set_statusbar_cmd (c_string buf)
                       (set_showbuf buf sl (log (EvLiteral k) (set_resolved 1 s))))
    ∧ length buf = 12%nat ∧ 0 ≤ sl < 12.
Proof.
  intros Hq Hb. unfold literal.
  destruct (lookup_lt_is_Some_2 (queue s) 0) as [k Hk]; [unfold LENGTH in Hq; lia |].
  cbn [queue resolved set_resolved]. rewrite Hk. cbn [default].
  destruct (showcmd_ok (queue s) 1 true (log (EvLiteral k) (set_resolved 1 s)))
    as (buf & sl & Hshow & Hl & Hsl); [done | unfold LENGTH in Hq; lia |].
  exists buf, sl, k. split; [done |]. split; [| done].
  rewrite <- Hshow. reflexivity.
Qed.

Lemma literal_inv s s' :
  literal s = Ok s' →
  ∃ buf sl k, s' = set_statusbar_cmd (c_string buf)
                     (set_showbuf buf sl (log (EvLiteral k) (set_resolved 1 s))).
Proof.
  unfold literal. intros H. apply showcmd_inv in H as (buf & sl & ->).
  by eexists _, _, _.
Qed.

End Substitute.

(** ** The loop of [map_handle_keys] *)

Section Resolve.
Context {U : Type} {E : Env U}.
Implicit Type s : state U.

Lemma lookup_res_in (l : list Map) (timeout : bool) (acc : option Map) (a : Z) s
    s' (res : option Map) (a' : Z) :
  lookup l timeout acc a s = Ok (s', res, a') →
  res = acc ∨ ∃ m, res = Some m ∧ m ∈ l.
Proof.
  revert acc a s. induction l as [|m l IH]; intros acc a s H; simpl in H.
  - injection H as _ <- _. by left.
  - case_if H.
    + apply IH in H as [-> | (m' & -> & Hin)]; [by left |].
      right. exists m'. split; [done | by apply elem_of_cons; right].
    + inv_ok H. destruct a0 as [s1 a1]. inv_ok H.
      apply IH in H as [-> | (m' & -> & Hin)].
      * case_if Ha0; [| injection Ha0 as <-; by left].
        inv_ok Ha0. case_if Ha0; injection Ha0 as <-; [| by left].
        right. exists m. split; [done | by apply elem_of_cons; left].
      * right. exists m'. split; [done | by apply elem_of_cons; right].
Qed.

Lemma lookup_round_inv (timeout : bool) s s' (res : option Map) (a : Z) :
  lookup_round timeout s = Ok (s', res, a) →
  same_but_display s s' ∧ ∀ m, res = Some m → m ∈ mlist s.
Proof.
  unfold lookup_round. intros H. case_if H.
  - split; [by eapply lookup_inv |]. intros m ->.
    apply lookup_res_in in H as [[=] | (m' & [= <-] & Hin)]. done.
  - injection H as <- <- _. split; [apply same_but_display_refl | by intros m [=]].
Qed.

Lemma resolve_unfold (fuel : nat) (timeout : bool) (acc : option Map) s :
  resolve (S fuel) timeout acc s
  = (s1 ← drain (Z.to_nat (resolved s)) s;
     if bool_decide (qlen s1 = 0) then
       Ok (match acc with Some _ => MAP_DONE | None => MAP_NOMATCH end,
           set_resolved 0 s1)
     else
       '(s2, res, ambiguous) ← lookup_round timeout s1;
       if bool_decide (ambiguous ≠ 0) then Ok (MAP_AMBIGUOUS, s2)
       else
         match res with
         | Some m => s3 ← substitute m s2; resolve fuel timeout res s3
         | None => s3 ← literal s2; resolve fuel timeout res s3
         end).
Proof. reflexivity. Qed.

(** Whenever the loop returns [MAP_AMBIGUOUS], no resolved key is left in
    the queue. *)
Lemma resolve_ambiguous (fuel : nat) (timeout : bool) (acc : option Map) s s' :
  Forall wf_Map (mlist s) → 0 ≤ resolved s →
  resolve fuel timeout acc s = Ok (MAP_AMBIGUOUS, s') → resolved s' = 0.
Proof.
  revert acc s. induction fuel as [|fuel IH]; intros acc s Hwf Hres H; [done |].
  rewrite resolve_unfold in H. inv_ok H.
  apply drain_inv in Ha as (Hr1 & _ & Hm1 & _).
  case_if H; [by destruct acc |].
  inv_ok H. destruct a0 as [[s2 res] amb].
  apply lookup_round_inv in Ha as [(Hm2 & _ & _ & Hr2 & _) Hin].
  case_if H.
  - injection H as <-. lia.
  - destruct res as [m|]; inv_ok H.
    + apply substitute_inv in Ha as (q' & ->).
      apply IH in H; [done | unfold_state; congruence |]. unfold_state.
      assert (Hm : wf_Map m).
      { rewrite Forall_forall in Hwf. apply Hwf. rewrite <- Hm1. by apply Hin. }
      destruct Hm as (? & ? & _). lia.
    + apply literal_inv in Ha as (buf & sl & k & ->).
      apply IH in H; [done | unfold_state; congruence | unfold_state; lia].
Qed.

Lemma last_mapped_keys (d : bool) (ks : list ascii) (evs : list event) :
  last_mapped d ((EvKey <$> ks) ++ evs) = last_mapped d evs.
Proof. induction ks as [|k ks IH]; simpl; [done | apply IH]. Qed.

(** A call that empties the queue returns [MAP_DONE] where the last
    resolution was a substitution and [MAP_NOMATCH] where it was a literal
    key; where the loop resolved nothing, the local [match] decides. *)
Lemma resolve_status (fuel : nat) (timeout : bool) (acc : option Map) s
    (r : MapState) s' :
  resolve fuel timeout acc s = Ok (r, s') → r ≠ MAP_AMBIGUOUS →
  ∃ evs, trace s' = trace s ++ evs
    ∧ r = if last_mapped (bool_decide (is_Some acc)) evs then MAP_DONE else MAP_NOMATCH.
Proof.
  revert acc s. induction fuel as [|fuel IH]; intros acc s H Hr; [done |].
  rewrite resolve_unfold in H. inv_ok H.
  apply drain_inv in Ha as (_ & _ & _ & ks & Ht1).
  case_if H.
  - injection H as <- <-. exists (EvKey <$> ks). split; [done |].
    rewrite <- (app_nil_r (EvKey <$> ks)), last_mapped_keys.
    by destruct acc.
  - inv_ok H. destruct a0 as [[s2 res] amb].
    apply lookup_round_inv in Ha as [(_ & _ & _ & _ & _ & _ & _ & _ & Ht2) _].
    case_if H; [injection H as <- _; done |].
    destruct res as [m|]; inv_ok H.
    + apply substitute_inv in Ha as (q' & ->).
      apply IH in H as (evs & Ht & ->); [| done]. unfold_state.
      exists ((EvKey <$> ks) ++ EvMapped m :: evs). split.
      * rewrite Ht, Ht2, Ht1. by rewrite <- !app_assoc.
      * by rewrite last_mapped_keys.
    + apply literal_inv in Ha as (buf & sl & k & ->).
      apply IH in H as (evs & Ht & ->); [| done]. unfold_state.
      exists ((EvKey <$> ks) ++ EvLiteral k :: evs). split.
      * rewrite Ht, Ht2, Ht1. by rewrite <- !app_assoc.
      * by rewrite last_mapped_keys.
Qed.

Lemma map_handle_keys_unfold (fuel : nat) (keys : list ascii) (keylen : Z) s :
  map_handle_keys fuel keys keylen s
  = (s1 ← enqueue keys keylen (arm_timeout keylen s);
     resolve fuel (bool_decide (keylen = 0)) None s1).
Proof. reflexivity. Qed.

Lemma arm_timeout_fields (keylen : Z) s :
  mlist (arm_timeout keylen s) = mlist s ∧ queue (arm_timeout keylen s) = queue s
  ∧ qlen (arm_timeout keylen s) = qlen s
  ∧ resolved (arm_timeout keylen s) = resolved s
  ∧ showbuf (arm_timeout keylen s) = showbuf s ∧ slen (arm_timeout keylen s) = slen s
  ∧ vb (arm_timeout keylen s) = vb s ∧ trace (arm_timeout keylen s) = trace s.
Proof.
  unfold arm_timeout. case_bool_decide; [done |].
  case_bool_decide; unfold_state; done.
Qed.

End Resolve.

(** ** The rounds of the loop *)

Section Termination.
Context {U : Type} {E : Env U}.
Implicit Type s : state U.

Lemma wf_state_display s s' :
  same_but_display s s' → bufs_ok s' → wf_state s → wf_state s'.
Proof.
  intros (Hm & Hq & Hl & Hr & _) Hb (Hinv & _ & Hwf). unfold wf_state, queue_inv.
  rewrite Hm, Hq, Hl, Hr. done.
Qed.

(** The lookup of one round returns; it counts the ambiguous matches unless
    the call handles a timeout, and finds the longest complete match. *)
Lemma lookup_round_ok (timeout : bool) s :
  wf_state s →
  ∃ s2 res,
    lookup_round timeout s
    = Ok (s2, res, if bool_decide (nomap s) || timeout then 0
                   else count_ambiguous s (mlist s))
    ∧ same_but_display s s2 ∧ bufs_ok s2
    ∧ match res with
      | Some m => ¬ nomap s ∧ selects (full_match s) (mlist s) None (Some m)
      | None => nomap s ∨ ∀ m, m ∈ mlist s → ¬ full_match s m
      end.
Proof.
  intros ((Hr & Hq) & Hb & Hwf). unfold lookup_round, nomap.
  case_bool_decide as Hflag.
  - destruct (lookup_ok (mlist s) timeout None 0 s) as (s2 & res & -> & Hd & Hb2 & Hsel);
      [done | lia | done |].
    exists s2, res. rewrite (bool_decide_eq_false_2 (_ ≠ 0)) by (intros H; by apply H).
    split; [by destruct timeout |]. split; [done |]. split; [done |].
    destruct res as [m|].
    + split; [intros H; by apply H | done].
    + right. apply Hsel.
  - exists s, None. rewrite (bool_decide_eq_true_2 (_ ≠ 0)) by done.
    split; [done |]. split; [apply same_but_display_refl |]. split; [done |]. by left.
Qed.

(** More rounds than the loop makes change nothing. *)
Lemma resolve_mono (fuel fuel' : nat) (timeout : bool) (acc : option Map) s :
  (fuel ≤ fuel')%nat → resolve fuel timeout acc s ≠ OutOfFuel →
  resolve fuel' timeout acc s = resolve fuel timeout acc s.
Proof.
  revert fuel' acc s. induction fuel as [|fuel IH]; intros fuel' acc s Hle Hne;
    [done |].
  destruct fuel' as [|fuel']; [lia |].
  rewrite !resolve_unfold in *.
  destruct (drain _ s) as [s1| |]; [| done | done]. rewrite !bind_Ok_l in *.
  case_bool_decide; [done |].
  destruct (lookup_round timeout s1) as [[[s2 res] amb]| |]; [| done | done].
  rewrite !bind_Ok_l in *. case_bool_decide; [done |].
  destruct res as [m|].
  - destruct (substitute m s2) as [s3| |]; [| done | done].
    rewrite !bind_Ok_l in *. apply IH; [lia | done].
  - destruct (literal s2) as [s3| |]; [| done | done].
    rewrite !bind_Ok_l in *. apply IH; [lia | done].
Qed.

End Termination.

(** ** The loop follows the protocol on the keys in the queue *)

Section Refinement.
Context {U : Type} {E : Env U}.
Implicit Type s : state U.

Lemma content_length s :
  0 ≤ qlen s ≤ LENGTH (queue s) → length (content s) = Z.to_nat (qlen s).
Proof. unfold content, LENGTH. intros H. rewrite length_take. lia. Qed.

Lemma full_match_is_full s (m : Map) :
  0 ≤ qlen s ≤ LENGTH (queue s) →
  full_match s m ↔ is_full (mode_id (vb s)) (content s) m = true.
Proof.
  intros Hq. unfold full_match, is_full. rewrite content_length by done.
  rewrite !andb_true_iff, !bool_decide_eq_true.
  split; [intros (? & ? & ?) | intros ((? & ?) & ?)]; repeat split; try done; lia.
Qed.

Lemma ambiguous_match_is_ambiguous s (m : Map) :
  0 ≤ qlen s ≤ LENGTH (queue s) →
  ambiguous_match s m ↔ is_ambiguous (mode_id (vb s)) (content s) m = true.
Proof.
  intros Hq. unfold ambiguous_match, is_ambiguous. rewrite content_length by done.
  rewrite !andb_true_iff, !bool_decide_eq_true.
  split; [intros (? & ? & ?) | intros ((? & ?) & ?)]; repeat split; try done; lia.
Qed.

Lemma count_ambiguous_count s (l : list Map) :
  0 ≤ qlen s ≤ LENGTH (queue s) →
  count_ambiguous s l = ambiguous_count (mode_id (vb s)) (content s) l.
Proof.
  intros Hq. induction l as [|m l IH]; simpl; [done |]. rewrite IH. f_equal.
  destruct (is_ambiguous _ _ m) eqn:Ha.
  - rewrite bool_decide_eq_true_2; [done |]. by apply ambiguous_match_is_ambiguous.
  - rewrite bool_decide_eq_false_2; [done |].
    rewrite ambiguous_match_is_ambiguous by done. by rewrite Ha.
Qed.

(** The map the loop over the maps selects is the best match. *)
Lemma selects_best_match (P : Map → Prop) (id : ascii) (c : list ascii)
    (l : list Map) (acc res : option Map) :
  (∀ m, P m ↔ is_full id c m = true) →
  selects P l acc res → res = best_match id c l acc.
Proof.
  intros HP. revert acc. induction l as [|m0 l IH]; intros acc Hsel; simpl.
  - unfold selects in Hsel. destruct res as [m|]; [| by destruct Hsel].
    destruct Hsel as [[-> _] | (l1 & l2 & Hl & _)]; [done |].
    by destruct l1.
  - apply IH. unfold selects in *. destruct res as [m|].
    + destruct Hsel as [[-> Hall] | (l1 & l2 & Hl & Hm & Hacc & H1 & H2)].
      * left. split; [| intros m' Hin; apply Hall; by apply elem_of_cons; right].
        destruct (is_full id c m0) eqn:Hf; [| done]. simpl.
        rewrite bool_decide_eq_false_2; [done |].
        assert (inlen m0 ≤ inlen m); [| lia].
        apply Hall; [by apply elem_of_cons; left | by apply HP].
      * destruct l1 as [|m1 l1]; simpl in Hl; injection Hl as -> ->.
        -- left. split; [| done].
           apply HP in Hm. rewrite Hm. simpl.
           destruct acc as [a|]; [| done].
           by rewrite bool_decide_eq_true_2 by (by apply Hacc).
        -- right. exists l1, l2. split; [done |]. split; [done |].
           split; [| split; [| done]].
           ++ intros a Ha.
              destruct (is_full id c m1 && _) eqn:Hb; [| by apply Hacc].
              injection Ha as <-. apply H1; [by apply elem_of_cons; left |].
              apply HP. by apply andb_true_iff in Hb as [? _].
           ++ intros m' Hin. apply H1. by apply elem_of_cons; right.
    + destruct Hsel as [-> Hall]. split.
      * destruct (is_full id c m0) eqn:Hf; [| done].
        exfalso. apply (Hall m0); [by apply elem_of_cons; left | by apply HP].
      * intros m' Hin. apply Hall. by apply elem_of_cons; right.
Qed.

Lemma best_match_in (id : ascii) (c : list ascii) (l : list Map)
    (acc : option Map) (m : Map) :
  best_match id c l acc = Some m →
  acc = Some m ∨ (m ∈ l ∧ is_full id c m = true).
Proof.
  revert acc. induction l as [|m0 l IH]; intros acc H; simpl in H; [by left |].
  apply IH in H as [H | [Hin Hf]].
  - destruct (is_full id c m0 && _) eqn:Hb; [| by left].
    injection H as <-. right. split; [by apply elem_of_cons; left |].
    by apply andb_true_iff in Hb as [? _].
  - right. split; [by apply elem_of_cons; right | done].
Qed.

Lemma handle_loop_unfold (fuel : nat) (l : list Map) (cap : Z) (timeout : bool)
    (acc : option Map) (a : astate U) :
  handle_loop (S fuel) l cap timeout acc a
  = let ks := take (Z.to_nat (a_resolved a)) (a_queue a) in
    let q := drop (Z.to_nat (a_resolved a)) (a_queue a) in
    let v := feed ks (a_vb a) in
    let tr := a_trace a ++ (EvKey <$> ks) in
    if bool_decide (q = []) then
      AReturn (match acc with Some _ => MAP_DONE | None => MAP_NOMATCH end)
        (Build_astate q 0 v tr)
    else
      let '(best, ambiguous) :=
        if bool_decide (Z.land (mode_flags v) FLAG_NOMAP = 0)
        then lookup_candidates l q (mode_id v) timeout else (None, 0) in
      if bool_decide (ambiguous ≠ 0) then
        AReturn MAP_AMBIGUOUS (Build_astate q 0 v tr)
      else
        match best with
        | Some m =>
            if bool_decide (Z.of_nat (length q) + Z.abs (mappedlen m - inlen m) ≤ cap)
            then
              handle_loop fuel l cap timeout best
                (Build_astate (mapped m ++ drop (Z.to_nat (inlen m)) q)
                   (Z.min (inlen m) (mappedlen m)) v (tr ++ [EvMapped m]))
            else ANoRoom
        | None =>
            handle_loop fuel l cap timeout best
              (Build_astate q 1 v (tr ++ [EvLiteral (default NUL (head q))]))
        end.
Proof. reflexivity. Qed.

(** The lookup of one round finds what [lookup_candidates] tells. *)
Lemma lookup_round_candidates (timeout : bool) s :
  wf_state s →
  ∃ s2, lookup_round timeout s
        = Ok (s2,
              (if bool_decide (Z.land (mode_flags (vb s)) FLAG_NOMAP = 0)
               then lookup_candidates (mlist s) (content s) (mode_id (vb s)) timeout
               else (None, 0)).1,
              (if bool_decide (Z.land (mode_flags (vb s)) FLAG_NOMAP = 0)
               then lookup_candidates (mlist s) (content s) (mode_id (vb s)) timeout
               else (None, 0)).2)
    ∧ same_but_display s s2 ∧ bufs_ok s2.
Proof.
  intros Hwf. pose proof Hwf as ((Hr & Hq) & _).
  destruct (lookup_round_ok timeout s) as (s2 & res & Hl & Hd & Hb & Hres); [done |].
  exists s2. split; [| done]. rewrite Hl. unfold nomap in *.
  destruct (decide (Z.land (mode_flags (vb s)) FLAG_NOMAP = 0)) as [Hflag | Hflag].
  - rewrite (bool_decide_eq_false_2 (_ ≠ 0)) by (intros H; by apply H).
    rewrite !(bool_decide_eq_true_2 (_ = 0)) by done.
    unfold lookup_candidates. cbn [fst snd orb].
    rewrite count_ambiguous_count by lia.
    assert (res = best_match (mode_id (vb s)) (content s) (mlist s) None) as <-; [| done].
    destruct res as [m|].
    + destruct Hres as [_ Hsel].
      eapply selects_best_match; [| done]. intros m'. apply full_match_is_full. lia.
    + destruct Hres as [? | Hno]; [done |].
      destruct (best_match _ _ _ None) as [m|] eqn:Hbest; [| done].
      apply best_match_in in Hbest as [[=] | [Hin Hf]].
      exfalso. apply (Hno m Hin). apply full_match_is_full; [lia | done].
  - rewrite (bool_decide_eq_true_2 (_ ≠ 0)) by done.
    rewrite !(bool_decide_eq_false_2 (_ = 0)) by done. cbn [fst snd orb].
    destruct res as [m|]; [| done]. by destruct Hres as [? _].
Qed.

(** What the protocol returns, the loop returns, and it keeps the state
    well formed and the table, the size of the queue and the timeout
    sources as they are. *)
Lemma resolve_refines (fuel : nat) (timeout : bool) (acc : option Map) s
    (r : MapState) (a' : astate U) :
  wf_state s →
  handle_loop fuel (mlist s) (LENGTH (queue s)) timeout acc (abs s) = AReturn r a' →
  ∃ s', resolve fuel timeout acc s = Ok (r, s') ∧ abs s' = a' ∧ wf_state s'
    ∧ mlist s' = mlist s ∧ length (queue s') = length (queue s)
    ∧ timout_id s' = timout_id s ∧ sources s' = sources s
    ∧ next_source s' = next_source s.
Proof.
  revert acc s. induction fuel as [|fuel IH]; intros acc s Hwf H; [done |].
  rewrite handle_loop_unfold in H. rewrite resolve_unfold.
  pose proof Hwf as ((Hr & Hq) & Hb & Hmaps).
  destruct (drain_ok (Z.to_nat (resolved s)) s) as (s1 & ks & -> & Hks & Hd);
    [lia | done |].
  rewrite bind_Ok_l.
  destruct Hd as (Hq1 & Hr1 & Hc1 & Hl1 & Hm1 & Ht1 & Hs1 & Hn1 & Htr1 & Hv1 & Hb1).
  assert (Hwf1 : wf_state s1).
  { unfold wf_state, queue_inv, LENGTH in *. rewrite Hm1, Hl1. split; [lia | done]. }
  cbn [abs a_queue a_resolved a_vb a_trace] in H.
  assert (Htake : take (Z.to_nat (resolved s)) (content s) = ks).
  { rewrite Hc1, <- Hks. apply take_app_length. }
  assert (Hdrop : drop (Z.to_nat (resolved s)) (content s) = content s1).
  { rewrite Hc1, <- Hks. apply drop_app_length. }
  cbv zeta in H. rewrite Htake, Hdrop, <- Hv1, <- Htr1 in H.
  assert (Hlen1 : length (content s1) = Z.to_nat (qlen s1)).
  { apply content_length. unfold LENGTH in *. lia. }
  destruct (decide (qlen s1 = 0)) as [Hq0 | Hq0].
  { rewrite bool_decide_eq_true_2 by done.
    assert (Hnil : content s1 = []).
    { apply length_zero_iff_nil. lia. }
    rewrite bool_decide_eq_true_2 in H by done. injection H as <- <-.
    eexists. split; [done |]. unfold abs, content, wf_state, queue_inv, bufs_ok in *.
    unfold_state. rewrite Hq0 in *. simpl.
    split; [done |]. split; [split; [lia | tauto] |]. tauto. }
  rewrite bool_decide_eq_false_2 by done.
  rewrite bool_decide_eq_false_2 in H
    by (intros Hnil; rewrite Hnil in Hlen1; simpl in Hlen1; unfold LENGTH in *; lia).
  destruct (lookup_round_candidates timeout s1) as (s2 & -> & Hd2 & Hb2); [done |].
  rewrite bind_Ok_l. rewrite <- Hm1 in H.
  destruct (if bool_decide (Z.land (mode_flags (vb s1)) FLAG_NOMAP = 0)
            then lookup_candidates (mlist s1) (content s1) (mode_id (vb s1)) timeout
            else (None, 0)) as [best amb] eqn:Hcand.
  cbn [fst snd].
  assert (Hwf2 : wf_state s2) by (by eapply wf_state_display).
  pose proof Hd2 as (Hm2 & Hqu2 & Hql2 & Hr2 & Ht2 & Hv2 & Hs2 & Hn2 & Htr2).
  assert (Hc2 : content s2 = content s1) by (unfold content; by rewrite Hqu2, Hql2).
  destruct (bool_decide (amb ≠ 0)).
  { injection H as <- <-. exists s2. split; [done |].
    split; [unfold abs; by rewrite Hc2, Hr2, Hv2, Htr2, Hr1, Hks, Z2Nat.id by lia;
            f_equal; lia |].
    split; [done |]. rewrite Hm2, Hqu2, Ht2, Hs2, Hn2. tauto. }
  destruct best as [m|].
  - case_bool_decide as Hroom; [| done].
    assert (Hbest : best_match (mode_id (vb s1)) (content s1) (mlist s1) None = Some m).
    { case_bool_decide; [| done]. unfold lookup_candidates in Hcand. congruence. }
    apply best_match_in in Hbest as [[=] | [Hin Hfull]].
    assert (Hm : wf_Map m).
    { rewrite Forall_forall in Hmaps. apply Hmaps. by rewrite <- Hm1. }
    apply full_match_is_full in Hfull as (_ & Hle & _); [| unfold LENGTH in *; lia].
    rewrite Hlen1 in Hroom.
    destruct (substitute_ok m s2) as (q' & -> & Hl' & Hc');
      [done | lia | unfold LENGTH in *; rewrite Hqu2, Hql2, Hl1; lia |].
    rewrite bind_Ok_l.
    set (s3 := log _ _) in *.
    destruct (IH (Some m) s3) as (s' & -> & Habs & Hwf' & Hm' & Hl3 & Ht3 & Hs3 & Hn3).
    + destruct Hm as (? & ? & _).
      unfold wf_state, queue_inv, bufs_ok, LENGTH in *. unfold s3. unfold_state.
      rewrite Hm2, Hl'. rewrite Hqu2, Hql2 in *. split; [lia | tauto].
    + replace (abs s3) with
        (Build_astate (mapped m ++ drop (Z.to_nat (inlen m)) (content s1))
           (Z.min (inlen m) (mappedlen m)) (vb s1) (trace s1 ++ [EvMapped m])).
      * unfold s3. unfold_state. unfold LENGTH. rewrite Hm2, Hl', Hqu2, Hl1. done.
      * unfold abs, content, s3. unfold_state. rewrite Hc', Hc2, Hv2, Htr2. done.
    + exists s'. split; [done |]. split; [done |]. split; [done |].
      unfold s3 in *. unfold_state.
      rewrite Hm', Hl3, Ht3, Hs3, Hn3, Hm2, Hl', Hqu2, Ht2, Hs2, Hn2. tauto.
  - destruct (literal_ok s2) as (buf & sl & k & Hk & -> & Hlb & Hsl);
      [unfold LENGTH in *; rewrite Hqu2, Hql2, Hl1; lia | done |].
    rewrite bind_Ok_l.
    set (s3 := set_statusbar_cmd _ _) in *.
    destruct (IH None s3) as (s' & -> & Habs & Hwf' & Hm' & Hl3 & Ht3 & Hs3 & Hn3).
    + unfold wf_state, queue_inv, bufs_ok, LENGTH in *. unfold s3. unfold_state.
      rewrite Hm2. rewrite Hqu2, Hql2 in *. split; [lia | tauto].
    + replace (abs s3) with
        (Build_astate (content s1) 1 (vb s1)
           (trace s1 ++ [EvLiteral (default NUL (head (content s1)))])).
      * unfold s3. unfold_state. unfold LENGTH. rewrite Hm2, Hqu2, Hl1. done.
      * unfold abs, s3. unfold_state.
        replace (content (set_statusbar_cmd (c_string buf)
                   (set_showbuf buf sl (log (EvLiteral k) (set_resolved 1 s2)))))
          with (content s2) by reflexivity.
        rewrite Hc2, Hv2, Htr2. do 3 f_equal.
        rewrite <- Hc2. unfold content.
        destruct (queue s2) as [|k0 q0] eqn:Hqueue; [done |].
        injection Hk as ->.
        destruct (Z.to_nat (qlen s2)) eqn:Hz; [lia | done].
    + exists s'. split; [done |]. split; [done |]. split; [done |].
      unfold s3 in *. unfold_state.
      rewrite Hm', Hl3, Ht3, Hs3, Hn3, Hm2, Hqu2, Ht2, Hs2, Hn2. tauto.
Qed.

(** What the protocol returns for a call, [map_handle_keys] returns. *)
Lemma map_handle_keys_refines (fuel : nat) (keys : list ascii) (keylen : Z) s
    (r : MapState) (a' : astate U) :
  wf_state s → keylen ≤ Z.of_nat (length keys) →
  handle_keys fuel (mlist s) (LENGTH (queue s)) keys keylen (abs s) = AReturn r a' →
  ∃ s', map_handle_keys fuel keys keylen s = Ok (r, s') ∧ abs s' = a' ∧ wf_state s'
    ∧ mlist s' = mlist s ∧ length (queue s') = length (queue s).
Proof.
  intros Hwf Hk H. unfold handle_keys in H. rewrite map_handle_keys_unfold.
  destruct (arm_timeout_fields keylen s) as (Hm & Hqu & Hql & Hr & Hsb & Hsl & Hv & Htr).
  pose proof Hwf as ((Hres & Hq) & (Hb1 & Hb2) & Hmaps).
  set (s0 := arm_timeout keylen s) in *.
  destruct (enqueue_ok keys keylen s0) as (q & -> & Hl & Hc);
    [rewrite Hql, Hqu; lia | lia |].
  rewrite bind_Ok_l.
  set (n := Z.to_nat (Z.min keylen (LENGTH (queue s0) - qlen s0))) in *.
  set (s1 := set_qlen (qlen s0 + Z.of_nat n) (set_queue q s0)) in *.
  assert (Hn : 0 ≤ Z.of_nat n ∧ qlen s0 + Z.of_nat n ≤ LENGTH (queue s0)).
  { unfold n. rewrite Hql, Hqu. lia. }
  assert (Hwf1 : wf_state s1).
  { unfold wf_state, queue_inv, bufs_ok, LENGTH in *. unfold s1. unfold_state.
    rewrite Hm, Hr, Hql, Hsb, Hsl, Hl, Hqu in *. split; [lia | done]. }
  destruct (resolve_refines fuel (bool_decide (keylen = 0)) None s1 r a')
    as (s' & -> & Habs & Hwf' & Hm' & Hl' & _); [done | |].
  - rewrite <- H. unfold s1 at 1 2. unfold_state.
    unfold LENGTH. rewrite Hl, Hqu, Hm. f_equal.
    unfold abs, s1. unfold content at 1. unfold_state.
    replace (Z.to_nat (qlen s0 + Z.of_nat n)) with (Z.to_nat (qlen s0) + n)%nat by lia.
    rewrite Hc, Hr, Hv, Htr.
    assert (Hcs : content s0 = content s) by (unfold content; by rewrite Hql, Hqu).
    rewrite Hcs. cbn [a_queue a_resolved a_vb a_trace].
    rewrite (content_length s) by lia.
    do 3 f_equal. unfold n, LENGTH. rewrite Hql, Hqu. lia.
  - exists s'. split; [done |]. split; [done |]. split; [done |].
    unfold s1 in *. unfold_state. rewrite Hm', Hl', Hm, Hl, Hqu. done.
Qed.

End Refinement.

(** ** Inserting and deleting maps *)

Section Table.
Context {U : Type} {E : Env U}.
Implicit Type s : state U.

Lemma keys_sent_app (tr1 tr2 : list event) :
  keys_sent (tr1 ++ tr2) = keys_sent tr1 ++ keys_sent tr2.
Proof. apply omap_app. Qed.

Lemma keys_sent_keys (ks : list ascii) : keys_sent (EvKey <$> ks) = ks.
Proof.
  induction ks as [|k ks IH]; [done |].
  change (keys_sent (EvKey <$> k :: ks)) with (k :: keys_sent (EvKey <$> ks)).
  by rewrite IH.
Qed.

(** [map_insert] returns: it puts a well-formed map with the translated
    strings in front of the list. *)
Lemma map_insert_ok (in_0 mapped0 : list ascii) (mode0 : ascii) s :
  ∃ lhs rhs,
    map_convert_keys (cstr in_0) (strlen (cstr in_0)) = Ok (lhs, Z.of_nat (length lhs))
    ∧ map_convert_keys (cstr mapped0) (strlen (cstr mapped0))
      = Ok (rhs, Z.of_nat (length rhs))
    ∧ wf_Map (Build_Map lhs (Z.of_nat (length lhs)) rhs (Z.of_nat (length rhs)) mode0)
    ∧ map_insert in_0 mapped0 mode0 s
      = Ok (set_mlist
              (Build_Map lhs (Z.of_nat (length lhs)) rhs (Z.of_nat (length rhs)) mode0
               :: mlist s) s).
Proof.
  destruct (map_convert_keys_total in_0) as (lhs & Hl & Hnl).
  destruct (map_convert_keys_total mapped0) as (rhs & Hr & Hnr).
  exists lhs, rhs. split; [done |]. split; [done |]. split; [by repeat split |].
  unfold map_insert. by rewrite Hl, bind_Ok_l, Hr, bind_Ok_l.
Qed.

(** The loop of [map_delete] finds the first map of the mode with the lhs. *)
Lemma find_link_ok (l : list Map) (lhs : list ascii) (mode0 : ascii) (i : nat) :
  Forall wf_Map l → NUL ∉ lhs →
  (∃ l1 m l2, l = l1 ++ m :: l2 ∧ mode m = mode0 ∧ in_ m = lhs
     ∧ (∀ m', m' ∈ l1 → ¬ (mode m' = mode0 ∧ in_ m' = lhs))
     ∧ find_link l lhs (Z.of_nat (length lhs)) mode0 i = Ok (Some (i + length l1)%nat))
  ∨ ((∀ m', m' ∈ l → ¬ (mode m' = mode0 ∧ in_ m' = lhs))
     ∧ find_link l lhs (Z.of_nat (length lhs)) mode0 i = Ok None).
Proof.
  intros Hwf Hnul. revert i. induction Hwf as [|m l Hm _ IH]; intros i; simpl.
  - right. split; [| done]. intros m' Hin. by apply elem_of_nil in Hin.
  - destruct Hm as (Hin & _ & Hn & _).
    assert (Hstep :
      ¬ (mode m = mode0 ∧ in_ m = lhs) →
      (if bool_decide (mode m = mode0) && bool_decide (inlen m = Z.of_nat (length lhs))
       then r ← strcmp (cstr (in_ m)) (cstr lhs);
            if bool_decide (r = 0) then Ok (Some i)
            else find_link l lhs (Z.of_nat (length lhs)) mode0 (S i)
       else find_link l lhs (Z.of_nat (length lhs)) mode0 (S i))
      = find_link l lhs (Z.of_nat (length lhs)) mode0 (S i)).
    { intros Hne. destruct (_ && _) eqn:Hb; [| done].
      apply andb_true_iff in Hb as [Hmode _]. apply bool_decide_eq_true in Hmode.
      destruct (strcmp_spec (in_ m) lhs) as (r & -> & Hr); [done | done |].
      rewrite bind_Ok_l. rewrite bool_decide_eq_false_2; [done |].
      rewrite Hr. intros ?. by apply Hne. }
    destruct (decide (mode m = mode0 ∧ in_ m = lhs)) as [[Hmode Heq] | Hne].
    + left. exists [], m, l. split; [done |]. split; [done |]. split; [done |].
      split; [intros m' Hin'; by apply elem_of_nil in Hin' |].
      rewrite !bool_decide_eq_true_2 by (done || congruence). simpl.
      destruct (strcmp_spec (in_ m) lhs) as (r & -> & Hr); [done | done |].
      rewrite bind_Ok_l. rewrite bool_decide_eq_true_2 by (by apply Hr).
      do 2 f_equal. lia.
    + rewrite Hstep by done.
      destruct (IH (S i)) as [(l1 & m1 & l2 & -> & Hmode & Heq & Hfirst & Hfind)
                             | [Hnone Hfind]].
      * left. exists (m :: l1), m1, l2. split; [done |]. split; [done |].
        split; [done |]. split.
        -- intros m' [-> | Hin']%elem_of_cons; [done | by apply Hfirst].
        -- rewrite Hfind. simpl. do 2 f_equal. lia.
      * right. split; [| done].
        intros m' [-> | Hin']%elem_of_cons; [done | by apply Hnone].
Qed.

End Table.

(** ** Calls on an empty queue *)

Section Calls.
Context {U : Type} {E : Env U}.
Implicit Type s : state U.

Lemma map_handle_keys_mono (fuel fuel' : nat) (keys : list ascii) (keylen : Z) s
    (x : MapState * state U) :
  (fuel ≤ fuel')%nat → map_handle_keys fuel keys keylen s = Ok x →
  map_handle_keys fuel' keys keylen s = Ok x.
Proof.
  intros Hle. rewrite !map_handle_keys_unfold.
  destruct (enqueue _ _ _) as [s1| |]; [| done | done]. rewrite !bind_Ok_l.
  intros H. rewrite <- H. apply resolve_mono; [done | by rewrite H].
Qed.

Lemma resolve_drained (fuel : nat) (timeout : bool) (acc : option Map) s
    (r : MapState) s' :
  resolve fuel timeout acc s = Ok (r, s') → r ≠ MAP_AMBIGUOUS → qlen s' = 0.
Proof.
  revert acc s. induction fuel as [|fuel IH]; intros acc s H Hr; [done |].
  rewrite resolve_unfold in H. inv_ok H.
  destruct (decide (qlen a = 0)) as [Hq | Hq].
  - rewrite bool_decide_eq_true_2 in H by done. by injection H as _ <-.
  - rewrite bool_decide_eq_false_2 in H by done.
    inv_ok H. destruct a0 as [[s2 res] amb].
    case_if H; [injection H as <- _; done |].
    destruct res as [m|]; inv_ok H; by eapply IH.
Qed.

Lemma content_empty s : qlen s = 0 → content s = [].
Proof. unfold content. by intros ->. Qed.

(** A key that starts no lhs of the current mode has no candidate. *)
Lemma no_candidates (l : list Map) (id k : ascii) :
  Forall wf_Map l →
  (∀ m, m ∈ l → mode m = id → ∃ k' rest, in_ m = k' :: rest ∧ k' ≠ k) →
  lookup_candidates l [k] id false = (None, 0).
Proof.
  intros Hwf Hno. unfold lookup_candidates.
  assert (best_match id [k] l None = None ∧ ambiguous_count id [k] l = 0)
    as [-> ->]; [| done].
  induction Hwf as [|m l Hm _ IH]; simpl; [done |].
  assert (Hfull : is_full id [k] m = false ∧ is_ambiguous id [k] m = false).
  { unfold is_full, is_ambiguous.
    destruct (decide (mode m = id)) as [Hmode | Hmode];
      [| by rewrite !(bool_decide_eq_false_2 (mode m = id)) by done].
    destruct (Hno m) as (k' & rest & Hin & Hk); [by apply elem_of_cons; left | done |].
    destruct Hm as (Hlen & _). rewrite Hin in *. simpl in *.
    split.
    - apply andb_false_iff. right. apply bool_decide_eq_false.
      destruct (Z.to_nat (inlen m)); [done |]. simpl. congruence.
    - apply andb_false_iff. right. apply bool_decide_eq_false. congruence. }
  destruct Hfull as [-> ->]. simpl.
  apply IH. intros m' Hin. apply Hno. by apply elem_of_cons; right.
Qed.


End Calls.

(** ** The loop returns where every substitution makes the queue lighter *)

Section Ranks.
Context {U : Type} {E : Env U}.
Implicit Type s : state U.

Lemma weight_app (w : ascii → nat) (ks1 ks2 : list ascii) :
  weight w (ks1 ++ ks2) = (weight w ks1 + weight w ks2)%nat.
Proof. apply sum_list_with_app. Qed.

Lemma weight_length (w : ascii → nat) (ks : list ascii) :
  (length ks ≤ weight w ks)%nat.
Proof.
  unfold weight. induction ks as [|k ks IH]; simpl; [done | lia].
Qed.

Lemma weight_drop (w : ascii → nat) (n : nat) (ks : list ascii) :
  (weight w (drop n ks) ≤ weight w ks)%nat.
Proof.
  rewrite <- (take_drop n ks) at 2. rewrite weight_app. lia.
Qed.

(** Once the resolved keys of a substitution are sent, the keys to look up
    are what the mapped keys leave and the keys that followed the lhs. *)
Lemma pending_after_substitution (m : Map) (t : list ascii) :
  wf_Map m → 0 ≤ inlen m →
  drop (Z.to_nat (Z.min (inlen m) (mappedlen m))) (mapped m ++ t) = leftover m ++ t.
Proof.
  intros (Hi & Hm & _) H0. unfold leftover.
  destruct (decide (inlen m ≤ mappedlen m)) as [Hle | Hgt].
  - rewrite Z.min_l by done. by rewrite drop_app_le by lia.
  - rewrite Z.min_r by lia.
    replace (Z.to_nat (mappedlen m)) with (length (mapped m)) by lia.
    rewrite drop_app_length. by rewrite drop_ge by lia.
Qed.

(** A map whose mapped keys are no more than the keys of its lhs makes the
    queue lighter under any ranks. *)
Lemma lightens_no_more_keys (w : ascii → nat) (m : Map) :
  wf_Map m → 0 < inlen m → mappedlen m ≤ inlen m → lightens w m.
Proof.
  intros (Hi & Hm & _) Hpos Hle. split; [done |]. unfold leftover.
  rewrite drop_ge by lia.
  pose proof (weight_length w (in_ m)). change (weight w []) with 0%nat. lia.
Qed.

(** Under no ranks does a map lighten the queue whose mapped keys leave its
    own lhs behind the keys that are sent. *)
Lemma lightens_not_own_lhs (w : ascii → nat) (m : Map) :
  leftover m = in_ m → ¬ lightens w m.
Proof. intros Heq [_ Hlt]. rewrite Heq in Hlt. lia. Qed.

Lemma rd_ge (a : list ascii) (i : Z) : LENGTH a ≤ i → rd a i = Undef.
Proof.
  intros Hi. unfold rd. case_bool_decide; [| done].
  rewrite lookup_ge_None_2; [done |]. unfold LENGTH in Hi. lia.
Qed.

(** The loop that deletes keys reads behind the queue where the queue has
    no room for the keys it reads. *)
Lemma delete_keys_overread (n : nat) (q : list ascii) (i j : Z) :
  0 ≤ i ≤ j → j ≤ LENGTH q → LENGTH q < j + Z.of_nat n →
  delete_keys n q i j = Undef.
Proof.
  revert q i j. induction n as [|n IH]; intros q i j Hi Hj Hn; [lia |].
  simpl. destruct (decide (j < LENGTH q)) as [Hlt | Hge].
  - destruct (rd_lt q j) as (c & -> & _); [lia |]. rewrite bind_Ok_l.
    rewrite wr_lt by lia. rewrite bind_Ok_l.
    apply IH; rewrite ?LENGTH_insert; lia.
  - by rewrite rd_ge by lia.
Qed.

(** Where the queue has no room for the shift, the substitution leaves the
    queue array: it writes behind its end where the mapped keys are more
    than the lhs, and reads behind its end where they are fewer. *)
Lemma substitute_no_room (m : Map) s :
  wf_Map m → inlen m ≤ qlen s ≤ LENGTH (queue s) →
  ¬ qlen s + Z.abs (mappedlen m - inlen m) ≤ LENGTH (queue s) →
  substitute m s = Undef.
Proof.
  intros Hm Hq Hroom. pose proof Hm as (Hi & Hl & _).
  destruct (decide (inlen m < mappedlen m)) as [Hexp | Hshr].
  - apply substitute_overflow; [done | done | lia].
  - unfold substitute.
    rewrite (bool_decide_eq_false_2 (inlen m < mappedlen m)) by done.
    rewrite (bool_decide_eq_true_2 (inlen m > mappedlen m)) by lia.
    by rewrite delete_keys_overread by lia.
Qed.

(** Where the protocol finds no room for a substitution, the loop leaves
    the queue array. *)
Lemma resolve_no_room (fuel : nat) (timeout : bool) (acc : option Map) s :
  wf_state s →
  handle_loop fuel (mlist s) (LENGTH (queue s)) timeout acc (abs s) = ANoRoom →
  resolve fuel timeout acc s = Undef.
Proof.
  revert acc s. induction fuel as [|fuel IH]; intros acc s Hwf H; [done |].
  rewrite handle_loop_unfold in H. rewrite resolve_unfold.
  pose proof Hwf as ((Hr & Hq) & Hb & Hmaps).
  destruct (drain_ok (Z.to_nat (resolved s)) s) as (s1 & ks & -> & Hks & Hd);
    [lia | done |].
  rewrite bind_Ok_l.
  destruct Hd as (Hq1 & Hr1 & Hc1 & Hl1 & Hm1 & Ht1 & Hs1 & Hn1 & Htr1 & Hv1 & Hb1).
  assert (Hwf1 : wf_state s1).
  { unfold wf_state, queue_inv, LENGTH in *. rewrite Hm1, Hl1. split; [lia | done]. }
  cbn [abs a_queue a_resolved a_vb a_trace] in H.
  assert (Htake : take (Z.to_nat (resolved s)) (content s) = ks).
  { rewrite Hc1, <- Hks. apply take_app_length. }
  assert (Hdrop : drop (Z.to_nat (resolved s)) (content s) = content s1).
  { rewrite Hc1, <- Hks. apply drop_app_length. }
  cbv zeta in H. rewrite Htake, Hdrop, <- Hv1, <- Htr1 in H.
  assert (Hlen1 : length (content s1) = Z.to_nat (qlen s1)).
  { apply content_length. unfold LENGTH in *. lia. }
  destruct (decide (qlen s1 = 0)) as [Hq0 | Hq0].
  { assert (Hnil : content s1 = []) by (apply length_zero_iff_nil; lia).
    by rewrite (bool_decide_eq_true_2 (content s1 = [])) in H by done. }
  rewrite (bool_decide_eq_false_2 (qlen s1 = 0)) by done.
  rewrite (bool_decide_eq_false_2 (content s1 = [])) in H
    by (intros Hnil; rewrite Hnil in Hlen1; simpl in Hlen1; unfold LENGTH in *; lia).
  destruct (lookup_round_candidates timeout s1) as (s2 & -> & Hd2 & Hb2); [done |].
  rewrite bind_Ok_l. rewrite <- Hm1 in H.
  destruct (if bool_decide (Z.land (mode_flags (vb s1)) FLAG_NOMAP = 0)
            then lookup_candidates (mlist s1) (content s1) (mode_id (vb s1)) timeout
            else (None, 0)) as [best amb] eqn:Hcand.
  cbn [fst snd].
  assert (Hwf2 : wf_state s2) by (by eapply wf_state_display).
  pose proof Hd2 as (Hm2 & Hqu2 & Hql2 & Hr2 & Ht2 & Hv2 & Hs2 & Hn2 & Htr2).
  assert (Hc2 : content s2 = content s1) by (unfold content; by rewrite Hqu2, Hql2).
  destruct (bool_decide (amb ≠ 0)); [done |].
  destruct best as [m|].
  - assert (Hbest : best_match (mode_id (vb s1)) (content s1) (mlist s1) None = Some m).
    { destruct (bool_decide (Z.land (mode_flags (vb s1)) FLAG_NOMAP = 0)); [| done].
      unfold lookup_candidates in Hcand. congruence. }
    apply best_match_in in Hbest as [[=] | [Hin Hfull]].
    assert (Hm : wf_Map m).
    { rewrite Forall_forall in Hmaps. apply Hmaps. by rewrite <- Hm1. }
    apply full_match_is_full in Hfull as (_ & Hle & _); [| unfold LENGTH in *; lia].
    rewrite Hlen1 in H.
    destruct (decide (Z.of_nat (Z.to_nat (qlen s1)) + Z.abs (mappedlen m - inlen m)
                      ≤ LENGTH (queue s))) as [Hroom | Hroom].
    + rewrite (bool_decide_eq_true_2 (_ ≤ LENGTH (queue s))) in H by done.
      destruct (substitute_ok m s2) as (q' & -> & Hl' & Hc');
        [done | lia | unfold LENGTH in *; rewrite Hqu2, Hql2, Hl1; lia |].
      rewrite bind_Ok_l.
      set (s3 := log _ _) in *.
      apply IH.
      * destruct Hm as (? & ? & _).
        unfold wf_state, queue_inv, bufs_ok, LENGTH in *. unfold s3. unfold_state.
        rewrite Hm2, Hl'. rewrite Hqu2, Hql2 in *. split; [lia | tauto].
      * rewrite <- H. unfold s3 at 1 2. unfold_state. unfold LENGTH.
        rewrite Hm2, Hl', Hqu2, Hl1. f_equal.
        unfold abs, content, s3. unfold_state. rewrite Hc', Hc2, Hv2, Htr2. done.
    + rewrite substitute_no_room; [done | done | |].
      * unfold LENGTH in *. rewrite Hqu2, Hql2, Hl1. lia.
      * unfold LENGTH in *. rewrite Hqu2, Hql2, Hl1. lia.
  - destruct (literal_ok s2) as (buf & sl & k & Hk & -> & Hlb & Hsl);
      [unfold LENGTH in *; rewrite Hqu2, Hql2, Hl1; lia | done |].
    rewrite bind_Ok_l.
    set (s3 := set_statusbar_cmd _ _) in *.
    apply IH.
    + unfold wf_state, queue_inv, bufs_ok, LENGTH in *. unfold s3. unfold_state.
      rewrite Hm2. rewrite Hqu2, Hql2 in *. split; [lia | tauto].
    + rewrite <- H. unfold s3 at 1 2. unfold_state. unfold LENGTH.
      rewrite Hm2, Hqu2, Hl1. f_equal.
      unfold abs, s3. unfold_state.
      replace (content (set_statusbar_cmd (c_string buf)
                 (set_showbuf buf sl (log (EvLiteral k) (set_resolved 1 s2)))))
        with (content s2) by reflexivity.
      rewrite Hc2, Hv2, Htr2. do 3 f_equal.
      rewrite <- Hc2. unfold content.
      destruct (queue s2) as [|k0 q0] eqn:Hqueue; [done |].
      injection Hk as ->.
      destruct (Z.to_nat (qlen s2)) eqn:Hz; [lia | done].
Qed.

Lemma map_handle_keys_no_room (fuel : nat) (keys : list ascii) (keylen : Z) s :
  wf_state s → keylen ≤ Z.of_nat (length keys) →
  handle_keys fuel (mlist s) (LENGTH (queue s)) keys keylen (abs s) = ANoRoom →
  map_handle_keys fuel keys keylen s = Undef.
Proof.
  intros Hwf Hk H. unfold handle_keys in H. rewrite map_handle_keys_unfold.
  destruct (arm_timeout_fields keylen s) as (Hm & Hqu & Hql & Hr & Hsb & Hsl & Hv & Htr).
  pose proof Hwf as ((Hres & Hq) & (Hb1 & Hb2) & Hmaps).
  set (s0 := arm_timeout keylen s) in *.
  destruct (enqueue_ok keys keylen s0) as (q & -> & Hl & Hc);
    [rewrite Hql, Hqu; lia | lia |].
  rewrite bind_Ok_l.
  set (n := Z.to_nat (Z.min keylen (LENGTH (queue s0) - qlen s0))) in *.
  set (s1 := set_qlen (qlen s0 + Z.of_nat n) (set_queue q s0)) in *.
  assert (Hn : 0 ≤ Z.of_nat n ∧ qlen s0 + Z.of_nat n ≤ LENGTH (queue s0)).
  { unfold n. rewrite Hql, Hqu. lia. }
  assert (Hwf1 : wf_state s1).
  { unfold wf_state, queue_inv, bufs_ok, LENGTH in *. unfold s1. unfold_state.
    rewrite Hm, Hr, Hql, Hsb, Hsl, Hl, Hqu in *. split; [lia | done]. }
  apply resolve_no_room; [done |].
  rewrite <- H. unfold s1 at 1 2. unfold_state.
  unfold LENGTH. rewrite Hl, Hqu, Hm. f_equal.
  unfold abs, s1. unfold content at 1. unfold_state.
  replace (Z.to_nat (qlen s0 + Z.of_nat n)) with (Z.to_nat (qlen s0) + n)%nat by lia.
  rewrite Hc, Hr, Hv, Htr.
  assert (Hcs : content s0 = content s) by (unfold content; by rewrite Hql, Hqu).
  rewrite Hcs. cbn [a_queue a_resolved a_vb a_trace].
  rewrite (content_length s) by lia.
  do 3 f_equal. unfold n, LENGTH. rewrite Hql, Hqu. lia.
Qed.

(** What a call comes to within some rounds, it comes to within more. *)
Lemma map_handle_keys_stable (fuel fuel' : nat) (keys : list ascii) (keylen : Z) s :
  (fuel ≤ fuel')%nat → map_handle_keys fuel keys keylen s ≠ OutOfFuel →
  map_handle_keys fuel' keys keylen s = map_handle_keys fuel keys keylen s.
Proof.
  intros Hle. rewrite !map_handle_keys_unfold.
  destruct (enqueue _ _ _) as [s1| |]; [| done | done]. rewrite !bind_Ok_l.
  by apply resolve_mono.
Qed.

(** Every round of the protocol takes weight from the keys to look up: the
    protocol comes to an end within as many rounds as the keys weigh, and
    one.  With the headroom of the maps every substitution fits the queue. *)
Lemma handle_loop_ends (w : ascii → nat) (fuel : nat) (l : list Map) (cap : Z)
    (timeout : bool) (acc : option Map) (a : astate U) :
  Forall wf_Map l → Forall (lightens w) l →
  (weight w (drop (Z.to_nat (a_resolved a)) (a_queue a)) < fuel)%nat →
  handle_loop fuel l cap timeout acc a ≠ AOutOfFuel
  ∧ ((∀ m, m ∈ l →
        Z.of_nat (weight w (drop (Z.to_nat (a_resolved a)) (a_queue a))) + headroom m
        ≤ cap) →
     handle_loop fuel l cap timeout acc a ≠ ANoRoom).
Proof.
  intros Hwf Hl. revert acc a.
  induction fuel as [|fuel IH]; intros acc a Hfuel; [lia |].
  rewrite handle_loop_unfold. cbv zeta.
  set (q := drop (Z.to_nat (a_resolved a)) (a_queue a)) in *.
  set (v := feed _ _). set (tr := a_trace a ++ _).
  destruct (decide (q = [])) as [Hq | Hq].
  { by rewrite (bool_decide_eq_true_2 (q = [])) by done. }
  rewrite (bool_decide_eq_false_2 (q = [])) by done.
  destruct (if bool_decide (Z.land (mode_flags v) FLAG_NOMAP = 0)
            then lookup_candidates l q (mode_id v) timeout
            else (None, 0)) as [best amb] eqn:Hcand.
  destruct (decide (amb ≠ 0)) as [Hamb | Hamb].
  { by rewrite (bool_decide_eq_true_2 (amb ≠ 0)) by done. }
  rewrite (bool_decide_eq_false_2 (amb ≠ 0)) by done.
  destruct best as [m|].
  - assert (Hbest : best_match (mode_id v) q l None = Some m).
    { destruct (bool_decide (Z.land (mode_flags v) FLAG_NOMAP = 0)); [| done].
      unfold lookup_candidates in Hcand. congruence. }
    apply best_match_in in Hbest as [[=] | [Hin Hfull]].
    unfold is_full in Hfull.
    apply andb_true_iff in Hfull as [Hfull Hpre].
    apply andb_true_iff in Hfull as [_ Hle].
    apply bool_decide_eq_true in Hle, Hpre.
    assert (Hm : wf_Map m) by (rewrite Forall_forall in Hwf; by apply Hwf).
    assert (Hlm : lightens w m) by (rewrite Forall_forall in Hl; by apply Hl).
    pose proof Hm as (Hinlen & Hmlen & _). destruct Hlm as [Hpos Hlt].
    assert (Hsplit : weight w q
                     = (weight w (in_ m) + weight w (drop (Z.to_nat (inlen m)) q))%nat).
    { rewrite <- (take_drop (Z.to_nat (inlen m)) q) at 1.
      rewrite weight_app. by rewrite <- Hpre. }
    pose proof (weight_length w (drop (Z.to_nat (inlen m)) q)) as Ht.
    rewrite length_drop in Ht.
    pose proof (weight_length w (leftover m)) as Hlo.
    unfold leftover in Hlo at 1. rewrite length_drop in Hlo.
    assert (Hnext : (weight w (drop (Z.to_nat (Z.min (inlen m) (mappedlen m)))
                                 (mapped m ++ drop (Z.to_nat (inlen m)) q))
                     < weight w q)%nat).
    { rewrite pending_after_substitution by (done || lia).
      rewrite weight_app. lia. }
    destruct (decide (Z.of_nat (length q) + Z.abs (mappedlen m - inlen m) ≤ cap))
      as [Hfits | Hfits].
    + rewrite (bool_decide_eq_true_2 (_ ≤ cap)) by done.
      destruct (IH (Some m)
                  (Build_astate (mapped m ++ drop (Z.to_nat (inlen m)) q)
                     (Z.min (inlen m) (mappedlen m)) v (tr ++ [EvMapped m])))
        as [Hend Hfit]; [cbn [a_queue a_resolved]; lia |].
      split; [done |]. intros Hroom. apply Hfit. cbn [a_queue a_resolved].
      intros m' Hin'. specialize (Hroom m' Hin'). lia.
    + rewrite (bool_decide_eq_false_2 (_ ≤ cap)) by done.
      split; [done |]. intros Hroom. exfalso. apply Hfits.
      pose proof (Hroom m Hin) as Hrm. unfold headroom in Hrm.
      destruct (decide (inlen m < mappedlen m)) as [Hexp | Hexp].
      * rewrite (bool_decide_eq_true_2 (inlen m < mappedlen m)) in Hrm by done. lia.
      * rewrite (bool_decide_eq_false_2 (inlen m < mappedlen m)) in Hrm by done.
        pose proof (weight_length w q). lia.
  - assert (Hnext : (weight w (drop (Z.to_nat 1) q) < weight w q)%nat).
    { destruct q as [|k q']; [done |]. change (Z.to_nat 1) with 1%nat.
      cbn [drop]. rewrite drop_0. change (k :: q') with ([k] ++ q').
      rewrite weight_app. unfold weight at 2. simpl. lia. }
    destruct (IH None
                (Build_astate q 1 v (tr ++ [EvLiteral (default NUL (head q))])))
      as [Hend Hfit]; [cbn [a_queue a_resolved]; lia |].
    split; [done |]. intros Hroom. apply Hfit. cbn [a_queue a_resolved].
    intros m' Hin'. specialize (Hroom m' Hin'). lia.
Qed.

End Ranks.

(** * The claims *)

(** [loop_step] runs one round of the protocol. *)
Ltac loop_step :=
  rewrite handle_loop_unfold; cbn [a_queue a_resolved a_vb a_trace];
  change (Z.to_nat 0) with 0%nat; change (Z.to_nat 1) with 1%nat;
  cbn [take drop app feed fmap list_fmap head default keys_of list_ascii_of_string].

Section Claims.
Context {U : Type} {E : Env U}.
Implicit Type s : state U.

(** C9.  Whenever [map_handle_keys] returns [MAP_AMBIGUOUS], [map.resolved]
    is 0: the drain loop has run to its end before the lookup, so every key
    left in the queue is yet to be looked up.  The maps are as [map_insert]
    builds them and [map.resolved] is not negative when the call starts. *)
Theorem ambiguous_return_resolved_zero (fuel : nat) (keys : list ascii)
    (keylen : Z) s s' :
  Forall wf_Map (mlist s) → 0 ≤ resolved s →
  map_handle_keys fuel keys keylen s = Ok (MAP_AMBIGUOUS, s') →
  resolved s' = 0.
Proof.
  intros Hwf Hres H. rewrite map_handle_keys_unfold in H. inv_ok H.
  apply enqueue_inv in Ha as (q & n & ->).
  destruct (arm_timeout_fields keylen s) as (Hm & _ & _ & Hr & _).
  eapply resolve_ambiguous; [| | done]; unfold_state; by rewrite ?Hm, ?Hr.
Qed.

(** C10.  A timeout call, with [keylen] 0, made while the queue is empty
    returns [MAP_NOMATCH] and leaves the whole state as it is: no timeout
    source, queue, counter, map or display changes. *)
Theorem timeout_on_empty_queue (fuel : nat) (keys : list ascii) s :
  queue_inv s → qlen s = 0 →
  map_handle_keys (S fuel) keys 0 s = Ok (MAP_NOMATCH, s).
Proof.
  intros (Hr & _) Hq. rewrite map_handle_keys_unfold.
  assert (Henq : enqueue keys 0 (arm_timeout 0 s) = Ok s).
  { unfold arm_timeout. simpl.
    destruct keys; simpl; by rewrite andb_false_r. }
  rewrite Henq, bind_Ok_l, resolve_unfold.
  replace (resolved s) with 0 by lia. simpl.
  rewrite bool_decide_eq_true_2 by done. f_equal. f_equal. state_eq.
Qed.

(** C3, as amended.  Where every substitution makes the keys to look up
    lighter under some ranks [w] of the keys, so that no expansion brings
    back what it replaced, [map_handle_keys] comes to an end for every
    input, whatever the key handlers do, within as many rounds as the keys
    in the queue weigh and one more; no further round changes what it comes
    to.  It returns one of [MAP_DONE], [MAP_NOMATCH] and [MAP_AMBIGUOUS] and
    leaves [0 ≤ resolved ≤ qlen ≤ capacity], unless a substitution leaves the
    queue array, which none does where the queue has the headroom of the
    maps.  Keys given beyond the capacity are dropped and weigh nothing;
    with the ranks all 0 the maps are those with no more mapped keys than
    their lhs has. *)
Theorem map_handle_keys_terminates (w : ascii → nat) (keys : list ascii)
    (keylen : Z) s :
  wf_state s → Forall (lightens w) (mlist s) →
  0 ≤ keylen ≤ Z.of_nat (length keys) →
  ∃ out,
    (∀ fuel : nat, (weight w (stored keys keylen s) < fuel)%nat →
       map_handle_keys fuel keys keylen s = out)
    ∧ ((∃ r s', out = Ok (r, s') ∧ queue_inv s') ∨ out = Undef)
    ∧ ((∀ m, m ∈ mlist s →
          Z.of_nat (weight w (stored keys keylen s)) + headroom m
          ≤ LENGTH (queue s)) →
       out ≠ Undef).
Proof.
  intros Hwf Hl Hk. pose proof Hwf as ((Hres & Hq) & _ & Hmaps).
  pose proof (weight_drop w (Z.to_nat (resolved s)) (stored keys keylen s)) as Hdrop.
  set (W := weight w (stored keys keylen s)) in *.
  assert (Hkeys : handle_keys (S W) (mlist s) (LENGTH (queue s)) keys keylen (abs s)
                  = handle_loop (S W) (mlist s) (LENGTH (queue s))
                      (bool_decide (keylen = 0)) None
                      (Build_astate (stored keys keylen s) (resolved s) (vb s)
                         (trace s))).
  { unfold handle_keys, abs, stored. cbn [a_queue a_resolved a_vb a_trace].
    rewrite content_length by lia. by rewrite Z2Nat.id by lia. }
  destruct (handle_loop_ends w (S W) (mlist s) (LENGTH (queue s))
              (bool_decide (keylen = 0)) None
              (Build_astate (stored keys keylen s) (resolved s) (vb s) (trace s)))
    as [Hend Hfit]; [done | done | cbn [a_queue a_resolved]; fold W; lia |].
  cbn [a_queue a_resolved] in Hfit. rewrite <- Hkeys in Hend, Hfit.
  assert (Hout : map_handle_keys (S W) keys keylen s ≠ OutOfFuel
                 ∧ ((∃ r s', map_handle_keys (S W) keys keylen s = Ok (r, s')
                             ∧ queue_inv s')
                    ∨ (map_handle_keys (S W) keys keylen s = Undef
                       ∧ handle_keys (S W) (mlist s) (LENGTH (queue s)) keys keylen
                           (abs s) = ANoRoom))).
  { destruct (handle_keys (S W) (mlist s) (LENGTH (queue s)) keys keylen (abs s))
      as [r a'| |] eqn:Hres'; [| | done].
    - destruct (map_handle_keys_refines (S W) keys keylen s r a')
        as (s' & Hrun & _ & Hwf' & _); [done | lia | done |].
      rewrite Hrun. split; [done |]. left. exists r, s'. split; [done | apply Hwf'].
    - rewrite (map_handle_keys_no_room (S W) keys keylen s) by (done || lia).
      split; [done |]. by right. }
  destruct Hout as [Hne Hcases].
  exists (map_handle_keys (S W) keys keylen s). split; [| split].
  - intros fuel Hf. apply map_handle_keys_stable; [lia | done].
  - destruct Hcases as [? | [? _]]; [by left | by right].
  - intros Hroom Hun. destruct Hcases as [(r & s' & Hr & _) | [_ Hno]].
    + rewrite Hr in Hun. discriminate.
    + apply Hfit; [| done]. intros m Hin. specialize (Hroom m Hin). lia.
Qed.

(** C2.  The code breaks the invariant: where the mapped keys of the map
    that matches do not fit in the queue, [map_handle_keys] writes behind the
    end of the queue.  Here one key [k] is typed into an empty queue and the
    one map of the table has [k] as its lhs. *)
Theorem expansion_overflows_queue (fuel : nat) (k : ascii) (m : Map) s :
  wf_state s → qlen s = 0 → 0 < LENGTH (queue s) → ¬ nomap s →
  mlist s = [m] → in_ m = [k] → mode m = mode_id (vb s) →
  LENGTH (queue s) < mappedlen m →
  map_handle_keys (S fuel) [k] 1 s = Undef.
Proof.
  intros Hwf Hq0 Hcap Hflag Hlist Hin Hmode Hlong.
  destruct (arm_timeout_fields 1 s) as (Hm & Hqu & Hql & Hr & Hsb & Hsl & Hvb & _).
  pose proof Hwf as ((Hres & Hq) & (Hb1 & Hb2) & Hmaps).
  rewrite map_handle_keys_unfold.
  set (s0 := arm_timeout 1 s) in *.
  destruct (enqueue_ok [k] 1 s0) as (q & -> & Hl & Hc);
    [rewrite Hql, Hqu; lia | simpl; lia |].
  rewrite bind_Ok_l.
  replace (Z.to_nat (Z.min 1 (LENGTH (queue s0) - qlen s0))) with 1%nat in *
    by (rewrite Hql, Hqu; lia).
  set (s1 := set_qlen (qlen s0 + Z.of_nat 1) (set_queue q s0)) in *.
  assert (Hc1 : content s1 = [k]).
  { unfold content, s1. unfold_state. rewrite Hql, Hq0. simpl.
    rewrite Hql, Hq0 in Hc. unfold content in Hc. rewrite Hql, Hq0 in Hc. done. }
  assert (Hwf1 : wf_state s1).
  { unfold wf_state, queue_inv, bufs_ok, LENGTH in *. unfold s1. unfold_state.
    rewrite Hm, Hr, Hql, Hsb, Hsl, Hl, Hqu in *. split; [lia | done]. }
  assert (Hwm : wf_Map m).
  { rewrite Hlist in Hmaps. by apply Forall_cons_1 in Hmaps as [? _]. }
  pose proof Hwm as (Hinlen & _). rewrite Hin in Hinlen. simpl in Hinlen.
  assert (Hfm : full_match s1 m).
  { unfold full_match. rewrite Hc1, Hinlen. unfold s1. unfold_state.
    rewrite Hvb, Hql, Hq0. done. }
  rewrite resolve_unfold.
  replace (resolved s1) with 0 by (unfold s1; unfold_state; lia).
  change (Z.to_nat 0) with 0%nat. change (bool_decide (1 = 0)) with false.
  cbn [drain]. rewrite bind_Ok_l.
  rewrite bool_decide_eq_false_2 by (unfold s1; unfold_state; lia).
  destruct (lookup_round_ok false s1) as (s2 & res & -> & Hd & _ & Hsel); [done |].
  rewrite bind_Ok_l.
  assert (Hm1 : mlist s1 = [m]) by (unfold s1; unfold_state; congruence).
  assert (Hnm : ¬ nomap s1).
  { unfold nomap, s1 in *. unfold_state. by rewrite Hvb. }
  rewrite (bool_decide_eq_false_2 (nomap s1)) by done.
  rewrite Hm1. cbn [orb count_ambiguous].
  rewrite (bool_decide_eq_false_2 (ambiguous_match s1 m)).
  2: { intros (_ & Hlt & _). unfold s1 in Hlt. unfold_state. lia. }
  change (bool_decide (0 + 0 ≠ 0)) with false. cbn iota.
  destruct res as [m'|].
  - destruct Hsel as [_ [[[=] _] | (l1 & l2 & Hl12 & _)]].
    rewrite Hm1 in Hl12.
    assert (m' = m) as ->.
    { destruct l1 as [|? [|? ?]]; simpl in Hl12; by injection Hl12. }
    rewrite substitute_overflow; [done | done | |].
    + destruct Hd as (_ & -> & -> & _). unfold s1. unfold_state.
      unfold LENGTH in *. rewrite Hl, Hqu, Hql. lia.
    + destruct Hd as (_ & -> & -> & _). unfold s1. unfold_state.
      unfold LENGTH in *. rewrite Hl, Hqu, Hql. lia.
  - destruct Hsel as [? | Hno]; [done |].
    exfalso. apply (Hno m); [rewrite Hm1; by apply list_elem_of_singleton | done].
Qed.

(** C5, as amended.  Where the lhs of the map [m] is no longer than the
    queue and the queue has room for the shift, so that the loops stay
    inside the queue array, the substitution puts the [mappedlen]
    mapped keys in the place of the first [inlen] keys of the queue, with
    the keys behind them following, changes [map.qlen] by
    [mappedlen - inlen] and sets [map.resolved] to the smaller of [inlen] and
    [mappedlen]; the drain loop that follows sends exactly that many keys,
    the first of the mapped keys, and nothing is looked up in between. *)
Theorem substitution_replaces_lhs (m : Map) s :
  wf_Map m → bufs_ok s → inlen m ≤ qlen s →
  qlen s + Z.abs (mappedlen m - inlen m) ≤ LENGTH (queue s) →
  ∃ s' s'',
    substitute m s = Ok s'
    ∧ content s' = mapped m ++ drop (Z.to_nat (inlen m)) (content s)
    ∧ qlen s' = qlen s + (mappedlen m - inlen m)
    ∧ resolved s' = Z.min (inlen m) (mappedlen m)
    ∧ drain (Z.to_nat (resolved s')) s' = Ok s''
    ∧ trace s'' = trace s
        ++ EvMapped m :: (EvKey <$> take (Z.to_nat (resolved s')) (mapped m))
    ∧ content s'' = drop (Z.to_nat (resolved s')) (content s')
    ∧ resolved s'' = 0.
Proof.
  intros Hm Hb Hle Hroom. pose proof Hm as (Hin & Hmap & _).
  destruct (substitute_ok m s) as (q' & Hsub & Hl' & Hc'); [done | done | done |].
  set (s' := log _ _) in *.
  assert (Hq' : qlen s' = qlen s + (mappedlen m - inlen m)) by done.
  assert (Hr' : resolved s' = Z.min (inlen m) (mappedlen m)) by done.
  assert (Hcs : content s' = mapped m ++ drop (Z.to_nat (inlen m)) (content s)).
  { unfold content at 1. by rewrite Hq'. }
  destruct (drain_ok (Z.to_nat (resolved s')) s') as (s'' & ks & Hdr & Hks & Hd).
  { rewrite Hr', Hq'. unfold s', LENGTH in *. unfold_state. rewrite Hl'. lia. }
  { done. }
  destruct Hd as (_ & Hr'' & Hc'' & _ & _ & _ & _ & _ & Ht'' & _).
  assert (Hks' : ks = take (Z.to_nat (resolved s')) (mapped m)).
  { rewrite <- (take_app_length ks (content s'')), <- Hc'', Hks, Hcs.
    rewrite take_app_le by lia. done. }
  exists s', s''. split; [done |]. split; [done |]. split; [done |].
  split; [done |]. split; [done |]. split; [| split].
  - rewrite Ht'', <- Hks'. unfold s'. unfold_state. by rewrite <- app_assoc.
  - rewrite Hc'', <- Hks. by rewrite drop_app_length.
  - rewrite Hr'', Hks. lia.
Qed.

(** C6.  The translator maps [<C-A>] and [<C-a>] to the byte 1, [<C-Z>] and
    [<C-z>] to the byte 26, [<CR>] to a newline and [<Esc>] to the byte 0x1B,
    each a single byte, and it maps a symbolic name it does not know, one
    that is neither a [<C-X>] nor a label, to its own characters with the
    angle brackets, as it does [<Unknown>]. *)
Theorem translate_tokens :
  translate "<C-A>" = Ok (["001"%char], 1) ∧ translate "<C-a>" = Ok (["001"%char], 1)
  ∧ translate "<C-Z>" = Ok (["026"%char], 1) ∧ translate "<C-z>" = Ok (["026"%char], 1)
  ∧ translate "<CR>" = Ok (["010"%char], 1) ∧ translate "<Esc>" = Ok (["027"%char], 1)
  ∧ translate "<Unknown>" = Ok (keys_of "<Unknown>", 9)
  ∧ ∀ body : list ascii,
      Forall name_char body →
      is_ctrl_token ("<"%char :: body ++ [">"%char]) = false →
      is_named_token ("<"%char :: body ++ [">"%char]) = false →
      map_convert_keys (cstr ("<"%char :: body ++ [">"%char]))
        (strlen (cstr ("<"%char :: body ++ [">"%char])))
      = Ok ("<"%char :: body ++ [">"%char],
            Z.of_nat (length ("<"%char :: body ++ [">"%char]))).
Proof.
  repeat (split; [reflexivity |]). intros body. apply map_convert_keys_unknown.
Qed.

(** C7.  Among the maps of the current mode whose lhs is no longer than the
    queue and equals the leading keys of the queue, the lookup selects one
    with the greatest lhs length, and among those of that length the first
    in the list.  [map_insert] puts a map in front of the list, so of two
    maps inserted with the same lhs and mode the one inserted last is the one
    a lookup selects. *)
Theorem lookup_longest_then_first (timeout : bool) s
    (in_0 r1 r2 : list ascii) (mode0 : ascii) (t : state U) :
  wf_state s →
  ∃ s' res amb,
    lookup (mlist s) timeout None 0 s = Ok (s', res, amb)
    ∧ match res with
      | Some m =>
          ∃ l1 l2, mlist s = l1 ++ m :: l2 ∧ full_match s m
            ∧ (∀ m', m' ∈ l1 → full_match s m' → inlen m' < inlen m)
            ∧ (∀ m', m' ∈ l2 → full_match s m' → inlen m' ≤ inlen m)
      | None => ∀ m, m ∈ mlist s → ¬ full_match s m
      end
    ∧ ∃ t1 t2 old new,
        map_insert in_0 r1 mode0 t = Ok t1 ∧ mlist t1 = old :: mlist t
        ∧ map_insert in_0 r2 mode0 t1 = Ok t2 ∧ mlist t2 = new :: old :: mlist t
        ∧ in_ new = in_ old ∧ mode new = mode0 ∧ mode old = mode0
        ∧ map_convert_keys (cstr r2) (strlen (cstr r2)) = Ok (mapped new, mappedlen new)
        ∧ (mlist s = mlist t2 →
           ∀ m, res = Some m → in_ m = in_ new → mode m = mode0 → m = new).
Proof.
  intros Hwf. pose proof Hwf as ((Hr & Hq) & Hb & Hmaps).
  destruct (lookup_ok (mlist s) timeout None 0 s) as (s' & res & Hl & _ & _ & Hsel);
    [done | lia | done |].
  exists s', res, (0 + if timeout then 0 else count_ambiguous s (mlist s)).
  split; [done |].
  assert (Hres : match res with
      | Some m =>
          ∃ l1 l2, mlist s = l1 ++ m :: l2 ∧ full_match s m
            ∧ (∀ m', m' ∈ l1 → full_match s m' → inlen m' < inlen m)
            ∧ (∀ m', m' ∈ l2 → full_match s m' → inlen m' ≤ inlen m)
      | None => ∀ m, m ∈ mlist s → ¬ full_match s m
      end).
  { unfold selects in Hsel. destruct res as [m|]; [| apply Hsel].
    destruct Hsel as [[[=] _] | (l1 & l2 & ? & ? & _ & ? & ?)]. by exists l1, l2. }
  split; [done |].
  destruct (map_insert_ok in_0 r1 mode0 t) as (lhs & rhs1 & Hlhs & _ & Hw1 & Hi1).
  set (old := Build_Map lhs _ rhs1 _ mode0) in *.
  destruct (map_insert_ok in_0 r2 mode0 (set_mlist (old :: mlist t) t))
    as (lhs' & rhs2 & Hlhs' & Hrhs2 & Hw2 & Hi2).
  rewrite Hlhs in Hlhs'. injection Hlhs' as <-.
  set (new := Build_Map lhs _ rhs2 _ mode0) in *.
  eexists _, _, old, new. split; [done |]. split; [done |]. split; [done |].
  split; [done |]. split; [done |]. split; [done |]. split; [done |].
  split; [done |].
  intros Htab m -> Hlhsm Hmode.
  destruct Hres as (l1 & l2 & Hdec & Hfull & H1 & _).
  rewrite Htab in Hdec. cbn [mlist set_mlist] in Hdec.
  destruct l1 as [|m1 l1]; simpl in Hdec; injection Hdec as <- Hrest; [done |].
  exfalso.
  assert (Hwm : wf_Map m).
  { rewrite Forall_forall in Hmaps. apply Hmaps. rewrite Htab.
    cbn [mlist set_mlist]. rewrite Hrest. apply elem_of_cons. right.
    apply elem_of_app. right. by apply elem_of_cons; left. }
  destruct Hwm as (Hinm & _). destruct Hfull as (Hmid & Hlen & Hpre).
  assert (Hinlen : inlen new = inlen m) by (rewrite Hinm, Hlhsm; done).
  assert (inlen new < inlen m); [| lia].
  apply H1; [by apply elem_of_cons; left |].
  unfold full_match. rewrite Hinlen, <- Hlhsm. split; [| done].
  by rewrite <- Hmid, Hmode.
Qed.

(** C8.  [map_delete] translates the lhs given, removes the first map whose
    mode is the mode given and whose lhs is the translated lhs, in length and
    in bytes, and returns true; where no map matches it returns false and
    leaves the state as it is.  The maps that stay are the maps that were
    there, with their mapped keys. *)
Theorem map_delete_first_match (in_0 : list ascii) (mode0 : ascii) s :
  Forall wf_Map (mlist s) →
  ∃ lhs,
    map_convert_keys (cstr in_0) (strlen (cstr in_0)) = Ok (lhs, Z.of_nat (length lhs))
    ∧ ((∃ l1 m l2, mlist s = l1 ++ m :: l2
          ∧ mode m = mode0 ∧ inlen m = Z.of_nat (length lhs) ∧ in_ m = lhs
          ∧ (∀ m', m' ∈ l1 → ¬ (mode m' = mode0 ∧ in_ m' = lhs))
          ∧ map_delete in_0 mode0 s = Ok (true, set_mlist (l1 ++ l2) s))
       ∨ ((∀ m', m' ∈ mlist s → ¬ (mode m' = mode0 ∧ in_ m' = lhs))
          ∧ map_delete in_0 mode0 s = Ok (false, s))).
Proof.
  intros Hwf. destruct (map_convert_keys_total in_0) as (lhs & Hlhs & Hnul).
  exists lhs. split; [done |]. unfold map_delete. rewrite Hlhs, bind_Ok_l.
  destruct (find_link_ok (mlist s) lhs mode0 0 Hwf Hnul)
    as [(l1 & m & l2 & Hl & Hmode & Heq & Hfirst & ->) | [Hnone ->]].
  - left. exists l1, m, l2. split; [done |]. split; [done |].
    split; [| split; [done |]; split; [done |]].
    + rewrite Forall_forall in Hwf. destruct (Hwf m) as (Hi & _); [| by rewrite Hi, Heq].
      rewrite Hl. apply elem_of_app. right. by apply elem_of_cons; left.
    + rewrite bind_Ok_l. cbn [Nat.add]. rewrite Hl, delete_middle. done.
  - right. split; [done |]. by rewrite bind_Ok_l.
Qed.

(** What a call that empties the queue returns, as the code has it: the
    local [match] is reset before every lookup, so the status tells of the
    last resolution of the call only, [MAP_DONE] where it was a substitution
    and [MAP_NOMATCH] where it was an unmapped key or where there was nothing
    to resolve, whatever was resolved before.  The comment above the return
    promises [MAP_DONE] whenever all keys were processed.  So typing one key
    that starts no lhs of the current mode into an empty queue sends that
    key and returns [MAP_NOMATCH]. *)
Theorem drained_call_status :
  (∀ (fuel : nat) (keys : list ascii) (keylen : Z) s (r : MapState) s',
     map_handle_keys fuel keys keylen s = Ok (r, s') → r ≠ MAP_AMBIGUOUS →
     qlen s' = 0
     ∧ ∃ evs, trace s' = trace s ++ evs
         ∧ r = if last_mapped false evs then MAP_DONE else MAP_NOMATCH)
  ∧ (∀ (k : ascii) s,
       wf_state s → qlen s = 0 → 0 < LENGTH (queue s) →
       (∀ m, m ∈ mlist s → mode m = mode_id (vb s) →
             ∃ k' rest, in_ m = k' :: rest ∧ k' ≠ k) →
       ∃ s', (∀ fuel : nat, (2 ≤ fuel)%nat →
                map_handle_keys fuel [k] 1 s = Ok (MAP_NOMATCH, s'))
         ∧ trace s' = trace s ++ [EvLiteral k; EvKey k] ∧ qlen s' = 0).
Proof.
  split.
  - intros fuel keys keylen s r s' H Hr. rewrite map_handle_keys_unfold in H.
    inv_ok H. apply enqueue_inv in Ha as (q & n & ->).
    destruct (arm_timeout_fields keylen s) as (_ & _ & _ & _ & _ & _ & _ & Htr).
    split; [by eapply resolve_drained |].
    apply resolve_status in H as (evs & Ht & ->); [| done].
    exists evs. split; [| done]. rewrite Ht. unfold_state. by rewrite Htr.
  - intros k s Hwf Hq0 Hcap Hno. pose proof Hwf as ((Hres & Hq) & _ & Hmaps).
    destruct (map_handle_keys_refines 2 [k] 1 s MAP_NOMATCH
                (Build_astate [] 0 (feed [k] (vb s))
                   (trace s ++ [EvLiteral k; EvKey k])))
      as (s' & Hrun & Habs & Hwf' & _); [done | simpl; lia | |].
    + unfold handle_keys, abs. rewrite content_empty by done.
      replace (resolved s) with 0 by lia. cbn [a_queue a_resolved a_vb a_trace].
      replace (Z.to_nat (Z.min 1 (LENGTH (queue s) - Z.of_nat (length [])))) with 1%nat
        by (simpl; lia).
      change (bool_decide (1 = 0)) with false.
      loop_step.
      rewrite (bool_decide_eq_false_2 ([k] = [])) by done.
      rewrite no_candidates by done.
      assert ((if bool_decide (Z.land (mode_flags (vb s)) FLAG_NOMAP = 0)
               then (None (A := Map), 0) else (None, 0)) = (None, 0)) as ->
        by (by destruct (bool_decide _)).
      rewrite (bool_decide_eq_false_2 (0 ≠ 0)) by (intros H; by apply H).
      loop_step.
      rewrite (bool_decide_eq_true_2 ([] = [])) by done.
      by rewrite !app_nil_r, <- app_assoc.
    + exists s'. split; [| split].
      * intros fuel Hfuel. by apply (map_handle_keys_mono 2 fuel).
      * by injection Habs as _ _ _ ->.
      * injection Habs as Hc _ _ _. destruct Hwf' as ((? & ?) & _).
        apply (f_equal length) in Hc. rewrite content_length in Hc by lia.
        simpl in Hc. lia.
Qed.


End Claims.

Lemma table_a_ab_wf : wf_state table_a_ab.
Proof. apply (bool_decide_unpack _). vm_compute. exact I. Defined.

Lemma ambiguous_return_resolved_zero_witness :
  ∃ s', Forall wf_Map (mlist table_a_ab) ∧ 0 ≤ resolved table_a_ab
    ∧ handle_keys_vi 3 "a" table_a_ab = Ok (MAP_AMBIGUOUS, s') ∧ resolved s' = 0.
Proof.
  eexists. split; [apply table_a_ab_wf |]. split; [simpl; lia |].
  split; [vm_compute; reflexivity |].
  apply (ambiguous_return_resolved_zero (E := vi_env) 3 (keys_of "a") 1 table_a_ab).
  - apply table_a_ab_wf.
  - simpl. lia.
  - vm_compute. reflexivity.
Defined.

Lemma timeout_on_empty_queue_witness :
  queue_inv table_a_ab ∧ qlen table_a_ab = 0
  ∧ map_handle_keys (E := vi_env) 1 [] 0 table_a_ab = Ok (MAP_NOMATCH, table_a_ab).
Proof.
  split; [apply table_a_ab_wf |]. split; [reflexivity |].
  apply (timeout_on_empty_queue (E := vi_env) 0 [] table_a_ab);
    [apply table_a_ab_wf | reflexivity].
Defined.

Lemma table_long_wf : wf_state table_long.
Proof. apply (bool_decide_unpack _). vm_compute. exact I. Defined.

Lemma expansion_overflows_queue_witness :
  wf_state table_long ∧ qlen table_long = 0 ∧ 0 < LENGTH (queue table_long)
  ∧ ¬ nomap (E := vi_env) table_long
  ∧ mlist table_long = [mk_map "a" "bbbbb" "n"]
  ∧ LENGTH (queue table_long) < mappedlen (mk_map "a" "bbbbb" "n")
  ∧ handle_keys_vi 1 "a" table_long = Undef.
Proof.
  split; [apply table_long_wf |]. split; [reflexivity |].
  split; [reflexivity |]. split; [intros H; by apply H |].
  split; [reflexivity |]. split; [reflexivity |].
  apply (expansion_overflows_queue (E := vi_env) 0 "a"%char
           (mk_map "a" "bbbbb" "n") table_long).
  - apply table_long_wf.
  - reflexivity.
  - reflexivity.
  - intros H. by apply H.
  - reflexivity.
  - reflexivity.
  - reflexivity.
  - reflexivity.
Defined.

Lemma table_ab_x_wf : wf_state table_ab_x.
Proof. apply (bool_decide_unpack _). vm_compute. exact I. Defined.

Lemma table_a_xyz_wf : wf_state table_a_xyz.
Proof. apply (bool_decide_unpack _). vm_compute. exact I. Defined.

Lemma table_a_b_wf : wf_state table_a_b.
Proof. apply (bool_decide_unpack _). vm_compute. exact I. Defined.

Lemma map_handle_keys_terminates_witness :
  (wf_state table_a_xyz ∧ Forall (lightens (rank_key "a" 2)) (mlist table_a_xyz)
   ∧ (∀ m, m ∈ mlist table_a_xyz →
        Z.of_nat (weight (rank_key "a" 2) (stored (keys_of "ab") 2 table_a_xyz))
        + headroom m ≤ LENGTH (queue table_a_xyz))
   ∧ ∃ s', ∀ fuel : nat, (4 < fuel)%nat →
       map_handle_keys (E := vi_env) fuel (keys_of "ab") 2 table_a_xyz
       = Ok (MAP_NOMATCH, s'))
  ∧ (wf_state table_a_b ∧ Forall (lightens (λ _, 0%nat)) (mlist table_a_b)
     ∧ (∀ m, m ∈ mlist table_a_b →
          Z.of_nat (weight (λ _, 0%nat) (stored (keys_of "aaaaa") 5 table_a_b))
          + headroom m ≤ LENGTH (queue table_a_b))
     ∧ ∃ s', ∀ fuel : nat, (4 < fuel)%nat →
         map_handle_keys (E := vi_env) fuel (keys_of "aaaaa") 5 table_a_b
         = Ok (MAP_DONE, s'))
  ∧ (wf_state table_long ∧ Forall (lightens (rank_key "a" 4)) (mlist table_long)
     ∧ ∀ fuel : nat, (5 < fuel)%nat →
         map_handle_keys (E := vi_env) fuel (keys_of "a") 1 table_long = Undef).
Proof.
  assert (H1 : Forall (lightens (rank_key "a" 2)) (mlist table_a_xyz)).
  { apply (bool_decide_unpack _). vm_compute. exact I. }
  assert (H2 : Forall (lightens (λ _, 0%nat)) (mlist table_a_b)).
  { apply (bool_decide_unpack _). vm_compute. exact I. }
  assert (H3 : Forall (lightens (rank_key "a" 4)) (mlist table_long)).
  { apply (bool_decide_unpack _). vm_compute. exact I. }
  split; [| split].
  - split; [apply table_a_xyz_wf |]. split; [done |].
    assert (Hroom : ∀ m, m ∈ mlist table_a_xyz →
              Z.of_nat (weight (rank_key "a" 2) (stored (keys_of "ab") 2 table_a_xyz))
              + headroom m ≤ LENGTH (queue table_a_xyz)).
    { intros m Hin. apply list_elem_of_singleton in Hin as ->.
      vm_compute. discriminate. }
    split; [exact Hroom |].
    destruct (map_handle_keys_terminates (E := vi_env) (rank_key "a" 2) (keys_of "ab") 2
                table_a_xyz) as (out & Hrun & [(r & s' & Hout & _) | Hun] & Hfit);
      [apply table_a_xyz_wf | done | simpl; lia | | by apply Hfit in Hun].
    assert (HW : weight (rank_key "a" 2) (stored (keys_of "ab") 2 table_a_xyz) = 4%nat)
      by (vm_compute; reflexivity).
    rewrite HW in Hrun.
    assert (H5 : ∃ s5, map_handle_keys (E := vi_env) 5 (keys_of "ab") 2 table_a_xyz
                       = Ok (MAP_NOMATCH, s5))
      by (eexists; vm_compute; reflexivity).
    destruct H5 as [s5 H5]. exists s5. intros fuel Hf.
    rewrite (Hrun fuel Hf). rewrite <- H5. symmetry. apply Hrun. lia.
  - split; [apply table_a_b_wf |]. split; [done |].
    assert (Hroom : ∀ m, m ∈ mlist table_a_b →
              Z.of_nat (weight (λ _, 0%nat) (stored (keys_of "aaaaa") 5 table_a_b))
              + headroom m ≤ LENGTH (queue table_a_b)).
    { intros m Hin. apply list_elem_of_singleton in Hin as ->.
      vm_compute. discriminate. }
    split; [exact Hroom |].
    destruct (map_handle_keys_terminates (E := vi_env) (λ _, 0%nat) (keys_of "aaaaa") 5
                table_a_b) as (out & Hrun & [(r & s' & Hout & _) | Hun] & Hfit);
      [apply table_a_b_wf | done | simpl; lia | | by apply Hfit in Hun].
    assert (HW : weight (λ _, 0%nat) (stored (keys_of "aaaaa") 5 table_a_b) = 4%nat)
      by (vm_compute; reflexivity).
    rewrite HW in Hrun.
    assert (H5 : ∃ s5, map_handle_keys (E := vi_env) 5 (keys_of "aaaaa") 5 table_a_b
                       = Ok (MAP_DONE, s5))
      by (eexists; vm_compute; reflexivity).
    destruct H5 as [s5 H5]. exists s5. intros fuel Hf.
    rewrite (Hrun fuel Hf). rewrite <- H5. symmetry. apply Hrun. lia.
  - split; [apply table_long_wf |]. split; [done |].
    destruct (map_handle_keys_terminates (E := vi_env) (rank_key "a" 4) (keys_of "a") 1
                table_long) as (out & Hrun & _);
      [apply table_long_wf | done | simpl; lia |].
    assert (HW : weight (rank_key "a" 4) (stored (keys_of "a") 1 table_long) = 5%nat)
      by (vm_compute; reflexivity).
    rewrite HW in Hrun.
    assert (H6 : map_handle_keys (E := vi_env) 6 (keys_of "a") 1 table_long = Undef)
      by (vm_compute; reflexivity).
    intros fuel Hf.
    rewrite (Hrun fuel Hf). rewrite <- H6. symmetry. apply Hrun. lia.
Defined.

(** The first round for [table_a_ba] and the key [a], and every round after
    it, leave the loop where it started. *)
Lemma looping_first_round (fuel : nat) :
  handle_keys_vi (S fuel) "a" table_a_ba
  = resolve (E := vi_env) fuel false (Some (mk_map "a" "ba" "n"))
      (looping_state [EvMapped (mk_map "a" "ba" "n")]).
Proof. reflexivity. Qed.

Lemma looping_round (fuel : nat) (acc : option Map) (tr : list event) :
  resolve (E := vi_env) (S fuel) false acc (looping_state tr)
  = resolve (E := vi_env) fuel false (Some (mk_map "a" "ba" "n"))
      (looping_state ((tr ++ [EvKey "b"%char]) ++ [EvMapped (mk_map "a" "ba" "n")])).
Proof. reflexivity. Qed.

Lemma looping_forever (fuel : nat) (acc : option Map) (tr : list event) :
  resolve (E := vi_env) fuel false acc (looping_state tr) = OutOfFuel.
Proof.
  revert acc tr. induction fuel as [|fuel IH]; intros acc tr; [done |].
  rewrite looping_round. apply IH.
Qed.

(** C3, as stated, fails: with [a] mapped to [ba], typing [a] makes the loop
    send [b] and find [a] in the queue again, round after round; no number
    of rounds makes [map_handle_keys] return. *)
Lemma recursive_map_never_returns :
  ¬ ∃ (fuel : nat) (r : MapState) (s' : state unit),
      handle_keys_vi fuel "a" table_a_ba = Ok (r, s').
Proof.
  intros (fuel & r & s' & H). destruct fuel as [|fuel]; [done |].
  rewrite looping_first_round, looping_forever in H. done.
Qed.

(** C1.  The code breaks the claim and its own comment, [if all keys where
    processed return MAP_DONE]: one key typed with no map at all is sent to
    the key handler, all keys are processed, and the call returns
    [MAP_NOMATCH], not [MAP_DONE], however many rounds the loop is given. *)
Lemma unmapped_key_returns_nomatch :
  (∃ s', map_handle_keys (E := vi_env) 2 (keys_of "x") 1 (map_init 8 "n" tt)
         = Ok (MAP_NOMATCH, s')
         ∧ keys_sent (trace s') = keys_of "x")
  ∧ ¬ ∃ (fuel : nat) (s' : state unit),
        map_handle_keys (E := vi_env) fuel (keys_of "x") 1 (map_init 8 "n" tt)
        = Ok (MAP_DONE, s').
Proof.
  assert (H2 : ∃ s2, map_handle_keys (E := vi_env) 2 (keys_of "x") 1 (map_init 8 "n" tt)
                     = Ok (MAP_NOMATCH, s2)
                     ∧ keys_sent (trace s2) = keys_of "x").
  { eexists. split; [vm_compute; reflexivity | vm_compute; reflexivity]. }
  split; [done |]. destruct H2 as (s2 & H2 & _).
  intros (fuel & s' & H).
  destruct (decide (2 ≤ fuel)%nat) as [Hle | Hlt].
  - rewrite (map_handle_keys_mono 2 fuel _ _ _ _ Hle H2) in H. discriminate.
  - destruct fuel as [|[|fuel]]; [| | lia]; vm_compute in H; discriminate.
Qed.

(** The status forgets what was resolved before the last lookup: with [a]
    mapped to [1], the keys [ax] return [MAP_NOMATCH] and the keys [xa]
    return [MAP_DONE], both after the same two resolutions; with [a] mapped
    to [xyz], the mapped key [a] returns [MAP_NOMATCH]. *)
Example status_of_last_lookup_only :
  (∃ s', handle_keys_vi 4 "ax" table_a_1 = Ok (MAP_NOMATCH, s')
         ∧ keys_sent (trace s') = keys_of "1x")
  ∧ (∃ s', handle_keys_vi 4 "xa" table_a_1 = Ok (MAP_DONE, s')
           ∧ keys_sent (trace s') = keys_of "x1")
  ∧ (∃ s', handle_keys_vi 5 "a" table_a_xyz = Ok (MAP_NOMATCH, s')
           ∧ keys_sent (trace s') = keys_of "xyz").
Proof.
  split; [| split]; eexists; split; vm_compute; reflexivity.
Qed.

Lemma drained_call_status_witness :
  (∃ s' evs, map_handle_keys (E := vi_env) 2 (keys_of "x") 1 (map_init 8 "n" tt)
             = Ok (MAP_NOMATCH, s')
     ∧ MAP_NOMATCH ≠ MAP_AMBIGUOUS ∧ qlen s' = 0
     ∧ trace s' = trace (map_init 8 "n" tt) ++ evs
     ∧ MAP_NOMATCH = if last_mapped false evs then MAP_DONE else MAP_NOMATCH)
  ∧ wf_state table_a_ab ∧ qlen table_a_ab = 0 ∧ 0 < LENGTH (queue table_a_ab)
  ∧ ∃ s', (∀ fuel : nat, (2 ≤ fuel)%nat →
             map_handle_keys (E := vi_env) fuel ["x"%char] 1 table_a_ab
             = Ok (MAP_NOMATCH, s'))
      ∧ trace s' = trace table_a_ab ++ [EvLiteral "x"%char; EvKey "x"%char]
      ∧ qlen s' = 0.
Proof.
  split.
  - assert (H : ∃ s', map_handle_keys (E := vi_env) 2 (keys_of "x") 1
                        (map_init 8 "n" tt) = Ok (MAP_NOMATCH, s'))
      by (eexists; vm_compute; reflexivity).
    destruct H as [s' H]. exists s'.
    destruct (proj1 (drained_call_status (E := vi_env)) 2%nat (keys_of "x") 1
                (map_init 8 "n" tt) MAP_NOMATCH s' H) as (Hq & evs & Ht & Hr);
      [discriminate |].
    exists evs. split; [exact H |]. split; [discriminate |].
    split; [exact Hq |]. split; [exact Ht | exact Hr].
  - split; [apply table_a_ab_wf |]. split; [reflexivity |]. split; [reflexivity |].
    apply (proj2 (drained_call_status (E := vi_env)) "x"%char table_a_ab).
    + apply table_a_ab_wf.
    + reflexivity.
    + reflexivity.
    + intros m Hin _.
      apply elem_of_cons in Hin as [-> | Hin];
        [by exists "a"%char, ["b"%char] |].
      apply list_elem_of_singleton in Hin as ->. by exists "a"%char, [].
Defined.


(** C5, as stated, fails: with [a] mapped to [bbbbb] and the key [a] alone
    in a queue of four chars, the map is a full match no longer than the
    queue, and the substitution writes the mapped keys behind the end of
    the queue instead of replacing the lhs by them. *)
Lemma substitution_overflows_at_full_match :
  let m := mk_map "a" "bbbbb" "n" in
  let s := with_keys "a" table_long in
  wf_Map m ∧ wf_state s ∧ full_match s m ∧ inlen m ≤ qlen s
  ∧ substitute m s = Undef
  ∧ ¬ ∃ s', substitute m s = Ok s'
            ∧ content s' = mapped m ++ drop (Z.to_nat (inlen m)) (content s)
            ∧ qlen s' = qlen s + (mappedlen m - inlen m)
            ∧ resolved s' = Z.min (inlen m) (mappedlen m).
Proof.
  intros m s.
  assert (Hsub : substitute m s = Undef) by (vm_compute; reflexivity).
  split; [apply (bool_decide_unpack _); vm_compute; exact I |].
  split; [apply (bool_decide_unpack _); vm_compute; exact I |].
  split; [repeat split; vm_compute; (reflexivity || discriminate) |].
  split; [vm_compute; discriminate |].
  split; [exact Hsub |].
  intros (s' & Hok & _). rewrite Hsub in Hok. discriminate.
Qed.

(** With [ab] mapped to [x] and the keys [abab] filling a queue of four
    chars, the loop that deletes keys reads [map.queue[4]], behind the
    array. *)
Example deleting_loop_reads_behind_queue :
  let m := mk_map "ab" "x" "n" in
  let s := with_keys "abab" table_ab_x_short in
  wf_state s ∧ full_match s m ∧ substitute m s = Undef.
Proof.
  intros m s.
  split; [apply (bool_decide_unpack _); vm_compute; exact I |].
  split; [repeat split; vm_compute; (reflexivity || discriminate) |].
  vm_compute. reflexivity.
Qed.

Lemma substitution_replaces_lhs_witness :
  let m := mk_map "ab" "x" "n" in
  let s := with_keys "abc" table_ab_x in
  wf_Map m ∧ bufs_ok s ∧ inlen m ≤ qlen s
  ∧ qlen s + Z.abs (mappedlen m - inlen m) ≤ LENGTH (queue s)
  ∧ ∃ s' s'',
      substitute m s = Ok s'
      ∧ content s' = mapped m ++ drop (Z.to_nat (inlen m)) (content s)
      ∧ qlen s' = qlen s + (mappedlen m - inlen m)
      ∧ resolved s' = Z.min (inlen m) (mappedlen m)
      ∧ drain (E := vi_env) (Z.to_nat (resolved s')) s' = Ok s''
      ∧ trace s'' = trace s
          ++ EvMapped m :: (EvKey <$> take (Z.to_nat (resolved s')) (mapped m))
      ∧ content s'' = drop (Z.to_nat (resolved s')) (content s')
      ∧ resolved s'' = 0.
Proof.
  intros m s.
  assert (Hm : wf_Map m) by (apply (bool_decide_unpack _); vm_compute; exact I).
  assert (Hb : bufs_ok s) by (split; [reflexivity | simpl; lia]).
  split; [done |]. split; [done |].
  split; [vm_compute; discriminate |]. split; [vm_compute; discriminate |].
  apply (substitution_replaces_lhs (E := vi_env) m s); [done | done | |];
    vm_compute; discriminate.
Defined.

Lemma translate_tokens_witness :
  Forall name_char (keys_of "Unknown")
  ∧ is_ctrl_token (keys_of "<Unknown>") = false
  ∧ is_named_token (keys_of "<Unknown>") = false
  ∧ translate "<Unknown>" = Ok (keys_of "<Unknown>", 9).
Proof.
  assert (Hbody : Forall name_char (keys_of "Unknown")).
  { repeat (apply Forall_cons_2 || apply Forall_nil_2);
      repeat split; discriminate. }
  split; [done |]. split; [reflexivity |]. split; [reflexivity |].
  apply (proj2 (proj2 (proj2 (proj2 (proj2 (proj2 (proj2 translate_tokens)))))))
    with (body := keys_of "Unknown"); [done | reflexivity | reflexivity].
Defined.

Lemma lookup_longest_then_first_witness :
  let s := with_keys "ab" table_a_ab in
  wf_state s
  ∧ ∃ s' amb,
      lookup (E := vi_env) (mlist s) false None 0 s
      = Ok (s', Some (mk_map "ab" "2" "n"), amb).
Proof.
  intros s.
  assert (Hwf : wf_state s) by (apply (bool_decide_unpack _); vm_compute; exact I).
  split; [done |].
  destruct (lookup_longest_then_first (E := vi_env) false s (keys_of "a") (keys_of "1")
              (keys_of "2") "n"%char (map_init 8 "n" tt) Hwf)
    as (s' & res & amb & Hl & _).
  exists s', amb. rewrite Hl. f_equal. f_equal. f_equal.
  assert (Hrun : ∃ s2 a2, lookup (E := vi_env) (mlist s) false None 0 s
                          = Ok (s2, Some (mk_map "ab" "2" "n"), a2))
    by (eexists _, _; vm_compute; reflexivity).
  destruct Hrun as (s2 & a2 & Hrun). rewrite Hrun in Hl. by injection Hl as _ <- _.
Defined.

Lemma map_delete_first_match_witness :
  Forall wf_Map (mlist table_a_ab)
  ∧ map_delete (keys_of "a") "n" table_a_ab
    = Ok (true, set_mlist [mk_map "ab" "2" "n"] table_a_ab)
  ∧ map_delete (keys_of "b") "n" table_a_ab = Ok (false, table_a_ab).
Proof.
  split; [apply table_a_ab_wf |].
  destruct (map_delete_first_match (keys_of "a") "n"%char table_a_ab)
    as (lhs & _ & _); [apply table_a_ab_wf |].
  split; reflexivity.
Defined.

(** * More of the translator *)

(** [by_compute] proves a decidable proposition about concrete data by
    evaluating its decision procedure. *)
Ltac by_compute := apply (bool_decide_unpack _); vm_compute; exact I.

Lemma scan_symbol_ge (q : list ascii) (rem symlen n : Z) :
  scan_symbol q rem symlen = Ok n → symlen ≤ n.
Proof.
  revert symlen. induction q as [|c q IH]; intros symlen; simpl.
  - case_bool_decide; [intros [= <-]; lia | done].
  - case_bool_decide; [intros [= <-]; lia |].
    destruct (_ || _); [intros [= <-]; lia |].
    case_bool_decide; [intros Hs; apply IH in Hs; lia | intros [= <-]; lia].
Qed.

Lemma convert_symbol_ge (p : list ascii) (rem : Z) (raw : list ascii)
    (rawlen symlen : Z) :
  convert_symbol p rem = Ok (raw, rawlen, symlen) → 1 ≤ symlen.
Proof.
  unfold convert_symbol. intros H. inv_ok H. apply scan_symbol_ge in Ha.
  inv_ok H. inv_ok H. destruct a1 as [r l].
  destruct (bool_decide (l = 0)); destruct r; simplify_eq; try done.
Qed.

(** The rounds of the translator's loop are counted by the characters left,
    so any number of rounds that is enough gives the same. *)
Lemma map_convert_keys_from_fuel (n n' : nat) (p : list ascii) (rem : Z)
    (str : list ascii) (len : Z) :
  rem ≤ Z.of_nat n → rem ≤ Z.of_nat n' →
  map_convert_keys_from n p rem str len = map_convert_keys_from n' p rem str len.
Proof.
  revert n' p rem str len.
  induction n as [|n IH]; intros [|n'] p rem str len Hn Hn'; simpl; try done.
  - by rewrite bool_decide_eq_false_2 by lia.
  - by rewrite bool_decide_eq_false_2 by lia.
  - case_bool_decide; [| done].
    destruct (rd p 0) as [c| |]; simpl; try done.
    case_bool_decide; [apply IH; lia |].
    destruct (convert_symbol p rem) as [[[raw rawlen] symlen]| |] eqn:Hsym; simpl;
      try done.
    apply convert_symbol_ge in Hsym. apply IH; lia.
Qed.

(** What the loop has translated so far stays in front of what it adds. *)
Lemma map_convert_keys_from_acc (n : nat) (p : list ascii) (rem : Z)
    (str str0 r : list ascii) (len len0 l : Z) :
  map_convert_keys_from n p rem str0 len0 = Ok (r, l) →
  map_convert_keys_from n p rem (str ++ str0) (len + len0) = Ok (str ++ r, len + l).
Proof.
  revert p rem str0 len0.
  induction n as [|n IH]; intros p rem str0 len0; simpl.
  - case_bool_decide; [done | by intros [= <- <-]].
  - case_bool_decide; [| by intros [= <- <-]].
    destruct (rd p 0) as [c| |]; simpl; try done.
    case_bool_decide.
    + intros Hr. apply IH in Hr. by rewrite <- app_assoc, <- Z.add_assoc.
    + destruct (convert_symbol p rem) as [[[raw rawlen] symlen]| |]; simpl; try done.
      intros Hr. apply IH in Hr. by rewrite <- app_assoc, <- Z.add_assoc.
Qed.

Lemma convert_symbol_bound (p : list ascii) (rem : Z) :
  0 < rem ≤ Z.of_nat (length p) →
  ∃ raw rawlen symlen, convert_symbol p rem = Ok (raw, rawlen, symlen)
    ∧ 1 ≤ symlen ≤ rem ∧ rawlen = Z.of_nat (length raw)
    ∧ Z.of_nat (length raw) ≤ symlen
    ∧ (NUL ∉ take (Z.to_nat rem) p → NUL ∉ raw).
Proof.
  intros Hrem.
  destruct (convert_symbol_spec p rem Hrem)
    as (raw & rawlen & symlen & Hsym & Hs & Hl & Hnul).
  exists raw, rawlen, symlen. repeat split; try done; try lia.
  revert Hsym. unfold convert_symbol. intros H. inv_ok H. inv_ok H. inv_ok H.
  destruct a1 as [r l]. pose proof (scan_symbol_ge _ _ _ _ Ha) as Hge.
  assert (Hsl : a ≤ Z.of_nat (length p)).
  { destruct (scan_symbol_spec (drop 1 p) rem 1) as (n & Hn & Hr);
      [lia | rewrite length_drop; lia |]. rewrite Hn in Ha. simplify_eq. lia. }
  assert (Hl01 : (r = None ∧ l = 0) ∨ (∃ ch, r = Some [ch] ∧ l = 1)).
  { destruct (decide (a0 = ">"%char)) as [Hgt | Hgt].
    2: { rewrite (bool_decide_eq_false_2 (a0 = _)) in Ha1 by done.
         simplify_eq. by left. }
    rewrite (bool_decide_eq_true_2 (a0 = _)) in Ha1 by done.
    destruct (convert_ctrl_spec p a Hsl) as (r2 & l2 & Hc & Hok).
    rewrite Hc, bind_Ok_l in Ha1.
    destruct Hok as [[-> ->] | (ch & -> & -> & _)].
    - destruct (map_convert_keylabel_from_spec keylabels p a keylabels_ok Hsl)
        as (r3 & l3 & Hk & Hok3).
      unfold map_convert_keylabel in Ha1. rewrite Hk in Ha1. simplify_eq.
      destruct Hok3 as [[-> ->] | (ch & -> & -> & _)]; [by left | right; by exists ch].
    - simplify_eq. right. by exists ch. }
  destruct Hl01 as [[-> ->] | (ch & -> & ->)]; simpl in H; simplify_eq; simpl; lia.
Qed.

Lemma map_convert_keys_from_bound (n : nat) (p : list ascii) (rem : Z)
    (str : list ascii) (len : Z) :
  rem ≤ Z.of_nat n → 0 ≤ rem ≤ Z.of_nat (length p) →
  NUL ∉ take (Z.to_nat rem) p → NUL ∉ str → len = Z.of_nat (length str) →
  ∃ str', map_convert_keys_from n p rem str len = Ok (str', Z.of_nat (length str'))
          ∧ (NUL ∉ str') ∧ Z.of_nat (length str') ≤ Z.of_nat (length str) + rem.
Proof.
  revert p rem str len.
  induction n as [|n IH]; intros p rem str len Hn Hp Hnul Hstr ->.
  - exists str. simpl. rewrite bool_decide_eq_false_2 by lia. split; [done |].
    split; [done | lia].
  - simpl. case_bool_decide as Hrem; [| exists str; split; [done |]; split; [done | lia]].
    destruct (rd_lt p 0) as (c & -> & Hc); [unfold LENGTH; lia |].
    rewrite bind_Ok_l.
    assert (Hdrop : ∀ k : nat, (k ≤ Z.to_nat rem)%nat →
              NUL ∉ take (Z.to_nat rem - k) (drop k p)).
    { intros k Hk Hin. apply Hnul.
      apply elem_of_take in Hin. destruct Hin as (i & Hi & Hlt).
      rewrite lookup_drop in Hi. apply elem_of_take. exists (k + i)%nat.
      split; [done | lia]. }
    case_bool_decide as Hlt.
    + destruct (IH (drop 1 p) (rem - 1) (str ++ [c]) (Z.of_nat (length str) + 1))
        as (str' & Hrun & Hn' & Hb).
      * lia.
      * rewrite length_drop. lia.
      * replace (Z.to_nat (rem - 1)) with (Z.to_nat rem - 1)%nat by lia.
        apply Hdrop. lia.
      * rewrite not_elem_of_app. split; [done |].
        rewrite list_elem_of_singleton. intros <-. apply Hnul.
        apply elem_of_take. exists 0%nat. split; [done | lia].
      * rewrite length_app. simpl. lia.
      * exists str'. split; [done |]. split; [done |].
        rewrite length_app in Hb. simpl in Hb. lia.
    + destruct (convert_symbol_bound p rem)
        as (raw & rawlen & symlen & -> & Hs & -> & Hle & Hraw); [lia |].
      rewrite bind_Ok_l.
      destruct (IH (drop (Z.to_nat symlen) p) (rem - symlen) (str ++ raw)
                  (Z.of_nat (length str) + Z.of_nat (length raw)))
        as (str' & Hrun & Hn' & Hb).
      * lia.
      * rewrite length_drop. lia.
      * replace (Z.to_nat (rem - symlen)) with (Z.to_nat rem - Z.to_nat symlen)%nat by lia.
        apply Hdrop. lia.
      * rewrite not_elem_of_app. auto.
      * rewrite length_app. lia.
      * exists str'. split; [done |]. split; [done |].
        rewrite length_app in Hb. lia.
Qed.

(** X1.  [map_convert_keys] returns for every C string.  The length it
    stores in [*len] is the length of the string it returns; that string holds
    no NUL, so the length is also its [strlen]; and it is no longer than the
    string given, since a symbolic name is replaced by one key or kept as it
    is. *)
Theorem map_convert_keys_result (in_0 : list ascii) :
  ∃ raw, map_convert_keys (cstr in_0) (strlen (cstr in_0))
         = Ok (raw, Z.of_nat (length raw))
    ∧ (NUL ∉ raw) ∧ strlen (cstr raw) = Z.of_nat (length raw)
    ∧ (length raw ≤ length in_0)%nat.
Proof.
  unfold map_convert_keys.
  destruct (strlen_spec (cstr in_0)) as [Hlen Hnul].
  destruct (map_convert_keys_from_bound (Z.to_nat (strlen (cstr in_0))) (cstr in_0)
              (strlen (cstr in_0)) [] 0) as (raw & Hrun & Hn & Hb);
    try done; try lia; [apply not_elem_of_nil |].
  exists raw. split; [done |]. split; [done |]. split; [by apply strlen_cstr |].
  assert (strlen (cstr in_0) ≤ Z.of_nat (length in_0)); [| simpl in Hb; lia].
  clear. unfold cstr. induction in_0 as [|c s IH]; simpl; [done |].
  case_bool_decide; lia.
Qed.

(** ** The translation goes token by token *)

Lemma map_convert_keys_cstr (s : list ascii) :
  NUL ∉ s →
  map_convert_keys (cstr s) (strlen (cstr s))
  = map_convert_keys_from (length s) (cstr s) (Z.of_nat (length s)) [] 0.
Proof.
  intros Hs. rewrite strlen_cstr by done. unfold map_convert_keys. by rewrite Nat2Z.id.
Qed.

(** A character that is not [<] is added as it is. *)
Lemma map_convert_keys_cons (c : ascii) (rest raw : list ascii) :
  c ≠ "<"%char → c ≠ NUL → NUL ∉ rest →
  map_convert_keys (cstr rest) (strlen (cstr rest)) = Ok (raw, Z.of_nat (length raw)) →
  map_convert_keys (cstr (c :: rest)) (strlen (cstr (c :: rest)))
  = Ok (c :: raw, Z.of_nat (length (c :: raw))).
Proof.
  intros Hc Hn Hrest Hr.
  rewrite map_convert_keys_cstr in Hr by done.
  rewrite map_convert_keys_cstr by (rewrite not_elem_of_cons; done).
  change (cstr (c :: rest)) with (c :: cstr rest).
  cbn [length map_convert_keys_from].
  rewrite bool_decide_eq_true_2 by lia.
  change (rd (c :: cstr rest) 0) with (Ok (A := ascii) c). rewrite bind_Ok_l.
  rewrite bool_decide_eq_true_2 by done.
  change (drop 1 (c :: cstr rest)) with (cstr rest).
  replace (Z.of_nat (S (length rest)) - 1) with (Z.of_nat (length rest)) by lia.
  apply (map_convert_keys_from_acc _ _ _ [c] [] raw 1 0) in Hr.
  change ([] ++ [c]) with ([c] ++ @nil ascii). change (0 + 1) with (1 + 0).
  rewrite Hr. do 2 f_equal. simpl length. lia.
Qed.

(** A symbolic name of [symlen] characters in front is replaced by what
    [convert_symbol] makes of it, and the rest is translated as it would be
    alone. *)
Lemma map_convert_keys_symbol (t rest raw0 raw : list ascii) :
  NUL ∉ t → NUL ∉ rest →
  convert_symbol (cstr (("<"%char :: t) ++ rest))
    (Z.of_nat (length (("<"%char :: t) ++ rest)))
  = Ok (raw0, Z.of_nat (length raw0), Z.of_nat (length ("<"%char :: t))) →
  map_convert_keys (cstr rest) (strlen (cstr rest)) = Ok (raw, Z.of_nat (length raw)) →
  map_convert_keys (cstr (("<"%char :: t) ++ rest))
    (strlen (cstr (("<"%char :: t) ++ rest)))
  = Ok (raw0 ++ raw, Z.of_nat (length (raw0 ++ raw))).
Proof.
  intros Ht Hrest Hsym Hr.
  rewrite map_convert_keys_cstr in Hr by done.
  rewrite map_convert_keys_cstr.
  2: { rewrite not_elem_of_app, not_elem_of_cons. done. }
  set (p := cstr (("<"%char :: t) ++ rest)) in *.
  set (rem := Z.of_nat (length (("<"%char :: t) ++ rest))) in *.
  change (length (("<"%char :: t) ++ rest)) with (S (length (t ++ rest))).
  cbn [map_convert_keys_from].
  rewrite bool_decide_eq_true_2 by (unfold rem; simpl; lia).
  change (rd p 0) with (Ok (A := ascii) "<"%char). rewrite bind_Ok_l.
  rewrite bool_decide_eq_false_2 by (intros Hne; by apply Hne).
  rewrite Hsym, bind_Ok_l. rewrite Nat2Z.id.
  assert (Hdrop : drop (length ("<"%char :: t)) p = cstr rest).
  { unfold p, cstr. rewrite <- app_assoc. by rewrite drop_app_length. }
  rewrite Hdrop.
  replace (rem - Z.of_nat (length ("<"%char :: t))) with (Z.of_nat (length rest))
    by (unfold rem; rewrite length_app; lia).
  rewrite (map_convert_keys_from_fuel _ (length rest)) by (rewrite ?length_app; lia).
  apply (map_convert_keys_from_acc _ _ _ raw0 [] raw (Z.of_nat (length raw0)) 0) in Hr.
  rewrite app_nil_r, Z.add_0_r in Hr. cbn [app]. rewrite Z.add_0_l.
  rewrite Hr. do 2 f_equal. rewrite length_app. lia.
Qed.

(** The search for the [>] runs over the characters of a name and stops
    where the string ends or a [<] or a blank follows. *)
Lemma scan_symbol_open (body tail : list ascii) (rem symlen : Z) :
  Forall name_char body → symlen + Z.of_nat (length body) ≤ rem →
  (symlen + Z.of_nat (length body) = rem ∧ tail ≠ []
   ∨ ∃ c tail', tail = c :: tail' ∧ (c = "<"%char ∨ c = " "%char)) →
  scan_symbol (body ++ tail) rem symlen = Ok (symlen + Z.of_nat (length body)).
Proof.
  intros Hbody. revert symlen.
  induction Hbody as [|c body (Hlt & Hgt & Hsp & _) _ IH]; intros symlen Hrem Htail;
    simpl in *.
  - rewrite Z.add_0_r in *.
    destruct Htail as [[-> Hne] | (c & tail' & -> & Hc)].
    + destruct tail; [done |]. simpl. by rewrite bool_decide_eq_true_2.
    + simpl. case_bool_decide; [done |].
      destruct Hc as [-> | ->]; done.
  - rewrite bool_decide_eq_false_2 by lia.
    rewrite (bool_decide_eq_false_2 (c = "<"%char)) by done.
    rewrite (bool_decide_eq_false_2 (c = " "%char)) by done.
    rewrite bool_decide_eq_true_2 by done. simpl.
    rewrite IH; [f_equal; lia | lia |].
    destruct Htail as [[Heq Hne] | Hc]; [left; split; [lia | done] | by right].
Qed.

(** A name without its [>] is kept as it is. *)
Lemma convert_symbol_open (body tail : list ascii) (rem : Z) :
  Forall name_char body → 1 + Z.of_nat (length body) ≤ rem →
  (1 + Z.of_nat (length body) = rem ∧ tail ≠ []
   ∨ ∃ c tail', tail = c :: tail' ∧ (c = "<"%char ∨ c = " "%char)) →
  convert_symbol ("<"%char :: body ++ tail) rem
  = Ok ("<"%char :: body, Z.of_nat (length ("<"%char :: body)),
        Z.of_nat (length ("<"%char :: body))).
Proof.
  intros Hbody Hrem Htail. unfold convert_symbol.
  change (drop 1 ("<"%char :: body ++ tail)) with (body ++ tail).
  rewrite scan_symbol_open by done. rewrite bind_Ok_l.
  assert (Hlast : ∃ last, rd ("<"%char :: body ++ tail) (1 + Z.of_nat (length body) - 1)
                          = Ok last ∧ last ≠ ">"%char).
  { replace (1 + Z.of_nat (length body) - 1) with (Z.of_nat (length body)) by lia.
    destruct (lookup_lt_is_Some_2 ("<"%char :: body) (length body)) as [last Hl];
      [simpl; lia |].
    exists last. split.
    - apply rd_lookup. change ("<"%char :: body ++ tail) with (("<"%char :: body) ++ tail).
      by apply lookup_app_l_Some.
    - apply list_elem_of_lookup_2 in Hl. apply elem_of_cons in Hl as [-> | Hin]; [done |].
      rewrite Forall_forall in Hbody. by apply Hbody in Hin as (_ & ? & _). }
  destruct Hlast as (last & -> & Hne). rewrite bind_Ok_l.
  rewrite bool_decide_eq_false_2 by done. rewrite bind_Ok_l.
  rewrite bool_decide_eq_true_2 by done.
  replace (Z.to_nat (1 + Z.of_nat (length body))) with (length ("<"%char :: body))
    by (simpl; lia).
  change ("<"%char :: body ++ tail) with (("<"%char :: body) ++ tail).
  rewrite take_app_length. do 3 f_equal; simpl length; lia.
Qed.

Lemma label_raw_unknown (tok : list ascii) :
  tok ∉ (λ key, key.1.1.1) <$> keylabels → label_raw tok = None.
Proof.
  unfold label_raw, keylabels. simpl. rewrite !not_elem_of_cons.
  intros (H1 & H2 & H3 & _).
  rewrite !filter_cons_False by (simpl; congruence). done.
Qed.

(** A name with its [>] is replaced by the key it stands for, if it stands
    for one, and kept as it is if not. *)
Lemma convert_symbol_closed (body rest : list ascii) (rem : Z) :
  Forall name_char body → Z.of_nat (length body) + 2 ≤ rem →
  convert_symbol ("<"%char :: body ++ ">"%char :: rest) rem
  = Ok (token_raw ("<"%char :: body ++ [">"%char]),
        Z.of_nat (length (token_raw ("<"%char :: body ++ [">"%char]))),
        Z.of_nat (length ("<"%char :: body ++ [">"%char]))).
Proof.
  intros Hbody Hrem. set (tok := "<"%char :: body ++ [">"%char]).
  set (p := "<"%char :: body ++ ">"%char :: rest).
  assert (Hp : p = tok ++ rest).
  { unfold p, tok. simpl. by rewrite <- app_assoc. }
  assert (Hlen : Z.of_nat (length tok) = Z.of_nat (length body) + 2).
  { unfold tok. simpl. rewrite length_app. simpl. lia. }
  unfold convert_symbol.
  change (drop 1 p) with (body ++ ">"%char :: rest).
  rewrite scan_symbol_name by (done || lia). rewrite bind_Ok_l.
  replace (1 + Z.of_nat (length body) + 1) with (Z.of_nat (length tok)) by lia.
  assert (Hlast : rd p (Z.of_nat (length tok) - 1) = Ok ">"%char).
  { apply rd_Ok. split; [lia |].
    replace (Z.to_nat (Z.of_nat (length tok) - 1)) with (S (length body)) by lia.
    unfold p. simpl. by rewrite list_lookup_middle. }
  rewrite Hlast, bind_Ok_l. rewrite bool_decide_eq_true_2 by done.
  assert (Hinner : ∃ r l,
    ('(raw, rawlen) ← convert_ctrl p (Z.of_nat (length tok));
     match raw with
     | Some _ => Ok (raw, rawlen)
     | None => map_convert_keylabel p (Z.of_nat (length tok))
     end) = Ok (r, l)
    ∧ ((r = None ∧ l = 0 ∧ token_raw tok = tok)
       ∨ (r = Some (token_raw tok) ∧ l = 1 ∧ length (token_raw tok) = 1%nat))).
  { destruct (is_ctrl_token tok) eqn:Hctrl.
    - (* a <C-X> *)
      unfold tok in Hctrl.
      destruct body as [|c [|dash [|x [|? [|? ?]]]]]; simpl in Hctrl; try discriminate.
      apply andb_true_iff in Hctrl as [Hctrl Hx].
      apply andb_true_iff in Hctrl as [Hctrl _].
      apply andb_true_iff in Hctrl as [Hc Hdash].
      apply bool_decide_eq_true in Hdash, Hc. subst c dash.
      eexists _, _. split; [| right; split; [reflexivity |]].
      + unfold convert_ctrl, p. simpl.
        assert (Htr : token_raw tok = [ctrl_raw x]).
        { unfold token_raw, tok. simpl. by rewrite Hx. }
        rewrite Htr. unfold ctrl_raw.
        apply orb_true_iff in Hx. rewrite !bool_decide_eq_true in Hx.
        destruct (decide (char_code x ≤ 93)) as [Hle | Hgt].
        * rewrite (bool_decide_eq_true_2 (65 ≤ char_code x)) by lia.
          rewrite !(bool_decide_eq_true_2 (char_code x ≤ 93)) by lia. done.
        * rewrite !(bool_decide_eq_false_2 (char_code x ≤ 93)) by lia.
          rewrite andb_false_r.
          rewrite (bool_decide_eq_true_2 (97 ≤ char_code x)) by lia.
          rewrite (bool_decide_eq_true_2 (char_code x ≤ 122)) by lia. done.
      + split; [done |]. unfold token_raw, tok. simpl. by rewrite Hx.
    - (* not a <C-X> *)
      unfold p. rewrite Hlen. rewrite convert_ctrl_unknown by done. rewrite bind_Ok_l.
      fold p. rewrite <- Hlen.
      destruct (decide (tok ∈ (λ key, key.1.1.1) <$> keylabels)) as [Hin | Hnot].
      + (* a label *)
        unfold keylabels in Hin. simpl in Hin. rewrite !elem_of_cons in Hin.
        unfold token_raw. rewrite Hctrl.
        destruct Hin as [Heq | [Heq | [Heq | Hnil]]];
          [| | | by apply elem_of_nil in Hnil];
          rewrite Hp, Heq; eexists _, _; (split; [reflexivity |]);
          right; done.
      + rewrite Hp. unfold map_convert_keylabel.
        rewrite map_convert_keylabel_from_unknown; [| | done].
        * eexists _, _. split; [done |]. left. split; [done |]. split; [done |].
          unfold token_raw. by rewrite Hctrl, label_raw_unknown.
        * unfold keylabels. repeat apply Forall_cons_2; try apply Forall_nil_2;
            (split; [done |]); simpl; rewrite !not_elem_of_cons;
            repeat split; try discriminate; apply not_elem_of_nil. }
  destruct Hinner as (r & l & -> & Hcases). rewrite bind_Ok_l.
  destruct Hcases as [(-> & -> & Htok) | (-> & -> & Hone)].
  - rewrite bool_decide_eq_true_2 by done. rewrite Htok, Hp.
    rewrite Nat2Z.id, take_app_length. done.
  - rewrite bool_decide_eq_false_2 by done.
    change (Z.to_nat 1) with 1%nat. rewrite Hone.
    destruct (token_raw tok) as [|b [|? ?]]; simpl in Hone; try discriminate. done.
Qed.

(** X2.  A key sequence written without [<] means itself: [map_convert_keys]
    returns it unchanged, with its length. *)
Theorem map_convert_keys_plain (s : list ascii) :
  "<"%char ∉ s → NUL ∉ s →
  map_convert_keys (cstr s) (strlen (cstr s)) = Ok (s, Z.of_nat (length s)).
Proof.
  induction s as [|c s IH]; intros Hlt Hnul; [done |].
  rewrite not_elem_of_cons in Hlt, Hnul.
  destruct Hlt as [Hc Hlt], Hnul as [Hn Hnul].
  apply map_convert_keys_cons; auto.
Qed.

Lemma map_convert_keys_plain_witness :
  ("<"%char ∉ keys_of "gg") ∧ (NUL ∉ keys_of "gg")
  ∧ map_convert_keys (cstr (keys_of "gg")) (strlen (cstr (keys_of "gg")))
    = Ok (keys_of "gg", 2).
Proof.
  assert (H1 : "<"%char ∉ keys_of "gg") by by_compute.
  assert (H2 : NUL ∉ keys_of "gg") by by_compute.
  split; [done |]. split; [done |].
  exact (map_convert_keys_plain (keys_of "gg") H1 H2).
Defined.

(** A symbolic name with its [>] in front of a string is replaced by the
    key it stands for, or kept where it stands for none, and the string is
    translated as it would be alone. *)
Lemma map_convert_keys_closed (body rest raw : list ascii) :
  Forall name_char body → NUL ∉ rest →
  map_convert_keys (cstr rest) (strlen (cstr rest)) = Ok (raw, Z.of_nat (length raw)) →
  map_convert_keys (cstr (("<"%char :: body ++ [">"%char]) ++ rest))
    (strlen (cstr (("<"%char :: body ++ [">"%char]) ++ rest)))
  = Ok (token_raw ("<"%char :: body ++ [">"%char]) ++ raw,
        Z.of_nat (length (token_raw ("<"%char :: body ++ [">"%char]) ++ raw))).
Proof.
  intros Hb Hrest Hraw.
  assert (Hbody : NUL ∉ body).
  { intros Hin. rewrite Forall_forall in Hb. by apply Hb in Hin as (_ & _ & _ & ?). }
  change ("<"%char :: body ++ [">"%char]) with ("<"%char :: (body ++ [">"%char])).
  apply map_convert_keys_symbol; [| done | | done].
  - rewrite not_elem_of_app, list_elem_of_singleton. split; [done | done].
  - assert (Hp : cstr (("<"%char :: body ++ [">"%char]) ++ rest)
                 = "<"%char :: body ++ ">"%char :: cstr rest).
    { unfold cstr. simpl. by rewrite <- !app_assoc. }
    rewrite Hp. apply convert_symbol_closed; [done |].
    simpl. rewrite !length_app. simpl. lia.
Qed.

(** A [<] with the characters of a name behind it and no [>] before the
    end of the string, the next [<] or a blank is kept as it is. *)
Lemma map_convert_keys_open (body rest raw : list ascii) :
  Forall name_char body → NUL ∉ rest →
  rest = [] ∨ (∃ c rest', rest = c :: rest' ∧ (c = "<"%char ∨ c = " "%char)) →
  map_convert_keys (cstr rest) (strlen (cstr rest)) = Ok (raw, Z.of_nat (length raw)) →
  map_convert_keys (cstr (("<"%char :: body) ++ rest))
    (strlen (cstr (("<"%char :: body) ++ rest)))
  = Ok (("<"%char :: body) ++ raw, Z.of_nat (length (("<"%char :: body) ++ raw))).
Proof.
  intros Hb Hrest Htail Hraw.
  assert (Hbody : NUL ∉ body).
  { intros Hin. rewrite Forall_forall in Hb. by apply Hb in Hin as (_ & _ & _ & ?). }
  apply map_convert_keys_symbol; [done | done | | done].
  assert (Hp : cstr (("<"%char :: body) ++ rest) = "<"%char :: body ++ cstr rest).
  { unfold cstr. simpl. by rewrite <- !app_assoc. }
  rewrite Hp. apply convert_symbol_open; [done | |].
  - simpl. rewrite length_app. lia.
  - destruct Htail as [-> | (c & rest' & -> & Hc)].
    + left. split; [simpl; rewrite app_nil_r; lia | done].
    + right. by exists c, (cstr rest').
Qed.

(** X3.  [map_convert_keys] translates token by token: what stands in front
    of a string [rest] is translated on its own and [rest] after it as if it
    stood alone.  A character other than [<] is kept; a symbolic name with
    its [>] gives the control character of a [<C-X>], the key of a label, or
    else its own characters; a [<] with the characters of a name behind it
    but no [>] before the end, the next [<] or a blank is kept as it is. *)
Theorem map_convert_keys_tokenwise (rest : list ascii) :
  NUL ∉ rest →
  ∃ raw,
    map_convert_keys (cstr rest) (strlen (cstr rest)) = Ok (raw, Z.of_nat (length raw))
    ∧ (∀ c, c ≠ "<"%char → c ≠ NUL →
         map_convert_keys (cstr (c :: rest)) (strlen (cstr (c :: rest)))
         = Ok (c :: raw, Z.of_nat (length (c :: raw))))
    ∧ (∀ body, Forall name_char body →
         map_convert_keys (cstr (("<"%char :: body ++ [">"%char]) ++ rest))
           (strlen (cstr (("<"%char :: body ++ [">"%char]) ++ rest)))
         = Ok (token_raw ("<"%char :: body ++ [">"%char]) ++ raw,
               Z.of_nat (length (token_raw ("<"%char :: body ++ [">"%char]) ++ raw))))
    ∧ (∀ body, Forall name_char body →
         rest = [] ∨ (∃ c rest', rest = c :: rest' ∧ (c = "<"%char ∨ c = " "%char)) →
         map_convert_keys (cstr (("<"%char :: body) ++ rest))
           (strlen (cstr (("<"%char :: body) ++ rest)))
         = Ok (("<"%char :: body) ++ raw,
               Z.of_nat (length (("<"%char :: body) ++ raw)))).
Proof.
  intros Hrest.
  destruct (map_convert_keys_total rest) as (raw & Hraw & _).
  exists raw. split; [done |]. split; [| split].
  - intros c Hc Hn. by apply map_convert_keys_cons.
  - intros body Hb. by apply map_convert_keys_closed.
  - intros body Hb Htail. by apply map_convert_keys_open.
Qed.

Lemma map_convert_keys_tokenwise_witness :
  (NUL ∉ keys_of "x")
  ∧ ∃ raw,
      map_convert_keys (cstr (keys_of "x")) (strlen (cstr (keys_of "x")))
      = Ok (raw, Z.of_nat (length raw))
      ∧ map_convert_keys (cstr (keys_of "<C-w>x")) (strlen (cstr (keys_of "<C-w>x")))
        = Ok ("023"%char :: raw, Z.of_nat (length ("023"%char :: raw))).
Proof.
  assert (H : NUL ∉ keys_of "x") by by_compute.
  split; [done |].
  destruct (map_convert_keys_tokenwise (keys_of "x") H) as (raw & Hraw & _ & Htok & _).
  exists raw. split; [done |].
  apply (Htok (keys_of "C-w")).
  repeat apply Forall_cons_2; try apply Forall_nil_2; by repeat split.
Defined.

(** * More of the engine *)

(** ** The loop does what the protocol tells, and nothing else *)

Section Completeness.
Context {U : Type} {E : Env U}.
Implicit Type s : state U.

(** A substitution that returns has stayed inside the queue. *)
Lemma substitute_Ok_room (m : Map) s s' :
  wf_Map m → inlen m ≤ qlen s ≤ LENGTH (queue s) → substitute m s = Ok s' →
  qlen s + Z.abs (mappedlen m - inlen m) ≤ LENGTH (queue s).
Proof.
  intros Hm Hq Hsub.
  destruct (decide (qlen s + Z.abs (mappedlen m - inlen m) ≤ LENGTH (queue s)))
    as [Hroom | Hroom]; [done | exfalso].
  by rewrite substitute_no_room in Hsub by (done || lia).
Qed.

(** What the loop returns, the protocol returns. *)
Lemma resolve_complete (fuel : nat) (timeout : bool) (acc : option Map) s
    (r : MapState) s' :
  wf_state s → resolve fuel timeout acc s = Ok (r, s') →
  handle_loop fuel (mlist s) (LENGTH (queue s)) timeout acc (abs s)
  = AReturn r (abs s').
Proof.
  revert acc s. induction fuel as [|fuel IH]; intros acc s Hwf H; [done |].
  rewrite handle_loop_unfold. rewrite resolve_unfold in H.
  pose proof Hwf as ((Hr & Hq) & Hb & Hmaps).
  destruct (drain_ok (Z.to_nat (resolved s)) s) as (s1 & ks & Hdr & Hks & Hd);
    [lia | done |].
  rewrite Hdr, bind_Ok_l in H.
  destruct Hd as (Hq1 & Hr1 & Hc1 & Hl1 & Hm1 & Ht1 & Hs1 & Hn1 & Htr1 & Hv1 & Hb1).
  assert (Hwf1 : wf_state s1).
  { unfold wf_state, queue_inv, LENGTH in *. rewrite Hm1, Hl1. split; [lia | done]. }
  cbn [abs a_queue a_resolved a_vb a_trace].
  assert (Htake : take (Z.to_nat (resolved s)) (content s) = ks).
  { rewrite Hc1, <- Hks. apply take_app_length. }
  assert (Hdrop : drop (Z.to_nat (resolved s)) (content s) = content s1).
  { rewrite Hc1, <- Hks. apply drop_app_length. }
  cbv zeta. rewrite Htake, Hdrop, <- Hv1, <- Htr1.
  assert (Hlen1 : length (content s1) = Z.to_nat (qlen s1)).
  { apply content_length. unfold LENGTH in *. lia. }
  destruct (decide (qlen s1 = 0)) as [Hq0 | Hq0].
  { rewrite bool_decide_eq_true_2 in H by done.
    assert (Hnil : content s1 = []).
    { apply length_zero_iff_nil. lia. }
    rewrite bool_decide_eq_true_2 by done. injection H as <- <-. reflexivity. }
  rewrite bool_decide_eq_false_2 in H by done.
  rewrite bool_decide_eq_false_2
    by (intros Hnil; rewrite Hnil in Hlen1; simpl in Hlen1; unfold LENGTH in *; lia).
  destruct (lookup_round_candidates timeout s1) as (s2 & Hlk & Hd2 & Hb2); [done |].
  rewrite Hlk, bind_Ok_l in H. rewrite <- Hm1.
  destruct (if bool_decide (Z.land (mode_flags (vb s1)) FLAG_NOMAP = 0)
            then lookup_candidates (mlist s1) (content s1) (mode_id (vb s1)) timeout
            else (None, 0)) as [best amb] eqn:Hcand.
  cbn [fst snd] in H.
  assert (Hwf2 : wf_state s2) by (by eapply wf_state_display).
  pose proof Hd2 as (Hm2 & Hqu2 & Hql2 & Hr2 & Ht2 & Hv2 & Hs2 & Hn2 & Htr2).
  assert (Hc2 : content s2 = content s1) by (unfold content; by rewrite Hqu2, Hql2).
  destruct (bool_decide (amb ≠ 0)).
  { injection H as <- <-. f_equal.
    unfold abs. rewrite Hc2, Hr2, Hv2, Htr2, Hr1, Hks, Z2Nat.id by lia.
    f_equal. lia. }
  destruct best as [m|].
  - assert (Hbest : best_match (mode_id (vb s1)) (content s1) (mlist s1) None = Some m).
    { revert Hcand. case_bool_decide; [| done]. unfold lookup_candidates. congruence. }
    apply best_match_in in Hbest as [[=] | [Hin Hfull]].
    assert (Hm : wf_Map m).
    { rewrite Forall_forall in Hmaps. apply Hmaps. by rewrite <- Hm1. }
    apply full_match_is_full in Hfull as (_ & Hle & _); [| unfold LENGTH in *; lia].
    inv_ok H. rename a into s3, Ha into Hsub.
    pose proof (substitute_Ok_room m s2 s3 Hm) as Hroom.
    rewrite Hqu2, Hql2 in Hroom. unfold LENGTH in Hroom. rewrite Hl1 in Hroom.
    unfold LENGTH in *.
    specialize (Hroom ltac:(lia) Hsub).
    rewrite bool_decide_eq_true_2 by (rewrite Hlen1; lia).
    destruct (substitute_ok m s2) as (q' & Hsub' & Hl' & Hc');
      [done | lia | unfold LENGTH in *; rewrite Hqu2, Hql2, Hl1; lia |].
    rewrite Hsub' in Hsub. injection Hsub as <-.
    set (s3 := log _ _) in *.
    apply IH in H.
    + rewrite <- H. unfold s3 at 1 2. unfold_state. unfold LENGTH.
      rewrite Hm2, Hl', Hqu2, Hl1. f_equal.
      unfold abs, content, s3. unfold_state. rewrite Hc', Hc2, Hv2, Htr2. done.
    + destruct Hm as (? & ? & _).
      unfold wf_state, queue_inv, bufs_ok, LENGTH in *. unfold s3. unfold_state.
      rewrite Hm2, Hl'. rewrite Hqu2, Hql2 in *. split; [lia | tauto].
  - destruct (literal_ok s2) as (buf & sl & k & Hk & Hlit & Hlb & Hsl);
      [unfold LENGTH in *; rewrite Hqu2, Hql2, Hl1; lia | done |].
    rewrite Hlit, bind_Ok_l in H.
    set (s3 := set_statusbar_cmd _ _) in *.
    apply IH in H.
    + rewrite <- H. unfold s3 at 1 2. unfold_state. unfold LENGTH.
      rewrite Hm2, Hqu2, Hl1. f_equal.
      unfold abs, s3. unfold_state.
      replace (content (set_statusbar_cmd (c_string buf)
                 (set_showbuf buf sl (log (EvLiteral k) (set_resolved 1 s2)))))
        with (content s2) by reflexivity.
      rewrite Hc2, Hv2, Htr2. do 3 f_equal.
      rewrite <- Hc2. unfold content.
      destruct (queue s2) as [|k0 q0] eqn:Hqueue; [done |].
      injection Hk as ->.
      destruct (Z.to_nat (qlen s2)) eqn:Hz; [lia | done].
    + unfold wf_state, queue_inv, bufs_ok, LENGTH in *. unfold s3. unfold_state.
      rewrite Hm2. rewrite Hqu2, Hql2 in *. split; [lia | tauto].
Qed.

(** What [map_handle_keys] returns, the protocol returns for the call; the
    state stays well formed, and the table, the size of the queue and the
    timeout that the call has started stay as they are. *)
Lemma map_handle_keys_complete (fuel : nat) (keys : list ascii) (keylen : Z) s
    (r : MapState) s' :
  wf_state s → keylen ≤ Z.of_nat (length keys) →
  map_handle_keys fuel keys keylen s = Ok (r, s') →
  handle_keys fuel (mlist s) (LENGTH (queue s)) keys keylen (abs s) = AReturn r (abs s')
  ∧ wf_state s' ∧ mlist s' = mlist s ∧ length (queue s') = length (queue s)
  ∧ timout_id s' = timout_id (arm_timeout keylen s)
  ∧ sources s' = sources (arm_timeout keylen s)
  ∧ next_source s' = next_source (arm_timeout keylen s).
Proof.
  intros Hwf Hk H. unfold handle_keys. rewrite map_handle_keys_unfold in H.
  destruct (arm_timeout_fields keylen s) as (Hm & Hqu & Hql & Hr & Hsb & Hsl & Hv & Htr).
  pose proof Hwf as ((Hres & Hq) & (Hb1 & Hb2) & Hmaps).
  set (s0 := arm_timeout keylen s) in *.
  destruct (enqueue_ok keys keylen s0) as (q & Henq & Hl & Hc);
    [rewrite Hql, Hqu; lia | lia |].
  rewrite Henq, bind_Ok_l in H.
  set (n := Z.to_nat (Z.min keylen (LENGTH (queue s0) - qlen s0))) in *.
  set (s1 := set_qlen (qlen s0 + Z.of_nat n) (set_queue q s0)) in *.
  assert (Hn : 0 ≤ Z.of_nat n ∧ qlen s0 + Z.of_nat n ≤ LENGTH (queue s0)).
  { unfold n. rewrite Hql, Hqu. lia. }
  assert (Hwf1 : wf_state s1).
  { unfold wf_state, queue_inv, bufs_ok, LENGTH in *. unfold s1. unfold_state.
    rewrite Hm, Hr, Hql, Hsb, Hsl, Hl, Hqu in *. split; [lia | done]. }
  pose proof (resolve_complete _ _ _ _ _ _ Hwf1 H) as Hcomp.
  destruct (resolve_refines _ _ _ _ _ _ Hwf1 Hcomp)
    as (s'' & Hrun & Habs & Hwf' & Hm' & Hl' & Ht' & Hs' & Hn').
  rewrite H in Hrun. injection Hrun as <-.
  split.
  - rewrite <- Hcomp.
    assert (Hcs : content s0 = content s) by (unfold content; by rewrite Hql, Hqu).
    assert (Hcs1 : content s1 = content s ++ take n keys).
    { unfold content at 1. unfold s1. unfold_state.
      replace (Z.to_nat (qlen s0 + Z.of_nat n)) with (Z.to_nat (qlen s0) + n)%nat by lia.
      by rewrite Hc, Hcs. }
    replace (mlist s1) with (mlist s) by (unfold s1; unfold_state; by rewrite Hm).
    replace (LENGTH (queue s1)) with (LENGTH (queue s))
      by (unfold s1, LENGTH; unfold_state; by rewrite Hl, Hqu).
    f_equal. unfold abs. rewrite Hcs1. cbn [a_queue a_resolved a_vb a_trace].
    replace (resolved s1) with (resolved s) by (unfold s1; unfold_state; by rewrite Hr).
    replace (vb s1) with (vb s) by (unfold s1; unfold_state; by rewrite Hv).
    replace (trace s1) with (trace s) by (unfold s1; unfold_state; by rewrite Htr).
    rewrite (content_length s) by lia.
    do 3 f_equal. unfold n, LENGTH. rewrite Hql, Hqu. lia.
  - split; [done |]. unfold s1 in *. unfold_state.
    rewrite Hm', Hl', Ht', Hs', Hn', Hm, Hl, Hqu. done.
Qed.

End Completeness.

(** ** What a call does with the keys *)

Section Calls2.
Context {U : Type} {E : Env U}.
Implicit Type s : state U.

Lemma best_match_keep (id : ascii) (c : list ascii) (l : list Map) (m0 : Map) :
  (∀ m, m ∈ l → is_full id c m = true → inlen m ≤ inlen m0) →
  best_match id c l (Some m0) = Some m0.
Proof.
  induction l as [|m l IH]; intros Hl; [done |]. simpl.
  destruct (is_full id c m) eqn:Hf; simpl.
  - rewrite bool_decide_eq_false_2.
    + apply IH. intros m' Hin. apply Hl. by apply elem_of_cons; right.
    + assert (inlen m ≤ inlen m0); [| lia]. apply Hl; [by apply elem_of_cons; left | done].
  - apply IH. intros m' Hin. apply Hl. by apply elem_of_cons; right.
Qed.

Lemma ambiguous_count_nonneg (id : ascii) (c : list ascii) (l : list Map) :
  0 ≤ ambiguous_count id c l.
Proof. induction l as [|m l IH]; simpl; [done |]. destruct (is_ambiguous id c m); lia. Qed.

Lemma ambiguous_count_zero (id : ascii) (c : list ascii) (l : list Map) :
  (∀ m, m ∈ l → is_ambiguous id c m = false) → ambiguous_count id c l = 0.
Proof.
  induction l as [|m l IH]; intros Hl; [done |]. simpl.
  rewrite (Hl m) by (by apply elem_of_cons; left).
  rewrite IH; [done |]. intros m' Hin. apply Hl. by apply elem_of_cons; right.
Qed.

Lemma ambiguous_count_pos (id : ascii) (c : list ascii) (l : list Map) :
  ambiguous_count id c l ≠ 0 ↔ ∃ m, m ∈ l ∧ is_ambiguous id c m = true.
Proof.
  split.
  - induction l as [|m l IH]; simpl; [done |].
    destruct (is_ambiguous id c m) eqn:Ha.
    + intros _. exists m. split; [by apply elem_of_cons; left | done].
    + intros Hne. destruct IH as (m' & Hin & Hm'); [lia |].
      exists m'. split; [by apply elem_of_cons; right | done].
  - intros (m & Hin & Hm). induction l as [|m' l IH]; [by apply elem_of_nil in Hin |].
    simpl. pose proof (ambiguous_count_nonneg id c l).
    apply elem_of_cons in Hin as [<- | Hin]; [rewrite Hm; lia |].
    specialize (IH Hin). destruct (is_ambiguous id c m'); lia.
Qed.

(** The protocol returns [MAP_AMBIGUOUS] only from a call that handles no
    timeout, with mapping switched on, and with keys left that start the lhs
    of a map of the mode without being all of it. *)
Lemma handle_loop_ambiguous (fuel : nat) (l : list Map) (cap : Z) (timeout : bool)
    (acc : option Map) (a a' : astate U) :
  handle_loop fuel l cap timeout acc a = AReturn MAP_AMBIGUOUS a' →
  timeout = false ∧ Z.land (mode_flags (a_vb a')) FLAG_NOMAP = 0
  ∧ a_queue a' ≠ []
  ∧ ambiguous_count (mode_id (a_vb a')) (a_queue a') l ≠ 0.
Proof.
  revert acc a. induction fuel as [|fuel IH]; intros acc a H; [done |].
  rewrite handle_loop_unfold in H. cbv zeta in H.
  case_bool_decide as Hq; [by destruct acc |].
  destruct (decide (Z.land (mode_flags (feed (take (Z.to_nat (a_resolved a)) (a_queue a))
                                          (a_vb a))) FLAG_NOMAP = 0)) as [Hflag | Hflag].
  - rewrite (bool_decide_eq_true_2 (Z.land _ _ = 0)) in H by done.
    unfold lookup_candidates in H.
    destruct (decide ((if timeout then 0
                       else ambiguous_count
                              (mode_id (feed (take (Z.to_nat (a_resolved a)) (a_queue a))
                                          (a_vb a)))
                              (drop (Z.to_nat (a_resolved a)) (a_queue a)) l) ≠ 0))
      as [Hamb | Hamb].
    + rewrite (bool_decide_eq_true_2 (_ ≠ 0)) in H by done.
      injection H as <-. cbn [a_queue a_vb].
      destruct timeout; [done |]. done.
    + rewrite (bool_decide_eq_false_2 (_ ≠ 0)) in H by done.
      destruct (best_match _ _ l None) as [m|].
      * case_bool_decide; [| done]. by apply IH in H.
      * by apply IH in H.
  - rewrite (bool_decide_eq_false_2 (Z.land _ _ = 0)) in H by done.
    rewrite (bool_decide_eq_false_2 (0 ≠ 0)) in H by (intros Hne; by apply Hne).
    by apply IH in H.
Qed.

(** Whatever the protocol returns, no key is left resolved. *)
Lemma handle_loop_resolved (fuel : nat) (l : list Map) (cap : Z) (timeout : bool)
    (acc : option Map) (a a' : astate U) (r : MapState) :
  handle_loop fuel l cap timeout acc a = AReturn r a' → a_resolved a' = 0.
Proof.
  revert acc a. induction fuel as [|fuel IH]; intros acc a H; [done |].
  rewrite handle_loop_unfold in H. cbv zeta in H.
  case_bool_decide as Hq; [by injection H as <- <- |].
  destruct (if bool_decide _ then lookup_candidates _ _ _ _ else _) as [best amb].
  case_bool_decide; [by injection H as <- <- |].
  destruct best as [m|].
  - case_bool_decide; [| done]. by apply IH in H.
  - by apply IH in H.
Qed.

(** X4.  Every call of [map_handle_keys] that runs to its end inside the
    arrays returns with the state as sound as it found it: [map.resolved] is 0
    and [0 ≤ map.qlen ≤ LENGTH(map.queue)], the display buffer and its index
    are in range, and the table of maps and the size of the queue are what
    they were. *)
Theorem map_handle_keys_keeps_invariant (fuel : nat) (keys : list ascii)
    (keylen : Z) s (r : MapState) s' :
  wf_state s → keylen ≤ Z.of_nat (length keys) →
  map_handle_keys fuel keys keylen s = Ok (r, s') →
  wf_state s' ∧ resolved s' = 0 ∧ mlist s' = mlist s
  ∧ length (queue s') = length (queue s).
Proof.
  intros Hwf Hk H.
  destruct (map_handle_keys_complete _ _ _ _ _ _ Hwf Hk H) as (Hp & Hwf' & Hm & Hl & _).
  split; [done |]. split; [| done].
  unfold handle_keys in Hp. by apply handle_loop_resolved in Hp.
Qed.

(** X5.  [map_handle_keys] returns [MAP_AMBIGUOUS] only when it has been
    given keys, with mapping not switched off by the nomap flag, and with keys
    left in the queue that are the beginning, and not all, of the lhs of a map
    of the current mode. *)
Theorem ambiguous_means_prefix_pending (fuel : nat) (keys : list ascii)
    (keylen : Z) s s' :
  wf_state s → keylen ≤ Z.of_nat (length keys) →
  map_handle_keys fuel keys keylen s = Ok (MAP_AMBIGUOUS, s') →
  keylen ≠ 0 ∧ ¬ nomap s' ∧ 0 < qlen s'
  ∧ ∃ m, m ∈ mlist s' ∧ ambiguous_match s' m.
Proof.
  intros Hwf Hk H.
  destruct (map_handle_keys_complete _ _ _ _ _ _ Hwf Hk H) as (Hp & Hwf' & Hm & _).
  unfold handle_keys in Hp. apply handle_loop_ambiguous in Hp as (Ht & Hflag & Hq & Hamb).
  cbn [abs a_queue a_vb] in *. pose proof Hwf' as ((Hr' & Hq') & _).
  split; [by apply bool_decide_eq_false in Ht |].
  split; [unfold nomap; by intros Hne |].
  split.
  - destruct (decide (qlen s' = 0)) as [Hz | Hz]; [| lia].
    by rewrite content_empty in Hq.
  - apply ambiguous_count_pos in Hamb as (m & Hin & Ha).
    exists m. split; [by rewrite Hm |].
    apply ambiguous_match_is_ambiguous; [lia | done].
Qed.

(** X6.  A call that handles a timeout never returns [MAP_AMBIGUOUS]: when
    it returns the queue is empty, every key that was waiting having been
    resolved, and the timeout sources are as they were, the call starting no
    new timeout. *)
Theorem timeout_flushes_queue (fuel : nat) (keys : list ascii) s (r : MapState) s' :
  wf_state s → map_handle_keys fuel keys 0 s = Ok (r, s') →
  r ≠ MAP_AMBIGUOUS ∧ qlen s' = 0 ∧ resolved s' = 0
  ∧ timout_id s' = timout_id s ∧ sources s' = sources s.
Proof.
  intros Hwf H.
  assert (Hk : 0 ≤ Z.of_nat (length keys)) by lia.
  destruct (map_handle_keys_complete _ _ _ _ _ _ Hwf Hk H)
    as (Hp & Hwf' & _ & _ & Ht & Hs & _).
  unfold handle_keys in Hp.
  assert (Hr : r ≠ MAP_AMBIGUOUS).
  { intros ->. by apply handle_loop_ambiguous in Hp as (? & _). }
  split; [done |]. split.
  { rewrite map_handle_keys_unfold in H. inv_ok H. by eapply resolve_drained. }
  split; [by apply handle_loop_resolved in Hp | done].
Qed.

End Calls2.

(** ** Typing keys *)

Section Typing.
Context {U : Type} {E : Env U}.
Implicit Type s : state U.

(** The protocol for keys typed into an empty queue. *)
Lemma handle_keys_empty (fuel : nat) (l : list Map) (keys : list ascii) s :
  wf_state s → qlen s = 0 → Z.of_nat (length keys) ≤ LENGTH (queue s) →
  handle_keys fuel l (LENGTH (queue s)) keys (Z.of_nat (length keys)) (abs s)
  = handle_loop fuel l (LENGTH (queue s)) (bool_decide (Z.of_nat (length keys) = 0))
      None (Build_astate keys 0 (vb s) (trace s)).
Proof.
  intros ((Hr & _) & _) Hq Hcap. unfold handle_keys, abs.
  rewrite content_empty by done. cbn [a_queue a_resolved a_vb a_trace length app].
  replace (Z.to_nat (Z.min (Z.of_nat (length keys)) (LENGTH (queue s) - Z.of_nat 0)))
    with (length keys) by lia.
  rewrite firstn_all. by replace (resolved s) with 0 by lia.
Qed.

(** Keys that start the lhs of a map of the mode, and are not all of it, wait
    in the queue. *)
Lemma prefix_waits (keys : list ascii) (m : Map) s :
  wf_state s → qlen s = 0 → ¬ nomap s →
  m ∈ mlist s → mode m = mode_id (vb s) →
  keys ≠ [] → Z.of_nat (length keys) ≤ LENGTH (queue s) →
  (length keys < length (in_ m))%nat → take (length keys) (in_ m) = keys →
  ∃ s',
    map_handle_keys 1 keys (Z.of_nat (length keys)) s = Ok (MAP_AMBIGUOUS, s')
    ∧ abs s' = Build_astate keys 0 (vb s) (trace s).
Proof.
  intros Hwf Hq0 Hflag Hin Hmode Hne Hcap Hlt Hpre.
  assert (Hclear : Z.land (mode_flags (vb s)) FLAG_NOMAP = 0).
  { unfold nomap in Hflag. by apply dec_stable. }
  assert (Hm : wf_Map m).
  { destruct Hwf as (_ & _ & Hmaps). rewrite Forall_forall in Hmaps. by apply Hmaps. }
  destruct (map_handle_keys_refines 1 keys (Z.of_nat (length keys)) s MAP_AMBIGUOUS
              (Build_astate keys 0 (vb s) (trace s)))
    as (s' & Hrun & Habs & _); [done | lia | |].
  - rewrite handle_keys_empty by done.
    rewrite handle_loop_unfold. cbn [a_queue a_resolved a_vb a_trace].
    change (Z.to_nat 0) with 0%nat. rewrite take_0, drop_0. cbn [feed fmap list_fmap].
    rewrite (bool_decide_eq_false_2 (keys = [])) by done.
    rewrite (bool_decide_eq_true_2 (Z.land _ _ = 0)) by done.
    rewrite (bool_decide_eq_false_2 (_ = 0)) by (destruct keys; simpl; [done | lia]).
    unfold lookup_candidates.
    rewrite (bool_decide_eq_true_2 (_ ≠ 0)); [by rewrite app_nil_r |].
    apply ambiguous_count_pos. exists m. split; [done |].
    unfold is_ambiguous. destruct Hm as (Hi & _).
    rewrite (bool_decide_eq_true_2 (mode m = _)) by done.
    rewrite (bool_decide_eq_true_2 (_ < _)) by lia.
    by rewrite bool_decide_eq_true_2 by done.
  - by exists s'.
Qed.

(** X7.  Keys that are the beginning, and not all, of the lhs of a map of
    the current mode make the call wait: typed into an empty queue they stay
    in the queue, no key is sent to the key handler, and [map_handle_keys]
    returns [MAP_AMBIGUOUS], whether or not a shorter map matches them
    already. *)
Theorem prefix_of_lhs_waits (keys : list ascii) (m : Map) s :
  wf_state s → qlen s = 0 → ¬ nomap s →
  m ∈ mlist s → mode m = mode_id (vb s) →
  keys ≠ [] → Z.of_nat (length keys) ≤ LENGTH (queue s) →
  (length keys < length (in_ m))%nat → take (length keys) (in_ m) = keys →
  ∃ s',
    (∀ fuel : nat, (1 ≤ fuel)%nat →
       map_handle_keys fuel keys (Z.of_nat (length keys)) s = Ok (MAP_AMBIGUOUS, s'))
    ∧ trace s' = trace s ∧ content s' = keys ∧ vb s' = vb s.
Proof.
  intros Hwf Hq0 Hflag Hin Hmode Hne Hcap Hlt Hpre.
  destruct (prefix_waits keys m s) as (s' & Hrun & Habs); try done.
  exists s'. injection Habs as Hc _ Hv Ht.
  split; [| done]. intros fuel Hf. by apply (map_handle_keys_mono 1 fuel).
Qed.

(** The protocol with no map: every key is resolved as it is. *)
Lemma handle_loop_no_maps (fuel : nat) (cap : Z) (timeout : bool) (q : list ascii)
    (r : Z) (v : VbCore U) (tr : list event) :
  r = 0 ∨ r = 1 → r ≤ Z.of_nat (length q) → Z.of_nat (length q) - r < Z.of_nat fuel →
  ∃ tr', handle_loop fuel [] cap timeout None (Build_astate q r v tr)
         = AReturn MAP_NOMATCH (Build_astate [] 0 (feed q v) tr')
    ∧ keys_sent tr' = keys_sent tr ++ q.
Proof.
  revert q r v tr. induction fuel as [|fuel IH]; intros q r v tr Hr Hle Hfuel; [lia |].
  rewrite handle_loop_unfold. cbn [a_queue a_resolved a_vb a_trace]. cbv zeta.
  set (ks := take (Z.to_nat r) q). set (q' := drop (Z.to_nat r) q).
  assert (Hq : q = ks ++ q') by (symmetry; apply take_drop).
  assert (Hks : Z.of_nat (length ks) = r).
  { unfold ks. rewrite length_take. lia. }
  clearbody ks q'. subst q. rewrite length_app in *.
  destruct (decide (q' = [])) as [Hnil | Hnil].
  - rewrite bool_decide_eq_true_2 by done. subst q'. rewrite app_nil_r.
    eexists. split; [reflexivity |].
    by rewrite keys_sent_app, keys_sent_keys.
  - rewrite bool_decide_eq_false_2 by done.
    assert (Hc : (if bool_decide (Z.land (mode_flags (feed ks v)) FLAG_NOMAP = 0)
                  then lookup_candidates [] q' (mode_id (feed ks v)) timeout
                  else (None, 0)) = (None, 0)).
    { unfold lookup_candidates. simpl. by destruct (bool_decide _), timeout. }
    rewrite Hc. rewrite (bool_decide_eq_false_2 (0 ≠ 0)) by (intros Hne; by apply Hne).
    destruct (IH q' 1 (feed ks v)
                ((tr ++ (EvKey <$> ks)) ++ [EvLiteral (default NUL (head q'))]))
      as (tr' & -> & Hsent).
    + by right.
    + destruct q'; [done | simpl; lia].
    + lia.
    + exists tr'. split; [by rewrite feed_app |].
      rewrite Hsent, !keys_sent_app, keys_sent_keys. simpl.
      by rewrite app_nil_r, <- app_assoc.
Qed.

(** With no map in the table every key given is sent as it is. *)
Lemma no_maps_run (keys : list ascii) (keylen : Z) s :
  wf_state s → mlist s = [] → qlen s = 0 → 0 ≤ keylen ≤ Z.of_nat (length keys) →
  ∃ s' tr',
    map_handle_keys (S (Z.to_nat (Z.min keylen (LENGTH (queue s))))) keys keylen s
    = Ok (MAP_NOMATCH, s')
    ∧ abs s'
      = Build_astate [] 0
          (feed (take (Z.to_nat (Z.min keylen (LENGTH (queue s)))) keys) (vb s)) tr'
    ∧ keys_sent tr'
      = keys_sent (trace s) ++ take (Z.to_nat (Z.min keylen (LENGTH (queue s)))) keys
    ∧ wf_state s'.
Proof.
  intros Hwf Hnil Hq0 Hk. pose proof Hwf as ((Hr & Hq) & _).
  set (n := Z.to_nat (Z.min keylen (LENGTH (queue s)))).
  destruct (handle_loop_no_maps (S n) (LENGTH (queue s)) (bool_decide (keylen = 0))
              (take n keys) 0 (vb s) (trace s)) as (tr' & Hloop & Hsent);
    [by left | lia | rewrite length_take; lia |].
  destruct (map_handle_keys_refines (S n) keys keylen s MAP_NOMATCH
              (Build_astate [] 0 (feed (take n keys) (vb s)) tr'))
    as (s' & Hrun & Habs & Hwf' & _); [done | lia | |].
  - unfold handle_keys, abs. rewrite content_empty by done. rewrite Hnil.
    cbn [a_queue a_resolved a_vb a_trace length app].
    replace (Z.to_nat (Z.min keylen (LENGTH (queue s) - Z.of_nat 0))) with n
      by (unfold n; lia).
    replace (resolved s) with 0 by lia. done.
  - by exists s', tr'.
Qed.

(** X8.  With no map in the table the engine is transparent: the keys
    given, as many of them as the queue has room for, are sent to the key
    handler in the order given, each resolved as it is, the others are
    dropped, and [map_handle_keys] returns [MAP_NOMATCH] with the queue
    empty. *)
Theorem no_maps_transparent (keys : list ascii) (keylen : Z) s :
  wf_state s → mlist s = [] → qlen s = 0 → 0 ≤ keylen ≤ Z.of_nat (length keys) →
  ∃ s',
    (∀ fuel : nat, Z.min keylen (LENGTH (queue s)) < Z.of_nat fuel →
       map_handle_keys fuel keys keylen s = Ok (MAP_NOMATCH, s'))
    ∧ keys_sent (trace s')
      = keys_sent (trace s) ++ take (Z.to_nat (Z.min keylen (LENGTH (queue s)))) keys
    ∧ vb s' = feed (take (Z.to_nat (Z.min keylen (LENGTH (queue s)))) keys) (vb s)
    ∧ qlen s' = 0.
Proof.
  intros Hwf Hnil Hq0 Hk.
  destruct (no_maps_run keys keylen s) as (s' & tr' & Hrun & Habs & Hsent & Hwf');
    [done .. |].
  exists s'. injection Habs as Hc _ Hv Ht.
  split; [| split; [| split]].
  - intros fuel Hf.
    apply (map_handle_keys_mono (S (Z.to_nat (Z.min keylen (LENGTH (queue s))))) fuel);
      [unfold LENGTH in *; lia | done].
  - by rewrite Ht.
  - done.
  - destruct Hwf' as ((? & ?) & _). apply (f_equal length) in Hc.
    rewrite content_length in Hc by lia. simpl in Hc. lia.
Qed.

(** X9.  With the nomap flag set in the current mode, a key typed into an
    empty queue is not looked up in the table: whatever maps there are, the
    key is resolved as it is and sent to the key handler, which finds the
    flag removed, and [map_handle_keys] returns [MAP_NOMATCH]. *)
Theorem nomap_key_bypasses_maps (k : ascii) s :
  wf_state s → qlen s = 0 → 0 < LENGTH (queue s) → nomap s →
  ∃ s',
    (∀ fuel : nat, (2 ≤ fuel)%nat →
       map_handle_keys fuel [k] 1 s = Ok (MAP_NOMATCH, s'))
    ∧ trace s' = trace s ++ [EvLiteral k; EvKey k] ∧ qlen s' = 0
    ∧ vb s' = (mode_handle_key (uint_of_char k)
                 (Build_VbCore (mode_id (vb s))
                    (Z.land (mode_flags (vb s)) (Z.lnot FLAG_NOMAP)) (user (vb s)))).2.
Proof.
  intros Hwf Hq0 Hcap Hflag.
  destruct (map_handle_keys_refines 2 [k] 1 s MAP_NOMATCH
              (Build_astate [] 0 (feed [k] (vb s)) (trace s ++ [EvLiteral k; EvKey k])))
    as (s' & Hrun & Habs & Hwf' & _); [done | simpl; lia | |].
  - change 1 with (Z.of_nat (length [k])) at 1.
    rewrite handle_keys_empty by (done || simpl; lia).
    change (bool_decide (Z.of_nat (length [k]) = 0)) with false.
    rewrite handle_loop_unfold. cbn [a_queue a_resolved a_vb a_trace].
    change (Z.to_nat 0) with 0%nat. rewrite take_0, drop_0. cbn [feed fmap list_fmap].
    rewrite (bool_decide_eq_false_2 ([k] = [])) by done.
    rewrite (bool_decide_eq_false_2 (Z.land _ _ = 0)) by done.
    rewrite (bool_decide_eq_false_2 (0 ≠ 0)) by (intros Hne; by apply Hne).
    rewrite handle_loop_unfold. cbn [a_queue a_resolved a_vb a_trace].
    change (Z.to_nat 1) with 1%nat. cbn [take drop feed fmap list_fmap head default].
    rewrite (bool_decide_eq_true_2 ([] = [])) by done.
    by rewrite !app_nil_r, <- app_assoc.
  - exists s'. injection Habs as Hc _ Hv Ht.
    split; [intros fuel Hf; by apply (map_handle_keys_mono 2 fuel) |].
    split; [done |]. split; [| done].
    destruct Hwf' as ((? & ?) & _). apply (f_equal length) in Hc.
    rewrite content_length in Hc by lia. simpl in Hc. lia.
Qed.

End Typing.

(** ** Maps put to use *)

Section Use.
Context {U : Type} {E : Env U}.
Implicit Type s : state U.

(** X10.  [map_delete] undoes [map_insert]: deleting the lhs that was just
    inserted, in the same mode, returns true and leaves the state exactly as
    it was before the insertion, whatever the lhs and the mapped keys are. *)
Theorem map_delete_undoes_map_insert (in_0 mapped0 : list ascii) (mode0 : ascii) s :
  ∃ s1, map_insert in_0 mapped0 mode0 s = Ok s1
        ∧ map_delete in_0 mode0 s1 = Ok (true, s).
Proof.
  destruct (map_insert_ok in_0 mapped0 mode0 s) as (lhs & rhs & Hl & Hr & Hwf & Hins).
  eexists. split; [exact Hins |].
  unfold map_delete. rewrite Hl, bind_Ok_l. unfold_state. cbn [find_link mode inlen in_].
  rewrite !bool_decide_eq_true_2 by done. cbn [andb].
  destruct Hwf as (_ & _ & Hnul & _). cbn [in_] in Hnul.
  destruct (strcmp_spec lhs lhs) as (r & -> & Hiff); [done | done |].
  rewrite bind_Ok_l. rewrite bool_decide_eq_true_2 by (by apply Hiff).
  rewrite bind_Ok_l. do 2 f_equal. destruct s. reflexivity.
Qed.

(** X11.  A map that was just inserted applies: where its lhs has keys, its
    mapped keys are no more than these, and no map of the mode has a longer
    lhs that starts with them, typing the lhs into the empty queue sends the
    mapped keys, and only them, to the key handler, and [map_handle_keys]
    returns [MAP_DONE].  The queue needs room for the characters the
    deleting loop reads. *)
Theorem inserted_map_applies (in_0 mapped0 lhs rhs : list ascii) s :
  wf_state s → qlen s = 0 → ¬ nomap s →
  map_convert_keys (cstr in_0) (strlen (cstr in_0)) = Ok (lhs, Z.of_nat (length lhs)) →
  map_convert_keys (cstr mapped0) (strlen (cstr mapped0))
  = Ok (rhs, Z.of_nat (length rhs)) →
  lhs ≠ [] → (length rhs ≤ length lhs)%nat →
  2 * Z.of_nat (length lhs) - Z.of_nat (length rhs) ≤ LENGTH (queue s) →
  (∀ m, m ∈ mlist s → is_ambiguous (mode_id (vb s)) lhs m = false) →
  ∃ s1 s2,
    map_insert in_0 mapped0 (mode_id (vb s)) s = Ok s1
    ∧ (∀ fuel : nat, (2 ≤ fuel)%nat →
         map_handle_keys fuel lhs (Z.of_nat (length lhs)) s1 = Ok (MAP_DONE, s2))
    ∧ keys_sent (trace s2) = keys_sent (trace s) ++ rhs
    ∧ vb s2 = feed rhs (vb s) ∧ qlen s2 = 0.
Proof.
  intros Hwf Hq0 Hflag Hl Hr Hne Hle Hcap Hamb.
  destruct (map_insert_ok in_0 mapped0 (mode_id (vb s)) s)
    as (lhs' & rhs' & Hl' & Hr' & Hwfm & Hins).
  rewrite Hl in Hl'. injection Hl' as <-. rewrite Hr in Hr'. injection Hr' as <-.
  set (new := Build_Map lhs (Z.of_nat (length lhs)) rhs (Z.of_nat (length rhs))
                (mode_id (vb s))) in *.
  set (s1 := set_mlist (new :: mlist s) s) in *.
  assert (Hclear : Z.land (mode_flags (vb s)) FLAG_NOMAP = 0).
  { unfold nomap in Hflag. by apply dec_stable. }
  assert (Hwf1 : wf_state s1).
  { destruct Hwf as (Hi & Hb & Hmaps). split; [done |]. split; [done |].
    by apply Forall_cons_2. }
  assert (Hcand : lookup_candidates (new :: mlist s) lhs (mode_id (vb s)) false
                  = (Some new, 0)).
  { unfold lookup_candidates. f_equal.
    - cbn [best_match]. unfold is_full at 1. cbn [mode inlen in_ new].
      rewrite !bool_decide_eq_true_2 by (rewrite ?Nat2Z.id, ?firstn_all; done || lia).
      cbn [andb]. apply best_match_keep. intros m _ Hf.
      unfold is_full in Hf. apply andb_true_iff in Hf as [Hf _].
      apply andb_true_iff in Hf as [_ Hf]. apply bool_decide_eq_true in Hf.
      cbn [inlen new]. done.
    - cbn [ambiguous_count]. unfold is_ambiguous at 1. cbn [mode inlen in_ new].
      rewrite (bool_decide_eq_false_2 (_ < _)) by lia. rewrite andb_false_r.
      by rewrite ambiguous_count_zero. }
  destruct (map_handle_keys_refines 2 lhs (Z.of_nat (length lhs)) s1 MAP_DONE
              (Build_astate [] 0 (feed rhs (vb s))
                 (trace s ++ EvMapped new :: (EvKey <$> rhs))))
    as (s2 & Hrun & Habs & Hwf2 & _); [done | lia | |].
  - rewrite handle_keys_empty;
      [| done | exact Hq0 | change (queue s1) with (queue s); lia].
    change (mlist s1) with (new :: mlist s). change (vb s1) with (vb s).
    change (trace s1) with (trace s). change (queue s1) with (queue s).
    rewrite (bool_decide_eq_false_2 (_ = 0)) by (destruct lhs; simpl; [done | lia]).
    rewrite handle_loop_unfold. cbn [a_queue a_resolved a_vb a_trace].
    change (Z.to_nat 0) with 0%nat. rewrite take_0, drop_0. cbn [feed fmap list_fmap].
    rewrite (bool_decide_eq_false_2 (lhs = [])) by done.
    rewrite (bool_decide_eq_true_2 (Z.land _ _ = 0)) by done.
    rewrite Hcand. rewrite (bool_decide_eq_false_2 (0 ≠ 0)) by (intros Hz; by apply Hz).
    cbn [mappedlen inlen mapped new].
    rewrite bool_decide_eq_true_2 by lia.
    rewrite Nat2Z.id, drop_all, !app_nil_r.
    replace (Z.min (Z.of_nat (length lhs)) (Z.of_nat (length rhs)))
      with (Z.of_nat (length rhs)) by lia.
    rewrite handle_loop_unfold. cbn [a_queue a_resolved a_vb a_trace].
    rewrite Nat2Z.id, firstn_all, drop_all.
    rewrite (bool_decide_eq_true_2 ([] = [])) by done.
    by rewrite <- app_assoc.
  - exists s1, s2. injection Habs as Hc _ Hv Ht.
    split; [done |].
    split; [intros fuel Hf; by apply (map_handle_keys_mono 2 fuel) |].
    split; [rewrite Ht, keys_sent_app; simpl; by rewrite keys_sent_keys |].
    split; [done |].
    destruct Hwf2 as ((? & ?) & _). apply (f_equal length) in Hc.
    rewrite content_length in Hc by lia. simpl in Hc. lia.
Qed.

(** The protocol with a map whose lhs is empty: the map matches whatever is
    in the queue, its lhs resolves no key, and the next round finds the
    queue no shorter. *)
Lemma handle_loop_empty_lhs (fuel : nat) (cap : Z) (acc : option Map) (new : Map)
    (q : list ascii) (v : VbCore U) (tr : list event) (r : MapState) (a' : astate U) :
  in_ new = [] → inlen new = 0 → 0 ≤ mappedlen new → mode new = mode_id v →
  Z.land (mode_flags v) FLAG_NOMAP = 0 → q ≠ [] →
  handle_loop fuel [new] cap false acc (Build_astate q 0 v tr) ≠ AReturn r a'.
Proof.
  intros Hin Hi Hm Hmode Hflag. revert acc q tr.
  induction fuel as [|fuel IH]; intros acc q tr Hq; [done |].
  rewrite handle_loop_unfold. cbn [a_queue a_resolved a_vb a_trace].
  change (Z.to_nat 0) with 0%nat. rewrite take_0, drop_0. cbn [feed fmap list_fmap].
  rewrite (bool_decide_eq_false_2 (q = [])) by done.
  rewrite (bool_decide_eq_true_2 (Z.land _ _ = 0)) by done.
  assert (Hcand : lookup_candidates [new] q (mode_id v) false = (Some new, 0)).
  { unfold lookup_candidates. cbn [best_match ambiguous_count].
    unfold is_full, is_ambiguous. rewrite Hin, Hi.
    rewrite (bool_decide_eq_true_2 (mode new = _)) by done.
    rewrite (bool_decide_eq_true_2 (0 ≤ _)) by lia.
    rewrite (bool_decide_eq_false_2 (_ < 0)) by lia.
    change (Z.to_nat 0) with 0%nat. rewrite take_0.
    rewrite (bool_decide_eq_true_2 ([] = [])) by done. done. }
  rewrite Hcand. rewrite (bool_decide_eq_false_2 (0 ≠ 0)) by (intros Hz; by apply Hz).
  case_bool_decide; [| done].
  rewrite Hi. change (Z.to_nat 0) with 0%nat. rewrite drop_0.
  replace (Z.min 0 (mappedlen new)) with 0 by lia.
  apply IH. by destruct (mapped new), q.
Qed.

(** X12.  [map_insert] takes an empty lhs, and a map with an empty lhs
    matches whatever is typed without resolving a key: once such a map is the
    map of the mode, no call of [map_handle_keys] with a key returns; the
    loop runs for ever or writes behind the queue. *)
Theorem empty_lhs_never_returns (mapped0 : list ascii) (k : ascii) s :
  wf_state s → mlist s = [] → qlen s = 0 → 0 < LENGTH (queue s) → ¬ nomap s →
  ∃ s1,
    map_insert [] mapped0 (mode_id (vb s)) s = Ok s1
    ∧ ∀ (fuel : nat) (r : MapState) s', map_handle_keys fuel [k] 1 s1 ≠ Ok (r, s').
Proof.
  intros Hwf Hnil Hq0 Hcap Hflag.
  destruct (map_insert_ok [] mapped0 (mode_id (vb s)) s)
    as (lhs & rhs & Hl & Hr & Hwfm & Hins).
  assert (lhs = []) as -> by (by injection Hl as <-).
  set (new := Build_Map [] (Z.of_nat (length [])) rhs (Z.of_nat (length rhs))
                (mode_id (vb s))) in *.
  rewrite Hnil in Hins. set (s1 := set_mlist [new] s) in *.
  exists s1. split; [done |]. intros fuel r s' Hrun.
  assert (Hwf1 : wf_state s1).
  { destruct Hwf as (Hi & Hb & Hmaps). split; [done |]. split; [done |].
    by apply Forall_cons_2. }
  destruct (map_handle_keys_complete fuel [k] 1 s1 r s' Hwf1) as (Hp & _);
    [simpl; lia | done |].
  change 1 with (Z.of_nat (length [k])) in Hp at 1.
  rewrite handle_keys_empty in Hp;
    [| done | exact Hq0 | change (queue s1) with (queue s); simpl; lia].
  revert Hp. apply handle_loop_empty_lhs; try done.
  - cbn [mappedlen new]. lia.
  - unfold nomap in Hflag. by apply dec_stable.
Qed.

End Use.

(** ** Where the keys sent come from *)

Section Origin.
Context {U : Type} {E : Env U}.
Implicit Type s : state U.

(** The keys the protocol sends and the keys it leaves in the queue are
    keys that were sent before, keys of the queue, or mapped keys of a map. *)
Lemma handle_loop_keys (P : ascii → Prop) (fuel : nat) (l : list Map) (cap : Z)
    (timeout : bool) (acc : option Map) (a a' : astate U) (r : MapState) :
  handle_loop fuel l cap timeout acc a = AReturn r a' →
  (∀ k, k ∈ a_queue a → P k) → (∀ m k, m ∈ l → k ∈ mapped m → P k) →
  (∀ k, k ∈ keys_sent (a_trace a) → P k) →
  (∀ k, k ∈ keys_sent (a_trace a') → P k) ∧ (∀ k, k ∈ a_queue a' → P k).
Proof.
  intros H Hq Hl. revert acc a H Hq.
  induction fuel as [|fuel IH]; intros acc a H Hq Ht; [done |].
  rewrite handle_loop_unfold in H. cbv zeta in H.
  set (ks := take (Z.to_nat (a_resolved a)) (a_queue a)) in *.
  set (q := drop (Z.to_nat (a_resolved a)) (a_queue a)) in *.
  assert (Hks : ∀ k, k ∈ ks → P k).
  { intros k Hin. apply Hq. unfold ks in Hin. by apply subseteq_take in Hin. }
  assert (Hq' : ∀ k, k ∈ q → P k).
  { intros k Hin. apply Hq. unfold q in Hin. by apply subseteq_drop in Hin. }
  assert (Ht' : ∀ k, k ∈ keys_sent (a_trace a ++ (EvKey <$> ks)) → P k).
  { intros k. rewrite keys_sent_app, keys_sent_keys, elem_of_app. intros [? | ?]; auto. }
  case_bool_decide as Hnil; [by injection H as <- <- |].
  destruct (if bool_decide _ then lookup_candidates _ _ _ _ else _) as [best amb] eqn:Hcand.
  case_bool_decide; [by injection H as <- <- |].
  destruct best as [m|].
  - case_bool_decide; [| done].
    assert (Hin : m ∈ l).
    { revert Hcand. case_bool_decide; [| done]. unfold lookup_candidates.
      intros [= Hbest _]. by apply best_match_in in Hbest as [[=] | [? _]]. }
    apply IH in H; [done | |]; cbn [a_queue a_trace].
    + intros k. rewrite elem_of_app. intros [Hm | Hd]; [by apply (Hl m) |].
      apply Hq'. by apply subseteq_drop in Hd.
    + intros k. rewrite keys_sent_app. simpl. rewrite app_nil_r. apply Ht'.
  - apply IH in H; [done | done |]. cbn [a_trace].
    intros k. rewrite keys_sent_app. simpl. rewrite app_nil_r. apply Ht'.
Qed.

(** X25.  [map_handle_keys] makes up no key: every key it sends to the key
    handler, and every key it leaves in the queue, is a key that was in the
    queue, one of the keys given, or a mapped key of a map of the table.
    What the loops that shift the queue read behind its keys never comes to
    light. *)
Theorem only_typed_or_mapped_keys_sent (fuel : nat) (keys : list ascii) (keylen : Z)
    s (r : MapState) s' (k : ascii) :
  wf_state s → keylen ≤ Z.of_nat (length keys) →
  map_handle_keys fuel keys keylen s = Ok (r, s') →
  k ∈ keys_sent (trace s') ∨ k ∈ content s' →
  k ∈ keys_sent (trace s) ∨ k ∈ content s ∨ k ∈ take (Z.to_nat keylen) keys
  ∨ ∃ m, m ∈ mlist s ∧ k ∈ mapped m.
Proof.
  intros Hwf Hk H Hsent.
  destruct (map_handle_keys_complete _ _ _ _ _ _ Hwf Hk H) as (Hp & _).
  unfold handle_keys in Hp.
  apply (handle_loop_keys
           (λ k, k ∈ keys_sent (trace s) ∨ k ∈ content s
                 ∨ k ∈ take (Z.to_nat keylen) keys
                 ∨ ∃ m, m ∈ mlist s ∧ k ∈ mapped m)) in Hp.
  - destruct Hp as [Ht Hq]. cbn [abs a_queue a_trace] in *.
    destruct Hsent; auto.
  - cbn [abs a_queue]. intros k'. rewrite elem_of_app. intros [Hc | Hn]; [auto |].
    right. right. left. apply elem_of_take in Hn as (i & Hi & Hlt).
    apply elem_of_take. exists i. split; [done | lia].
  - intros m k' Hin Hm. right. right. right. by exists m.
  - cbn [abs a_trace]. auto.
Qed.

End Origin.

(** ** The parts of a call *)

Section Parts.
Context {U : Type} {E : Env U}.
Implicit Type s : state U.

(** X13.  The loop that copies the keys onto the end of the queue never
    writes behind the queue: it takes as many of the keys as the queue has
    room for, in their order, drops the others without a word, and changes
    nothing but the queue and its length. *)
Theorem enqueue_drops_excess_keys (keys : list ascii) (keylen : Z) s :
  0 ≤ qlen s ≤ LENGTH (queue s) → 0 ≤ keylen ≤ Z.of_nat (length keys) →
  ∃ s',
    enqueue keys keylen s = Ok s'
    ∧ qlen s' = Z.min (qlen s + keylen) (LENGTH (queue s))
    ∧ content s'
      = content s ++ take (Z.to_nat (Z.min keylen (LENGTH (queue s) - qlen s))) keys
    ∧ length (queue s') = length (queue s)
    ∧ s' = set_qlen (qlen s') (set_queue (queue s') s).
Proof.
  intros Hq Hk.
  destruct (enqueue_ok keys keylen s) as (q & Henq & Hl & Hc); [done | lia |].
  eexists. split; [exact Henq |]. unfold_state.
  split; [lia |]. split; [| done].
  unfold content at 1. unfold_state.
  replace (Z.to_nat (qlen s +
             Z.of_nat (Z.to_nat (Z.min keylen (LENGTH (queue s) - qlen s)))))
    with (Z.to_nat (qlen s) + Z.to_nat (Z.min keylen (LENGTH (queue s) - qlen s)))%nat
    by lia.
  done.
Qed.

(** X14.  The loop that sends the resolved keys takes them from the front of
    the queue and sends them to the key handler in the order they were
    queued; the keys behind them move to the front, and [map.qlen] and
    [map.resolved] go down by the number of keys sent.  Each key finds the
    nomap flag of the mode removed. *)
Theorem drain_sends_in_order (n : nat) s :
  Z.of_nat n ≤ qlen s ≤ LENGTH (queue s) → bufs_ok s →
  ∃ s',
    drain n s = Ok s'
    ∧ trace s' = trace s ++ (EvKey <$> take n (content s))
    ∧ content s' = drop n (content s)
    ∧ qlen s' = qlen s - Z.of_nat n ∧ resolved s' = resolved s - Z.of_nat n
    ∧ vb s' = feed (take n (content s)) (vb s)
    ∧ mlist s' = mlist s ∧ length (queue s') = length (queue s).
Proof.
  intros Hq Hb.
  destruct (drain_ok n s Hq Hb) as (s' & ks & Hdr & Hks & Hd).
  destruct Hd as (Hq1 & Hr1 & Hc1 & Hl1 & Hm1 & _ & _ & _ & Htr1 & Hv1 & _).
  assert (Htake : take n (content s) = ks)
    by (rewrite Hc1, <- Hks; apply take_app_length).
  assert (Hdrop : drop n (content s) = content s')
    by (rewrite Hc1, <- Hks; apply drop_app_length).
  exists s'. rewrite Htake, Hdrop. subst n. repeat split; done.
Qed.

Lemma bind_ext_Ok {A B : Type} (r : res A) (k k' : A → res B) :
  (∀ a, r = Ok a → k a = k' a) → r ≫= k = r ≫= k'.
Proof. intros H. destruct r; simpl; [by apply H | done | done]. Qed.

(** X15.  The lookup takes no notice of the maps of other modes: it finds
    the same match, counts the same ambiguous matches and shows the same as
    it does on the list of the maps of the current mode alone. *)
Theorem lookup_ignores_other_modes (l : list Map) (timeout : bool)
    (acc : option Map) (a : Z) s :
  lookup l timeout acc a s
  = lookup (filter (λ m, mode m = mode_id (vb s)) l) timeout acc a s.
Proof.
  revert acc a s. induction l as [|m l IH]; intros acc a s; [done |].
  destruct (decide (mode m = mode_id (vb s))) as [Hm | Hm].
  - rewrite filter_cons_True by done. cbn [lookup].
    rewrite (bool_decide_eq_false_2 (mode m ≠ _)) by (intros Hne; by apply Hne).
    apply bind_ext_Ok. intros [s1 amb1] H1.
    assert (Hvb : vb s1 = vb s).
    { revert H1. destruct (negb timeout && _); [| by intros [= <- _]].
      intros H1. inv_ok H1. destruct (bool_decide (a0 = 0)); [| by injection H1 as <- _].
      inv_ok H1. injection H1 as <- _.
      apply showcmd_inv in Ha0 as (buf & sl & ->). done. }
    apply bind_ext_Ok. intros match1 _. rewrite IH. by rewrite Hvb.
  - rewrite filter_cons_False by done. cbn [lookup].
    rewrite (bool_decide_eq_true_2 (mode m ≠ _)) by done. apply IH.
Qed.

Lemma filter_sources_nil (id : Z) (l : list (Z * Z)) :
  (∀ src, src ∈ l → src.1 = id) → filter (λ src, src.1 ≠ id) l = [].
Proof.
  induction l as [|src l IH]; intros Hl; [done |].
  rewrite filter_cons_False.
  - apply IH. intros src' Hin. apply Hl. by apply elem_of_cons; right.
  - intros Hne. apply Hne. apply Hl. by apply elem_of_cons; left.
Qed.

(** X16.  A call with keys restarts the timeout: it removes the source that
    [map.timout_id] names and adds one of 1000 ms, whose id it keeps.  So
    where the timeouts pending before the call were all named by
    [map.timout_id], exactly one timeout is pending after it, however many
    calls came before. *)
Theorem key_call_restarts_timeout (fuel : nat) (keys : list ascii) (keylen : Z) s
    (r : MapState) s' :
  wf_state s → one_timeout s → keylen ≤ Z.of_nat (length keys) → keylen ≠ 0 →
  map_handle_keys fuel keys keylen s = Ok (r, s') →
  sources s' = [(timout_id s', 1000)] ∧ timout_id s' = next_source s
  ∧ one_timeout s'.
Proof.
  intros Hwf (Hpos & Hall) Hk Hne H.
  destruct (map_handle_keys_complete _ _ _ _ _ _ Hwf Hk H)
    as (_ & _ & _ & _ & Ht & Hs & Hn).
  assert (Harm : sources (arm_timeout keylen s) = [(next_source s, 1000)]
                 ∧ timout_id (arm_timeout keylen s) = next_source s
                 ∧ next_source (arm_timeout keylen s) = next_source s + 1).
  { unfold arm_timeout. rewrite (bool_decide_eq_false_2 (keylen = 0)) by done.
    destruct (decide (timout_id s ≠ 0)) as [Hid | Hid].
    - rewrite (bool_decide_eq_true_2 (timout_id s ≠ 0)) by done. unfold_state.
      rewrite filter_sources_nil; [done |]. intros src Hin. by apply Hall.
    - rewrite (bool_decide_eq_false_2 (timout_id s ≠ 0)) by done. unfold_state.
      destruct (sources s) as [|src l]; [done |].
      destruct (Hall src) as [Heq Hr]; [by apply elem_of_cons; left |].
      exfalso. apply Hid. lia. }
  destruct Harm as (Hs0 & Ht0 & Hn0). unfold one_timeout.
  rewrite Hs, Ht, Hn, Hs0, Ht0, Hn0.
  split; [done |]. split; [done |]. split; [lia |].
  intros src Hin. apply list_elem_of_singleton in Hin as ->. simpl. lia.
Qed.

End Parts.

(** ** What is on display *)

Section DisplayMore.
Context {U : Type} {E : Env U}.
Implicit Type s : state U.

Lemma show_keys_cons (k : ascii) (ks : list ascii) :
  show_keys (k :: ks) = show_key k ++ show_keys ks.
Proof. reflexivity. Qed.

(** A C string read from a buffer ends at the first NUL. *)
Lemma c_string_app_NUL (l rest : list ascii) :
  c_string (l ++ NUL :: rest) = c_string (cstr l).
Proof.
  unfold cstr. induction l as [|c l IH]; simpl; [done |].
  destruct (bool_decide (c = NUL)); [done | by rewrite IH].
Qed.

Lemma take_S_insert (l : list ascii) (i : nat) (c : ascii) :
  (i < length l)%nat → take (S i) (<[i := c]> l) = take i l ++ [c].
Proof.
  intros Hi. rewrite (take_S_r _ _ c) by (by apply list_lookup_insert_eq).
  by rewrite take_insert_ge by lia.
Qed.

(** The loop of [showcmd] writes what it shows of the keys behind what the
    buffer holds, key by key, as long as keys are left and fewer than [max]
    characters are in the buffer. *)
Lemma showcmd_loop_shows (keys : list ascii) (keylen : Z) (buf : list ascii)
    (sl max : Z) :
  0 ≤ keylen ≤ Z.of_nat (length keys) → 0 ≤ sl < LENGTH buf → max + 2 = LENGTH buf →
  ∃ (j : nat) buf' sl',
    showcmd_loop keys keylen buf sl max = Ok (buf', sl')
    ∧ Z.of_nat j ≤ keylen
    ∧ length buf' = length buf
    ∧ sl ≤ sl' < LENGTH buf
    ∧ take (Z.to_nat sl') buf' = take (Z.to_nat sl) buf ++ show_keys (take j keys)
    ∧ (Z.of_nat j = keylen ∨ max ≤ sl').
Proof.
  revert keylen buf sl.
  induction keys as [|key keys IH]; intros keylen buf sl Hk Hs Hmax; simpl in Hk.
  - exists 0%nat, buf, sl. simpl.
    rewrite (bool_decide_eq_false_2 (keylen ≠ 0)) by lia. simpl.
    rewrite app_nil_r. repeat split; try done; lia.
  - cbn [showcmd_loop].
    destruct (bool_decide (keylen ≠ 0) && bool_decide (sl < max)) eqn:Hcond.
    2: { exists 0%nat, buf, sl. rewrite take_0. change (show_keys []) with (@nil ascii).
         rewrite app_nil_r. repeat split; try done; try lia.
         apply andb_false_iff in Hcond as [Hc | Hc]; apply bool_decide_eq_false in Hc;
           [left | right]; lia. }
    apply andb_true_iff in Hcond. destruct Hcond as [Hk0 Hlt].
    apply bool_decide_eq_true in Hk0, Hlt. unfold LENGTH in *.
    destruct (IS_CTRL key) eqn:Hctrl.
    + rewrite wr_lt by (unfold LENGTH; lia). rewrite bind_Ok_l.
      rewrite wr_lt by (rewrite LENGTH_insert; unfold LENGTH; lia). rewrite bind_Ok_l.
      destruct (IH (keylen - 1) (<[Z.to_nat (sl + 1):=CTRL key]>
                                   (<[Z.to_nat sl:="^"%char]> buf)) (sl + 2))
        as (j & buf' & sl' & -> & Hj & Hl & Hr & Ht & Hend);
        [lia | rewrite !length_insert; lia | rewrite !length_insert; lia |].
      exists (S j), buf', sl'. rewrite !length_insert in *.
      split; [done |]. split; [lia |]. split; [done |]. split; [lia |].
      split; [| destruct Hend; [left | right]; lia].
      rewrite Ht. cbn [take]. rewrite show_keys_cons. unfold show_key.
      rewrite Hctrl, app_assoc. f_equal.
      replace (Z.to_nat (sl + 2)) with (S (S (Z.to_nat sl))) by lia.
      replace (Z.to_nat (sl + 1)) with (S (Z.to_nat sl)) by lia.
      rewrite take_S_insert by (rewrite length_insert; lia).
      rewrite take_S_insert by lia. by rewrite <- app_assoc.
    + rewrite wr_lt by (unfold LENGTH; lia). rewrite bind_Ok_l.
      destruct (IH (keylen - 1) (<[Z.to_nat sl:=key]> buf) (sl + 1))
        as (j & buf' & sl' & -> & Hj & Hl & Hr & Ht & Hend);
        [lia | rewrite !length_insert; lia | rewrite !length_insert; lia |].
      exists (S j), buf', sl'. rewrite !length_insert in *.
      split; [done |]. split; [lia |]. split; [done |]. split; [lia |].
      split; [| destruct Hend; [left | right]; lia].
      rewrite Ht. cbn [take]. rewrite show_keys_cons. unfold show_key.
      rewrite Hctrl, app_assoc. f_equal.
      replace (Z.to_nat (sl + 1)) with (S (Z.to_nat sl)) by lia.
      by rewrite take_S_insert by lia.
Qed.

(** [showcmd] with keys: what it leaves in the buffer and on the label. *)
Lemma showcmd_shows (keys : list ascii) (keylen : Z) (append : bool) s :
  bufs_ok s → 0 < keylen ≤ Z.of_nat (length keys) →
  ∃ s' (j : nat),
    showcmd keys keylen append s = Ok s'
    ∧ Z.of_nat j ≤ keylen
    ∧ take (Z.to_nat (slen s')) (showbuf s')
      = (if append then take (Z.to_nat (slen s)) (showbuf s) else [])
        ++ show_keys (take j keys)
    ∧ showbuf s' !! Z.to_nat (slen s') = Some NUL
    ∧ statusbar_cmd s'
      = c_string (cstr ((if append then take (Z.to_nat (slen s)) (showbuf s) else [])
                        ++ show_keys (take j keys)))
    ∧ (Z.of_nat j = keylen ∨ 10 ≤ slen s')
    ∧ bufs_ok s' ∧ same_but_display s s'.
Proof.
  intros [Hlen Hsl] Hk. unfold showcmd.
  rewrite (bool_decide_eq_false_2 (keylen = 0)) by lia.
  destruct (showcmd_loop_shows keys keylen (showbuf s) (if append then slen s else 0)
              (LENGTH (showbuf s) - 2))
    as (j & buf & sl & -> & Hj & Hl & Hr & Ht & Hend);
    [lia | unfold LENGTH; destruct append; lia | lia |].
  rewrite bind_Ok_l. unfold LENGTH in *.
  assert (Hsl0 : 0 ≤ sl) by (destruct append; lia).
  rewrite wr_lt by (unfold LENGTH; lia). rewrite !bind_Ok_l.
  eexists _, j. split; [reflexivity |]. unfold_state.
  assert (Hold : take (Z.to_nat (if append then slen s else 0)) (showbuf s)
                 = if append then take (Z.to_nat (slen s)) (showbuf s) else []).
  { by destruct append. }
  rewrite Hold in Ht.
  assert (Htake : take (Z.to_nat sl) (<[Z.to_nat sl:=NUL]> buf)
                  = (if append then take (Z.to_nat (slen s)) (showbuf s) else [])
                    ++ show_keys (take j keys)).
  { by rewrite take_insert_ge by lia. }
  split; [done |]. split; [done |].
  split; [apply list_lookup_insert_eq; lia |].
  split.
  { rewrite <- Htake. rewrite insert_take_drop by lia.
    rewrite take_app_le by (rewrite length_take; lia).
    rewrite take_take, Nat.min_id. apply c_string_app_NUL. }
  split; [destruct Hend; [left; done | right; lia] |].
  split.
  { unfold bufs_ok. unfold_state. rewrite length_insert, Hl.
    split; [done | destruct append; lia]. }
  apply same_but_display_show.
Qed.

(** X17.  [showcmd] stays within [showbuf].  Given keys, it puts them on
    display one after the other, a control character as [^] and its letter,
    behind what is on display if it is to append and in its place if not; it
    stops where no key is left or ten characters are in the buffer, so a key
    is never shown in part, and it ends the text with a NUL.  The label of
    the status bar gets the buffer as a C string, and nothing else of the
    state changes. *)
Theorem showcmd_shows_keys (keys : list ascii) (keylen : Z) (append : bool) s :
  bufs_ok s → 0 < keylen ≤ Z.of_nat (length keys) →
  ∃ s' (j : nat),
    showcmd keys keylen append s = Ok s'
    ∧ Z.of_nat j ≤ keylen
    ∧ take (Z.to_nat (slen s')) (showbuf s')
      = (if append then take (Z.to_nat (slen s)) (showbuf s) else [])
        ++ show_keys (take j keys)
    ∧ showbuf s' !! Z.to_nat (slen s') = Some NUL
    ∧ statusbar_cmd s'
      = c_string (cstr ((if append then take (Z.to_nat (slen s)) (showbuf s) else [])
                        ++ show_keys (take j keys)))
    ∧ (Z.of_nat j = keylen ∨ 10 ≤ slen s')
    ∧ bufs_ok s' ∧ same_but_display s s'.
Proof. apply showcmd_shows. Qed.

(** The lookup leaves the display as it is where it counts no ambiguous
    match, and shows the keys in the queue where it counts one. *)
Lemma lookup_display (l : list Map) (timeout : bool) (acc : option Map) (a : Z) s
    s' (res : option Map) (a' : Z) :
  0 < qlen s ≤ LENGTH (queue s) → bufs_ok s →
  lookup l timeout acc a s = Ok (s', res, a') →
  (a' = a ∧ showbuf s' = showbuf s ∧ slen s' = slen s
   ∧ statusbar_cmd s' = statusbar_cmd s)
  ∨ (a < a' ∧ shows_pending s s').
Proof.
  revert acc a s. induction l as [|m l IH]; intros acc a s Hq Hb H.
  { injection H as <- _ <-. by left. }
  cbn [lookup] in H. case_bool_decide as Hmode; [by apply IH in H |].
  inv_ok H. destruct a0 as [s1 a1]. inv_ok H. rename a0 into match1.
  assert (Hfirst : (s1 = s ∧ a1 = a)
                   ∨ (showcmd (queue s) (qlen s) false s = Ok s1 ∧ a1 = a + 1)).
  { revert Ha. destruct (negb timeout && _); [| intros [= <- <-]; by left].
    intros Ha. inv_ok Ha. destruct (bool_decide (a0 = 0)); [| injection Ha as <- <-; by left].
    inv_ok Ha. injection Ha as <- <-. by right. }
  destruct Hfirst as [[-> ->] | [Hshow ->]].
  - by apply IH in H.
  - destruct (showcmd_shows (queue s) (qlen s) false s Hb)
      as (s1' & j & Hshow' & Hj & Ht & _ & Hbar & Hend & Hb1 & Hd); [unfold LENGTH in *; lia |].
    rewrite Hshow in Hshow'. injection Hshow' as <-.
    destruct Hd as (_ & Hqu & Hql & _).
    assert (Hp : shows_pending s s1) by (by exists j).
    apply IH in H; [| by rewrite Hql, Hqu | done].
    right. destruct H as [(-> & Hsb & Hsl & Hst) | [Hlt Hp']].
    + split; [lia |]. destruct Hp as (j' & ? & ? & ? & ?).
      exists j'. by rewrite Hsb, Hsl, Hst.
    + split; [lia |]. destruct Hp' as (j' & ? & ? & ? & ?).
      exists j'. by rewrite <- Hql, <- Hqu.
Qed.

(** A run of the loop that returns [MAP_AMBIGUOUS] returns from the lookup of
    its last round. *)
Lemma resolve_ambiguous_lookup (fuel : nat) (timeout : bool) (acc : option Map) s s' :
  wf_state s → resolve fuel timeout acc s = Ok (MAP_AMBIGUOUS, s') →
  ∃ s1 res amb, wf_state s1 ∧ qlen s1 ≠ 0
    ∧ lookup_round timeout s1 = Ok (s', res, amb) ∧ amb ≠ 0.
Proof.
  revert acc s. induction fuel as [|fuel IH]; intros acc s Hwf H; [done |].
  rewrite resolve_unfold in H.
  pose proof Hwf as ((Hr & Hq) & Hb & Hmaps).
  destruct (drain_ok (Z.to_nat (resolved s)) s) as (s1 & ks & Hdr & Hks & Hd);
    [lia | done |].
  rewrite Hdr, bind_Ok_l in H.
  destruct Hd as (Hq1 & Hr1 & Hc1 & Hl1 & Hm1 & _ & _ & _ & _ & _ & Hb1).
  assert (Hwf1 : wf_state s1).
  { unfold wf_state, queue_inv, LENGTH in *. rewrite Hm1, Hl1. split; [lia | done]. }
  destruct (decide (qlen s1 = 0)) as [Hq0 | Hq0].
  { rewrite bool_decide_eq_true_2 in H by done. by destruct acc. }
  rewrite bool_decide_eq_false_2 in H by done.
  destruct (lookup_round_ok timeout s1) as (s2 & res & Hlk & Hd2 & Hb2 & Hres); [done |].
  rewrite Hlk, bind_Ok_l in H.
  assert (Hwf2 : wf_state s2) by (by eapply wf_state_display).
  pose proof Hd2 as (Hm2 & Hqu2 & Hql2 & Hr2 & _).
  destruct (decide ((if bool_decide (nomap s1) || timeout then 0
                     else count_ambiguous s1 (mlist s1)) ≠ 0)) as [Hamb | Hamb].
  { rewrite bool_decide_eq_true_2 in H by done. injection H as <-.
    eexists s1, res, _. split; [done |]. split; [done |]. split; [exact Hlk | done]. }
  rewrite bool_decide_eq_false_2 in H by done.
  unfold LENGTH in *.
  destruct res as [m|].
  - destruct Hres as [_ [[[=] _] | (l1 & l2 & Hl & Hfull & _)]].
    assert (Hm : wf_Map m).
    { rewrite Forall_forall in Hmaps. apply Hmaps. rewrite <- Hm1, Hl.
      apply elem_of_app. right. by apply elem_of_cons; left. }
    destruct Hfull as (_ & Hlen & _).
    inv_ok H. rename a into s3, Ha into Hsub.
    pose proof (substitute_Ok_room m s2 s3 Hm) as Hroom.
    rewrite Hqu2, Hql2 in Hroom. unfold LENGTH in Hroom. rewrite Hl1 in Hroom.
    specialize (Hroom ltac:(lia) Hsub).
    destruct (substitute_ok m s2) as (q' & Hsub' & Hl' & _);
      [done | lia | unfold LENGTH in *; rewrite Hqu2, Hql2, Hl1; lia |].
    rewrite Hsub' in Hsub. injection Hsub as <-.
    apply IH in H; [done |].
    destruct Hm as (? & ? & _).
    unfold wf_state, queue_inv, bufs_ok, LENGTH in *. unfold_state.
    rewrite Hm2, Hl'. rewrite Hqu2, Hql2 in *. split; [lia | tauto].
  - destruct (literal_ok s2) as (buf & sl & k & _ & Hlit & Hlb & Hsl);
      [unfold LENGTH in *; rewrite Hqu2, Hql2, Hl1; lia | done |].
    rewrite Hlit, bind_Ok_l in H.
    apply IH in H; [done |].
    unfold wf_state, queue_inv, bufs_ok, LENGTH in *. unfold_state.
    rewrite Hm2. rewrite Hqu2, Hql2 in *. split; [lia | tauto].
Qed.

(** X18.  While [map_handle_keys] waits, the keys that wait are on display:
    when it returns [MAP_AMBIGUOUS], the label of the status bar shows the keys
    in the queue, control characters as [^] and their letter, all of them or
    as many as make ten characters or more. *)
Theorem ambiguous_shows_pending_keys (fuel : nat) (keys : list ascii) (keylen : Z)
    s s' :
  wf_state s → keylen ≤ Z.of_nat (length keys) →
  map_handle_keys fuel keys keylen s = Ok (MAP_AMBIGUOUS, s') →
  ∃ j : nat,
    (j ≤ length (content s'))%nat
    ∧ statusbar_cmd s' = c_string (cstr (show_keys (take j (content s'))))
    ∧ take (Z.to_nat (slen s')) (showbuf s') = show_keys (take j (content s'))
    ∧ (j = length (content s') ∨ 10 ≤ slen s').
Proof.
  intros Hwf Hk H. rewrite map_handle_keys_unfold in H.
  destruct (arm_timeout_fields keylen s) as (Hm & Hqu & Hql & Hr & Hsb & Hsl & Hv & Htr).
  pose proof Hwf as ((Hres & Hq) & (Hb1 & Hb2) & Hmaps).
  set (s0 := arm_timeout keylen s) in *.
  destruct (enqueue_ok keys keylen s0) as (q & Henq & Hl & _);
    [rewrite Hql, Hqu; lia | lia |].
  rewrite Henq, bind_Ok_l in H.
  set (n := Z.to_nat (Z.min keylen (LENGTH (queue s0) - qlen s0))) in *.
  set (s1 := set_qlen (qlen s0 + Z.of_nat n) (set_queue q s0)) in *.
  assert (Hn : 0 ≤ Z.of_nat n ∧ qlen s0 + Z.of_nat n ≤ LENGTH (queue s0)).
  { unfold n. rewrite Hql, Hqu. lia. }
  assert (Hwf1 : wf_state s1).
  { unfold wf_state, queue_inv, bufs_ok, LENGTH in *. unfold s1. unfold_state.
    rewrite Hm, Hr, Hql, Hsb, Hsl, Hl, Hqu in *. split; [lia | done]. }
  apply resolve_ambiguous_lookup in H as (s2 & res & amb & Hwf2 & Hq2 & Hlk & Hamb);
    [| done].
  pose proof Hwf2 as ((Hr2 & Hqc2) & Hbufs2 & _).
  unfold lookup_round in Hlk.
  destruct (bool_decide (Z.land (mode_flags (vb s2)) FLAG_NOMAP = 0));
    [| by injection Hlk as _ _ <-].
  pose proof (lookup_inv _ _ _ _ _ _ _ _ Hlk) as (_ & Hqu' & Hql' & _).
  apply lookup_display in Hlk as [(-> & _) | [_ (j & Hj & Ht & Hbar & Hend)]];
    [done | | lia | done].
  assert (Hlen : length (content s') = Z.to_nat (qlen s')).
  { apply content_length. rewrite Hql', Hqu'. lia. }
  assert (Htj : take j (queue s2) = take j (content s')).
  { unfold content. rewrite take_take, Hqu', Hql'. f_equal. lia. }
  exists j. rewrite <- Htj. split; [lia |]. split; [done |]. split; [done |].
  destruct Hend; [left; lia | by right].
Qed.

End DisplayMore.

(** ** Key presses *)

Section KeypressProofs.
Context {W : Type} {E : Env (VbState W)}.
Implicit Type s : state (VbState W).

(** The key of a letter pressed with Control. *)
Lemma keypress_key_ctrl_letter (event : GdkEventKey) :
  Z.land (ev_state event) GDK_CONTROL_MASK ≠ 0 →
  0x41 ≤ keyval event ≤ 0x5d ∨ 0x61 ≤ keyval event ≤ 0x7a →
  keypress_key event
  = if bool_decide (keyval event ≤ 0x5d) then keyval event - 0x40
    else keyval event - 0x60.
Proof.
  intros Hctrl Hx. unfold keypress_key.
  rewrite (bool_decide_eq_false_2 (Z.land _ _ = 0)) by done. cbn [andb].
  unfold GDK_Escape, GDK_Tab, GDK_ISO_Left_Tab, GDK_Return, GDK_BackSpace, GDK_Up,
    GDK_Down.
  rewrite !(bool_decide_eq_false_2 (keyval event = _)) by lia.
  destruct (decide (keyval event ≤ 0x5d)) as [Hle | Hgt].
  - rewrite (bool_decide_eq_true_2 (0x41 ≤ keyval event)) by lia.
    by rewrite !(bool_decide_eq_true_2 (keyval event ≤ 0x5d)) by lia.
  - rewrite !(bool_decide_eq_false_2 (keyval event ≤ 0x5d)) by lia.
    rewrite andb_false_r.
    rewrite (bool_decide_eq_true_2 (0x61 ≤ keyval event)) by lia.
    by rewrite (bool_decide_eq_true_2 (keyval event ≤ 0x7a)) by lia.
Qed.

(** X19.  The key that [map_keypress] makes of Control with a letter is the
    key that [map_convert_keys] makes of [<C-X>] with that letter, for the
    letters [A] to [\]] and [a] to [z] alike: a map written with [<C-X>] is
    the map of the key pressed.  The key is one of the bytes 1 to 29. *)
Theorem ctrl_keypress_matches_notation (event : GdkEventKey) (x : ascii) :
  Z.land (ev_state event) GDK_CONTROL_MASK ≠ 0 → keyval event = char_code x →
  0x41 ≤ char_code x ≤ 0x5d ∨ 0x61 ≤ char_code x ≤ 0x7a →
  map_convert_keys (cstr ["<"%char; "C"%char; "-"%char; x; ">"%char])
    (strlen (cstr ["<"%char; "C"%char; "-"%char; x; ">"%char]))
  = Ok ([char_of (keypress_key event)], 1)
  ∧ 1 ≤ keypress_key event ≤ 29.
Proof.
  intros Hctrl Hkv Hx.
  rewrite keypress_key_ctrl_letter by (done || lia). rewrite Hkv.
  split; [| case_bool_decide; lia].
  assert (Hname : Forall name_char ["C"%char; "-"%char; x]).
  { repeat apply Forall_cons_2; try apply Forall_nil_2; try by repeat split.
    repeat split; intros ->.
    - change (char_code "<"%char) with 60 in Hx. lia.
    - change (char_code ">"%char) with 62 in Hx. lia.
    - change (char_code " "%char) with 32 in Hx. lia.
    - change (char_code NUL) with 0 in Hx. lia. }
  assert (Hnil : NUL ∉ @nil ascii) by apply not_elem_of_nil.
  pose proof (map_convert_keys_closed ["C"%char; "-"%char; x] [] [] Hname Hnil eq_refl)
    as Htok.
  rewrite !app_nil_r in Htok. cbn [app] in Htok. rewrite Htok.
  assert (Hr : bool_decide (65 ≤ char_code x ≤ 93) || bool_decide (97 ≤ char_code x ≤ 122)
               = true).
  { apply orb_true_iff. rewrite !bool_decide_eq_true. lia. }
  assert (Htr : token_raw ["<"%char; "C"%char; "-"%char; x; ">"%char] = [ctrl_raw x]).
  { unfold token_raw. simpl. by rewrite Hr. }
  rewrite Htr. unfold ctrl_raw. by destruct (bool_decide (char_code x ≤ 93)).
Qed.

Lemma char_of_code (c : ascii) : char_of (char_code c) = c.
Proof.
  unfold char_of, char_code. pose proof (char_code_range c) as Hr.
  unfold char_code in Hr. rewrite Z.mod_small by lia.
  rewrite N2Z.id. apply ascii_N_embedding.
Qed.

Lemma char_code_of (z : Z) : 0 ≤ z < 256 → char_code (char_of z) = z.
Proof.
  intros Hz. unfold char_of, char_code. rewrite Z.mod_small by lia.
  rewrite N_ascii_embedding by lia. lia.
Qed.

(** X20.  The key [map_keypress] makes of an event is a byte, so the one
    [char] of [key] that it hands to [map_handle_keys] is the whole key. *)
Theorem keypress_key_is_byte (event : GdkEventKey) :
  0 ≤ keypress_key event < 256
  ∧ char_code (char_of (keypress_key event)) = keypress_key event.
Proof.
  assert (Hr : 0 ≤ keypress_key event < 256); [| split; [done | by apply char_code_of]].
  unfold keypress_key.
  destruct (_ && bool_decide (keyval event < 255)) eqn:Hplain.
  { apply andb_true_iff in Hplain as [Hplain Hlt].
    apply andb_true_iff in Hplain as [_ Hgt].
    apply bool_decide_eq_true in Hlt, Hgt. lia. }
  repeat match goal with
         | |- context [bool_decide (keyval event = ?c)] =>
             destruct (bool_decide (keyval event = c)); [apply char_code_range |]
         end.
  destruct (bool_decide (65 ≤ keyval event) && bool_decide (keyval event ≤ 93)) eqn:Hup.
  { apply andb_true_iff in Hup as [Ha Hb]. apply bool_decide_eq_true in Ha, Hb. lia. }
  destruct (bool_decide (97 ≤ keyval event) && bool_decide (keyval event ≤ 122)) eqn:Hlo.
  { apply andb_true_iff in Hlo as [Ha Hb]. apply bool_decide_eq_true in Ha, Hb. lia. }
  lia.
Qed.

(** X21.  The keys that have a label in [map_convert_keylabel] are the keys
    [map_keypress] makes of the key symbols of that name, whatever modifier
    is held: Return is [<CR>], and, where [CTRL] of main.h makes the escape
    character of [\[] and the tabulator of [I], Escape is [<Esc>] and Tab is
    [<Tab>]. *)
Theorem named_keypress_matches_notation (st : Z) :
  CTRL "["%char = "027"%char → CTRL "I"%char = "009"%char →
  translate "<CR>"
  = Ok ([char_of (keypress_key {| ev_state := st; keyval := GDK_Return |})], 1)
  ∧ translate "<Esc>"
    = Ok ([char_of (keypress_key {| ev_state := st; keyval := GDK_Escape |})], 1)
  ∧ translate "<Tab>"
    = Ok ([char_of (keypress_key {| ev_state := st; keyval := GDK_Tab |})], 1).
Proof.
  intros Hesc Htab. unfold keypress_key. cbn [keyval ev_state].
  change (bool_decide (GDK_Return < 255)) with false.
  change (bool_decide (GDK_Escape < 255)) with false.
  change (bool_decide (GDK_Tab < 255)) with false.
  rewrite !andb_false_r.
  change (bool_decide (GDK_Return = GDK_Escape)) with false.
  change (bool_decide (GDK_Return = GDK_Tab)) with false.
  change (bool_decide (GDK_Return = GDK_ISO_Left_Tab)) with false.
  change (bool_decide (GDK_Return = GDK_Return)) with true.
  change (bool_decide (GDK_Escape = GDK_Escape)) with true.
  change (bool_decide (GDK_Tab = GDK_Escape)) with false.
  change (bool_decide (GDK_Tab = GDK_Tab)) with true.
  cbn iota. rewrite !char_of_code, Hesc, Htab. done.
Qed.

(** X22.  [map_keypress] takes no notice of a key that it has no byte for:
    a key symbol from 0xff on that is none of Escape, Tab, the left Tab,
    Return, BackSpace, Up and Down, and a key pressed with Control that is
    none of these and no letter from [A] to [\]] or [a] to [z].  No key is
    queued or sent, no timeout is started, and [map_keypress] returns false,
    having set [processed_key] to false. *)
Theorem unhandled_keypress_ignored (fuel : nat) (event : GdkEventKey) s :
  Z.land (ev_state event) GDK_CONTROL_MASK ≠ 0 ∨ 0xff ≤ keyval event
  ∨ keyval event ≤ 0 →
  keyval event ∉ [GDK_Escape; GDK_Tab; GDK_ISO_Left_Tab; GDK_Return; GDK_BackSpace;
                  GDK_Up; GDK_Down] →
  ¬ (0x41 ≤ keyval event ≤ 0x5d) → ¬ (0x61 ≤ keyval event ≤ 0x7a) →
  map_keypress fuel event s = Ok (false, set_processed_key false s).
Proof.
  intros Hfirst Hspecial Hup Hlo.
  assert (Hkey : keypress_key event = 0).
  { unfold keypress_key.
    assert (Hplain : bool_decide (Z.land (ev_state event) GDK_CONTROL_MASK = 0)
                     && bool_decide (0 < keyval event)
                     && bool_decide (keyval event < 255) = false).
    { destruct Hfirst as [Hc | [Hge | Hle]].
      - by rewrite (bool_decide_eq_false_2 (Z.land _ _ = 0)) by done.
      - rewrite (bool_decide_eq_false_2 (keyval event < 255)) by lia.
        by rewrite andb_false_r.
      - rewrite (bool_decide_eq_false_2 (0 < keyval event)) by lia.
        by rewrite andb_false_r. }
    rewrite Hplain. rewrite !not_elem_of_cons in Hspecial.
    destruct Hspecial as (? & ? & ? & ? & ? & ? & ? & _).
    rewrite !(bool_decide_eq_false_2 (keyval event = _)) by done.
    destruct (bool_decide (65 ≤ keyval event) && bool_decide (keyval event ≤ 93)) eqn:Hu.
    { apply andb_true_iff in Hu as [Ha Hb]. apply bool_decide_eq_true in Ha, Hb. lia. }
    destruct (bool_decide (97 ≤ keyval event) && bool_decide (keyval event ≤ 122)) eqn:Hl.
    { apply andb_true_iff in Hl as [Ha Hb]. apply bool_decide_eq_true in Ha, Hb. lia. }
    done. }
  unfold map_keypress. rewrite Hkey.
  rewrite (bool_decide_eq_false_2 (0 ≠ 0)) by (intros Hne; by apply Hne).
  reflexivity.
Qed.

(** [map_handle_keys] reads no more than [keylen] of the keys. *)
Lemma enqueue_take (keys : list ascii) (keylen : Z) s :
  enqueue keys keylen s = enqueue (take (Z.to_nat keylen) keys) keylen s.
Proof.
  revert keylen s. induction keys as [|k keys IH]; intros keylen s.
  { by rewrite take_nil. }
  destruct (decide (0 < keylen)) as [Hpos | Hneg].
  - replace (Z.to_nat keylen) with (S (Z.to_nat (keylen - 1))) by lia.
    cbn [take enqueue]. destruct (_ && _); [| done].
    destruct (wr (queue s) (qlen s) k) as [q| |]; [| done | done].
    rewrite !bind_Ok_l. apply IH.
  - replace (Z.to_nat keylen) with 0%nat by lia. cbn [take enqueue].
    rewrite (bool_decide_eq_false_2 (0 < keylen)) by done.
    by rewrite andb_false_r.
Qed.

Lemma map_handle_keys_take (fuel : nat) (keys : list ascii) (keylen : Z) s :
  map_handle_keys fuel keys keylen s
  = map_handle_keys fuel (take (Z.to_nat keylen) keys) keylen s.
Proof. rewrite !map_handle_keys_unfold. by rewrite enqueue_take. Qed.

Lemma set_processed_key_wf (b : bool) s : wf_state s → wf_state (set_processed_key b s).
Proof. done. Qed.

(** X23.  With no map in the table, a key pressed without Control whose key
    symbol is a byte from 1 to 0xfe reaches the key handler of the mode with
    [processed_key] false and the nomap flag removed.  The handler gets the
    [unsigned int] that the queued [char] converts to: the key symbol itself
    below 0x80 and, [char] being signed, the key symbol with the 24 bits
    above it set from 0x80 on.  [map_keypress] returns what the handler has
    made of [processed_key]. *)
Theorem plain_keypress_reaches_handler (event : GdkEventKey) s :
  wf_state s → mlist s = [] → qlen s = 0 → 0 < LENGTH (queue s) →
  Z.land (ev_state event) GDK_CONTROL_MASK = 0 → 0 < keyval event < 0xff →
  ∃ s',
    (∀ fuel : nat, (2 ≤ fuel)%nat →
       map_keypress fuel event s = Ok (processed_key (user (vb s')), s'))
    ∧ keys_sent (trace s') = keys_sent (trace s) ++ [char_of (keyval event)]
    ∧ vb s'
      = (mode_handle_key
           (if bool_decide (keyval event < 0x80) then keyval event
            else keyval event + 0xffffff00)
           (Build_VbCore (mode_id (vb s))
              (Z.land (mode_flags (vb s)) (Z.lnot FLAG_NOMAP))
              (Build_VbState false (state_rest (user (vb s)))))).2.
Proof.
  intros Hwf Hnil Hq0 Hcap Hctrl Hkv.
  assert (Hkey : keypress_key event = keyval event).
  { unfold keypress_key. by rewrite !bool_decide_eq_true_2 by (done || lia). }
  assert (Harg : uint_of_char (char_of (keyval event))
                 = if bool_decide (keyval event < 0x80) then keyval event
                   else keyval event + 0xffffff00).
  { unfold uint_of_char. rewrite char_code_of by lia.
    case_bool_decide; [done | lia]. }
  destruct (no_maps_run (key_bytes (keyval event)) 1 (set_processed_key false s))
    as (s' & tr' & Hrun & Habs & Hsent & _);
    [by apply set_processed_key_wf | done | done | simpl; lia |].
  change (LENGTH (queue (set_processed_key false s))) with (LENGTH (queue s)) in *.
  replace (Z.to_nat (Z.min 1 (LENGTH (queue s)))) with 1%nat in * by lia.
  injection Habs as _ _ Hvb Ht.
  exists s'. split; [| split; [by rewrite Ht |]].
  - intros fuel Hf. unfold map_keypress. rewrite Hkey.
    rewrite (bool_decide_eq_true_2 (keyval event ≠ 0)) by lia.
    rewrite (map_handle_keys_mono 2 fuel _ _ _ _ Hf Hrun). reflexivity.
  - rewrite Hvb. cbn [take key_bytes feed]. by rewrite Harg.
Qed.

(** X24.  A key that starts the lhs of a map of the mode without being all
    of it is kept back: nothing is sent to the key handler, and
    [map_keypress] returns false, [processed_key] being false as it was
    set. *)
Theorem pending_keypress_returns_false (event : GdkEventKey) (m : Map) (rest : list ascii)
    s :
  wf_state s → qlen s = 0 → 0 < LENGTH (queue s) → ¬ nomap s →
  m ∈ mlist s → mode m = mode_id (vb s) →
  keypress_key event ≠ 0 → rest ≠ [] →
  in_ m = char_of (keypress_key event) :: rest →
  ∃ s',
    (∀ fuel : nat, (1 ≤ fuel)%nat → map_keypress fuel event s = Ok (false, s'))
    ∧ trace s' = trace s ∧ content s' = [char_of (keypress_key event)].
Proof.
  intros Hwf Hq0 Hcap Hflag Hin Hmode Hkey Hrest Hlhs.
  destruct (prefix_waits [char_of (keypress_key event)] m (set_processed_key false s))
    as (s' & Hrun & Habs); try done.
  - simpl. change (LENGTH (queue (set_processed_key false s))) with (LENGTH (queue s)). lia.
  - rewrite Hlhs. destruct rest; [done | simpl; lia].
  - by rewrite Hlhs.
  - injection Habs as Hc _ Hvb Ht.
    exists s'. split; [| done].
    intros fuel Hf. unfold map_keypress.
    rewrite (bool_decide_eq_true_2 (keypress_key event ≠ 0)) by done.
    rewrite map_handle_keys_take. change (Z.to_nat 1) with 1%nat.
    change (take 1 (key_bytes (keypress_key event)))
      with [char_of (keypress_key event)].
    change 1 with (Z.of_nat (length [char_of (keypress_key event)])) at 1.
    rewrite (map_handle_keys_mono 1 fuel _ _ _ _ Hf Hrun).
    cbn [mbind res_bind snd]. by rewrite Hvb.
Qed.

End KeypressProofs.

(** * The properties at work on concrete tables *)

Lemma table_none_wf : wf_state table_none.
Proof. by_compute. Defined.

Lemma table_nomap_wf : wf_state table_nomap.
Proof. by_compute. Defined.

Lemma key_table_wf : wf_state key_table.
Proof. by_compute. Defined.

Lemma key_table_none_wf : wf_state key_table_none.
Proof. by_compute. Defined.

Lemma map_handle_keys_keeps_invariant_witness :
  ∃ s', wf_state table_a_ab ∧ 1 ≤ Z.of_nat (length (keys_of "a"))
    ∧ map_handle_keys (E := vi_env) 3 (keys_of "a") 1 table_a_ab = Ok (MAP_AMBIGUOUS, s')
    ∧ wf_state s' ∧ resolved s' = 0 ∧ mlist s' = mlist table_a_ab
    ∧ length (queue s') = length (queue table_a_ab).
Proof.
  assert (H : ∃ s', map_handle_keys (E := vi_env) 3 (keys_of "a") 1 table_a_ab
                    = Ok (MAP_AMBIGUOUS, s')) by (eexists; vm_compute; reflexivity).
  destruct H as [s' H]. exists s'.
  split; [apply table_a_ab_wf |]. split; [simpl; lia |]. split; [exact H |].
  apply (map_handle_keys_keeps_invariant (E := vi_env) 3 (keys_of "a") 1 table_a_ab
           MAP_AMBIGUOUS s'); [apply table_a_ab_wf | simpl; lia | exact H].
Defined.

Lemma ambiguous_means_prefix_pending_witness :
  ∃ s', wf_state table_a_ab ∧ 1 ≤ Z.of_nat (length (keys_of "a"))
    ∧ map_handle_keys (E := vi_env) 3 (keys_of "a") 1 table_a_ab = Ok (MAP_AMBIGUOUS, s')
    ∧ 1 ≠ 0 ∧ ¬ nomap (E := vi_env) s' ∧ 0 < qlen s'
    ∧ ∃ m, m ∈ mlist s' ∧ ambiguous_match s' m.
Proof.
  assert (H : ∃ s', map_handle_keys (E := vi_env) 3 (keys_of "a") 1 table_a_ab
                    = Ok (MAP_AMBIGUOUS, s')) by (eexists; vm_compute; reflexivity).
  destruct H as [s' H]. exists s'.
  split; [apply table_a_ab_wf |]. split; [simpl; lia |]. split; [exact H |].
  apply (ambiguous_means_prefix_pending (E := vi_env) 3 (keys_of "a") 1 table_a_ab s');
    [apply table_a_ab_wf | simpl; lia | exact H].
Defined.

Lemma timeout_flushes_queue_witness :
  ∃ s', wf_state (with_keys "a" table_a_ab)
    ∧ map_handle_keys (E := vi_env) 3 [] 0 (with_keys "a" table_a_ab) = Ok (MAP_DONE, s')
    ∧ MAP_DONE ≠ MAP_AMBIGUOUS ∧ qlen s' = 0 ∧ resolved s' = 0
    ∧ timout_id s' = timout_id (with_keys "a" table_a_ab)
    ∧ sources s' = sources (with_keys "a" table_a_ab).
Proof.
  assert (Hwf : wf_state (with_keys "a" table_a_ab)) by by_compute.
  assert (H : ∃ s', map_handle_keys (E := vi_env) 3 [] 0 (with_keys "a" table_a_ab)
                    = Ok (MAP_DONE, s')) by (eexists; vm_compute; reflexivity).
  destruct H as [s' H]. exists s'. split; [exact Hwf |]. split; [exact H |].
  exact (timeout_flushes_queue (E := vi_env) 3 [] (with_keys "a" table_a_ab)
           MAP_DONE s' Hwf H).
Defined.

Lemma prefix_of_lhs_waits_witness :
  wf_state table_a_ab ∧ qlen table_a_ab = 0 ∧ ¬ nomap (E := vi_env) table_a_ab
  ∧ mk_map "ab" "2" "n" ∈ mlist table_a_ab
  ∧ ∃ s',
      (∀ fuel : nat, (1 ≤ fuel)%nat →
         map_handle_keys (E := vi_env) fuel (keys_of "a")
           (Z.of_nat (length (keys_of "a"))) table_a_ab = Ok (MAP_AMBIGUOUS, s'))
      ∧ trace s' = trace table_a_ab ∧ content s' = keys_of "a"
      ∧ vb s' = vb table_a_ab.
Proof.
  assert (Hin : mk_map "ab" "2" "n" ∈ mlist table_a_ab) by (by apply elem_of_cons; left).
  assert (Hflag : ¬ nomap (E := vi_env) table_a_ab) by (intros H; by apply H).
  split; [apply table_a_ab_wf |]. split; [reflexivity |]. split; [exact Hflag |].
  split; [exact Hin |].
  apply (prefix_of_lhs_waits (E := vi_env) (keys_of "a") (mk_map "ab" "2" "n")
           table_a_ab); try done.
  - apply table_a_ab_wf.
  - simpl. lia.
Defined.

Lemma no_maps_transparent_witness :
  wf_state table_none ∧ mlist table_none = [] ∧ qlen table_none = 0
  ∧ ∃ s',
      (∀ fuel : nat, Z.min 5 (LENGTH (queue table_none)) < Z.of_nat fuel →
         map_handle_keys (E := vi_env) fuel (keys_of "hello") 5 table_none
         = Ok (MAP_NOMATCH, s'))
      ∧ keys_sent (trace s') = keys_of "hell".
Proof.
  split; [apply table_none_wf |]. split; [reflexivity |]. split; [reflexivity |].
  destruct (no_maps_transparent (E := vi_env) (keys_of "hello") 5 table_none)
    as (s' & Hrun & Hsent & _); [apply table_none_wf | done | done | simpl; lia |].
  exists s'. split; [exact Hrun | exact Hsent].
Defined.

Lemma nomap_key_bypasses_maps_witness :
  wf_state table_nomap ∧ qlen table_nomap = 0 ∧ 0 < LENGTH (queue table_nomap)
  ∧ nomap (E := vi_env) table_nomap
  ∧ ∃ s',
      (∀ fuel : nat, (2 ≤ fuel)%nat →
         map_handle_keys (E := vi_env) fuel ["a"%char] 1 table_nomap
         = Ok (MAP_NOMATCH, s'))
      ∧ trace s' = trace table_nomap ++ [EvLiteral "a"%char; EvKey "a"%char].
Proof.
  assert (Hflag : nomap (E := vi_env) table_nomap) by (vm_compute; discriminate).
  split; [apply table_nomap_wf |]. split; [reflexivity |]. split; [reflexivity |].
  split; [exact Hflag |].
  destruct (nomap_key_bypasses_maps (E := vi_env) "a"%char table_nomap)
    as (s' & Hrun & Ht & _); [apply table_nomap_wf | done | done | done |].
  exists s'. split; [exact Hrun | exact Ht].
Defined.

Lemma inserted_map_applies_witness :
  let s := map_init 8 "n" tt in
  let lhs := ["023"%char; "x"%char] in
  let rhs := ["010"%char] in
  wf_state s ∧ qlen s = 0 ∧ ¬ nomap (E := vi_env) s
  ∧ translate "<C-w>x" = Ok (lhs, 2) ∧ translate "<CR>" = Ok (rhs, 1)
  ∧ ∃ s1 s2,
      map_insert (keys_of "<C-w>x") (keys_of "<CR>") "n" s = Ok s1
      ∧ (∀ fuel : nat, (2 ≤ fuel)%nat →
           map_handle_keys (E := vi_env) fuel lhs 2 s1 = Ok (MAP_DONE, s2))
      ∧ keys_sent (trace s2) = rhs.
Proof.
  intros s lhs rhs.
  assert (Hwf : wf_state s) by by_compute.
  assert (Hflag : ¬ nomap (E := vi_env) s) by (intros H; by apply H).
  split; [exact Hwf |]. split; [reflexivity |]. split; [exact Hflag |].
  split; [reflexivity |]. split; [reflexivity |].
  destruct (inserted_map_applies (E := vi_env) (keys_of "<C-w>x") (keys_of "<CR>")
              lhs rhs s) as (s1 & s2 & Hins & Hrun & Hsent & _); try done.
  - simpl. lia.
  - intros m Hin. by apply elem_of_nil in Hin.
  - exists s1, s2. split; [exact Hins |]. split; [exact Hrun | exact Hsent].
Defined.

Lemma empty_lhs_never_returns_witness :
  let s := map_init 8 "n" tt in
  wf_state s ∧ mlist s = [] ∧ qlen s = 0 ∧ 0 < LENGTH (queue s)
  ∧ ¬ nomap (E := vi_env) s
  ∧ ∃ s1,
      map_insert [] (keys_of "x") "n" s = Ok s1
      ∧ ∀ (fuel : nat) (r : MapState) s',
          map_handle_keys (E := vi_env) fuel ["a"%char] 1 s1 ≠ Ok (r, s').
Proof.
  intros s.
  assert (Hwf : wf_state s) by by_compute.
  assert (Hflag : ¬ nomap (E := vi_env) s) by (intros H; by apply H).
  split; [exact Hwf |]. split; [reflexivity |]. split; [reflexivity |].
  split; [reflexivity |]. split; [exact Hflag |].
  exact (empty_lhs_never_returns (E := vi_env) (keys_of "x") "a"%char s Hwf
           eq_refl eq_refl eq_refl Hflag).
Defined.

Lemma enqueue_drops_excess_keys_witness :
  0 ≤ qlen table_none ≤ LENGTH (queue table_none)
  ∧ 0 ≤ 5 ≤ Z.of_nat (length (keys_of "hello"))
  ∧ ∃ s', enqueue (keys_of "hello") 5 table_none = Ok s'
      ∧ qlen s' = 4 ∧ content s' = keys_of "hell".
Proof.
  assert (H1 : 0 ≤ qlen table_none ≤ LENGTH (queue table_none))
    by (vm_compute; split; discriminate).
  assert (H2 : 0 ≤ 5 ≤ Z.of_nat (length (keys_of "hello"))) by (simpl; lia).
  split; [exact H1 |]. split; [exact H2 |].
  destruct (enqueue_drops_excess_keys (keys_of "hello") 5 table_none H1 H2)
    as (s' & Henq & Hq & Hc & _).
  exists s'. split; [exact Henq |]. split; [exact Hq | exact Hc].
Defined.

Lemma drain_sends_in_order_witness :
  let s := with_keys "abc" table_ab_x in
  Z.of_nat 2 ≤ qlen s ≤ LENGTH (queue s) ∧ bufs_ok s
  ∧ ∃ s', drain (E := vi_env) 2 s = Ok s'
      ∧ trace s' = trace s ++ [EvKey "a"%char; EvKey "b"%char]
      ∧ content s' = keys_of "c".
Proof.
  intros s.
  assert (H1 : Z.of_nat 2 ≤ qlen s ≤ LENGTH (queue s)) by (vm_compute; split; discriminate).
  assert (H2 : bufs_ok s) by (split; [reflexivity | simpl; lia]).
  split; [exact H1 |]. split; [exact H2 |].
  destruct (drain_sends_in_order (E := vi_env) 2 s H1 H2) as (s' & Hdr & Ht & Hc & _).
  exists s'. split; [exact Hdr |]. split; [exact Ht | exact Hc].
Defined.

Lemma key_call_restarts_timeout_witness :
  ∃ s', wf_state table_a_ab ∧ one_timeout table_a_ab
    ∧ map_handle_keys (E := vi_env) 3 (keys_of "a") 1 table_a_ab = Ok (MAP_AMBIGUOUS, s')
    ∧ sources s' = [(timout_id s', 1000)] ∧ timout_id s' = next_source table_a_ab
    ∧ one_timeout s'.
Proof.
  assert (H : ∃ s', map_handle_keys (E := vi_env) 3 (keys_of "a") 1 table_a_ab
                    = Ok (MAP_AMBIGUOUS, s')) by (eexists; vm_compute; reflexivity).
  assert (Hone : one_timeout table_a_ab).
  { split; [reflexivity |]. intros src Hin. by apply elem_of_nil in Hin. }
  destruct H as [s' H]. exists s'.
  split; [apply table_a_ab_wf |]. split; [exact Hone |]. split; [exact H |].
  apply (key_call_restarts_timeout (E := vi_env) 3 (keys_of "a") 1 table_a_ab
           MAP_AMBIGUOUS s'); [apply table_a_ab_wf | exact Hone | simpl; lia | done | exact H].
Defined.

Lemma showcmd_shows_keys_witness :
  bufs_ok table_a_ab ∧ 0 < 2 ≤ Z.of_nat (length ["001"%char; "a"%char])
  ∧ ∃ s', showcmd (E := vi_env) ["001"%char; "a"%char] 2 false table_a_ab = Ok s'
      ∧ statusbar_cmd s' = keys_of "^Aa".
Proof.
  assert (H1 : bufs_ok table_a_ab) by (split; [reflexivity | simpl; lia]).
  assert (H2 : 0 < 2 ≤ Z.of_nat (length ["001"%char; "a"%char])) by (simpl; lia).
  split; [exact H1 |]. split; [exact H2 |].
  destruct (showcmd_shows_keys (E := vi_env) ["001"%char; "a"%char] 2 false table_a_ab
              H1 H2) as (s' & j & Hshow & _).
  exists s'. split; [exact Hshow |].
  assert (Hrun : ∃ s2, showcmd (E := vi_env) ["001"%char; "a"%char] 2 false table_a_ab
                       = Ok s2 ∧ statusbar_cmd s2 = keys_of "^Aa")
    by (eexists; split; vm_compute; reflexivity).
  destruct Hrun as (s2 & Hrun & Hbar). rewrite Hrun in Hshow. by injection Hshow as <-.
Defined.

Lemma ambiguous_shows_pending_keys_witness :
  ∃ s', wf_state table_a_ab ∧ 1 ≤ Z.of_nat (length (keys_of "a"))
    ∧ map_handle_keys (E := vi_env) 3 (keys_of "a") 1 table_a_ab = Ok (MAP_AMBIGUOUS, s')
    ∧ ∃ j : nat,
        (j ≤ length (content s'))%nat
        ∧ statusbar_cmd s'
          = c_string (cstr (show_keys (E := vi_env) (take j (content s'))))
        ∧ take (Z.to_nat (slen s')) (showbuf s')
          = show_keys (E := vi_env) (take j (content s'))
        ∧ (j = length (content s') ∨ 10 ≤ slen s').
Proof.
  assert (H : ∃ s', map_handle_keys (E := vi_env) 3 (keys_of "a") 1 table_a_ab
                    = Ok (MAP_AMBIGUOUS, s')) by (eexists; vm_compute; reflexivity).
  destruct H as [s' H]. exists s'.
  split; [apply table_a_ab_wf |]. split; [simpl; lia |]. split; [exact H |].
  apply (ambiguous_shows_pending_keys (E := vi_env) 3 (keys_of "a") 1 table_a_ab s');
    [apply table_a_ab_wf | simpl; lia | exact H].
Defined.

Lemma ctrl_keypress_matches_notation_witness :
  Z.land (ev_state ctrl_w) GDK_CONTROL_MASK ≠ 0 ∧ keyval ctrl_w = char_code "w"%char
  ∧ translate "<C-w>" = Ok ([char_of (keypress_key (E := vi_key_env) ctrl_w)], 1)
  ∧ keypress_key (E := vi_key_env) ctrl_w = 23.
Proof.
  assert (H1 : Z.land (ev_state ctrl_w) GDK_CONTROL_MASK ≠ 0) by (vm_compute; discriminate).
  split; [exact H1 |]. split; [reflexivity |].
  split; [| reflexivity].
  apply (ctrl_keypress_matches_notation (E := vi_key_env) ctrl_w "w"%char H1 eq_refl).
  right. vm_compute. split; discriminate.
Defined.

Lemma named_keypress_matches_notation_witness :
  CTRL (Env := vi_key_env) "["%char = "027"%char
  ∧ CTRL (Env := vi_key_env) "I"%char = "009"%char
  ∧ translate "<Esc>"
    = Ok ([char_of (keypress_key (E := vi_key_env)
                      {| ev_state := 0; keyval := GDK_Escape |})], 1).
Proof.
  split; [reflexivity |]. split; [reflexivity |].
  apply (named_keypress_matches_notation (E := vi_key_env) 0 eq_refl eq_refl).
Defined.

Lemma unhandled_keypress_ignored_witness :
  Z.land (ev_state ctrl_1) GDK_CONTROL_MASK ≠ 0
  ∧ map_keypress (E := vi_key_env) 2 ctrl_1 key_table
    = Ok (false, set_processed_key false key_table).
Proof.
  assert (H1 : Z.land (ev_state ctrl_1) GDK_CONTROL_MASK ≠ 0) by (vm_compute; discriminate).
  split; [exact H1 |].
  apply (unhandled_keypress_ignored (E := vi_key_env) 2 ctrl_1 key_table).
  - by left.
  - by_compute.
  - vm_compute. intros [H _]. by apply H.
  - vm_compute. intros [H _]. by apply H.
Defined.

Lemma key_table_log_wf : wf_state key_table_log.
Proof. by_compute. Defined.

Lemma plain_keypress_reaches_handler_witness :
  wf_state key_table_log ∧ mlist key_table_log = [] ∧ qlen key_table_log = 0
  ∧ (∃ s',
       (∀ fuel : nat, (2 ≤ fuel)%nat →
          map_keypress (E := key_log_env) fuel plain_a key_table_log = Ok (true, s'))
       ∧ keys_sent (trace s') = keys_of "a"
       ∧ state_rest (user (vb s')) = [0x61])
  ∧ ∃ s',
      (∀ fuel : nat, (2 ≤ fuel)%nat →
         map_keypress (E := key_log_env) fuel plain_eacute key_table_log
         = Ok (true, s'))
      ∧ keys_sent (trace s') = ["233"%char]
      ∧ state_rest (user (vb s')) = [0xffffffe9].
Proof.
  split; [apply key_table_log_wf |]. split; [reflexivity |]. split; [reflexivity |].
  split.
  - destruct (plain_keypress_reaches_handler (E := key_log_env) plain_a key_table_log)
      as (s' & Hrun & Hsent & Hvb); try done.
    exists s'. split; [| split; [exact Hsent | by rewrite Hvb]].
    intros fuel Hf. rewrite (Hrun fuel Hf). by rewrite Hvb.
  - destruct (plain_keypress_reaches_handler (E := key_log_env) plain_eacute
                key_table_log)
      as (s' & Hrun & Hsent & Hvb); try done.
    exists s'. split; [| split; [exact Hsent | by rewrite Hvb]].
    intros fuel Hf. rewrite (Hrun fuel Hf). by rewrite Hvb.
Defined.

Lemma pending_keypress_returns_false_witness :
  wf_state key_table ∧ qlen key_table = 0 ∧ ¬ nomap (E := vi_key_env) key_table
  ∧ mk_map "ab" "x" "n" ∈ mlist key_table
  ∧ ∃ s',
      (∀ fuel : nat, (1 ≤ fuel)%nat →
         map_keypress (E := vi_key_env) fuel plain_a key_table = Ok (false, s'))
      ∧ trace s' = trace key_table ∧ content s' = keys_of "a".
Proof.
  assert (Hin : mk_map "ab" "x" "n" ∈ mlist key_table) by (by apply elem_of_cons; left).
  assert (Hflag : ¬ nomap (E := vi_key_env) key_table) by (intros H; by apply H).
  split; [apply key_table_wf |]. split; [reflexivity |]. split; [exact Hflag |].
  split; [exact Hin |].
  apply (pending_keypress_returns_false (E := vi_key_env) plain_a (mk_map "ab" "x" "n")
           ["b"%char] key_table); try done.
  apply key_table_wf.
Defined.

Lemma only_typed_or_mapped_keys_sent_witness :
  ∃ s', wf_state (with_keys "a" table_a_ab) ∧ 1 ≤ Z.of_nat (length (keys_of "b"))
    ∧ map_handle_keys (E := vi_env) 3 (keys_of "b") 1 (with_keys "a" table_a_ab)
      = Ok (MAP_DONE, s')
    ∧ keys_sent (trace s') = keys_of "2"
    ∧ ("2"%char ∈ keys_sent (trace (with_keys "a" table_a_ab))
       ∨ "2"%char ∈ content (with_keys "a" table_a_ab)
       ∨ "2"%char ∈ take (Z.to_nat 1) (keys_of "b")
       ∨ ∃ m, m ∈ mlist (with_keys "a" table_a_ab) ∧ "2"%char ∈ mapped m).
Proof.
  assert (Hwf : wf_state (with_keys "a" table_a_ab)) by by_compute.
  assert (H : ∃ s', map_handle_keys (E := vi_env) 3 (keys_of "b") 1
                      (with_keys "a" table_a_ab) = Ok (MAP_DONE, s')
                    ∧ keys_sent (trace s') = keys_of "2")
    by (eexists; split; vm_compute; reflexivity).
  destruct H as (s' & H & Hsent). exists s'.
  split; [exact Hwf |]. split; [simpl; lia |]. split; [exact H |]. split; [exact Hsent |].
  apply (only_typed_or_mapped_keys_sent (E := vi_env) 3 (keys_of "b") 1
           (with_keys "a" table_a_ab) MAP_DONE s' "2"%char Hwf);
    [simpl; lia | exact H |].
  left. rewrite Hsent. by apply elem_of_cons; left.
Defined.
